(** * Tipjar: extraction of tip-distribution reports and allocation of the pool

    A shallow embedding of the pure parts of the repository:

    - the allocator [distributeTips] of [apps/web/src/utils/rounding.ts];
    - the extractors [parseContent] (Netlify function, Vercel function,
      Express server) and [parseManualText] (web fallback);
    - the edits of the table made by the component [App]
      ([removePartner], [addPartner], [handleManualParse]);
    - what the three handlers do with the answer of the OCR service.

    JavaScript numbers are IEEE 754 binary64 values.  They are modelled by
    [spec_float] with the operations of [SpecFloat] at precision 53 and
    maximal exponent 1024, so that every arithmetic step of the source is
    evaluated with the rounding the engine performs.  JavaScript strings are
    sequences of UTF-16 code units. *)

From Stdlib Require Import Ascii String.
From Stdlib Require Import ZArith NArith PArith List Bool Lia.
From Stdlib Require Import Floats.SpecFloat.
Import ListNotations.

Local Open Scope Z_scope.

(* ================================================================== *)
(** * Part I: definitions                                              *)
(* ================================================================== *)

(** ** Completions

    A JavaScript call either returns normally or throws.  The only
    operation used by the allocator that can throw is
    [Number.prototype.toFixed], which raises a [RangeError] when the
    requested number of fraction digits is outside 0..100. *)

Inductive js_error : Type :=
| RangeError
| TypeError.

Inductive completion (A : Type) : Type :=
| Normal (a : A)
| Throw (e : js_error).

Arguments Normal {A} a.
Arguments Throw {A} e.

Definition bind {A B : Type} (c : completion A) (k : A -> completion B)
  : completion B :=
  match c with
  | Normal a => k a
  | Throw e => Throw e
  end.

Notation "x <- c ;; k" := (bind c (fun x => k))
  (at level 61, c at next level, right associativity).

(** [Array.prototype.map] with a callback that may throw. *)
Fixpoint mapM {A B : Type} (f : A -> completion B) (l : list A)
  : completion (list B) :=
  match l with
  | [] => Normal []
  | a :: t => b <- f a ;; bs <- mapM f t ;; Normal (b :: bs)
  end.

(** ** Numbers *)

Module JSNumber.

Definition prec : Z := 53.
Definition emax : Z := 1024.

Definition number : Type := spec_float.

Definition NaN : number := S754_nan.
Definition pos_zero : number := S754_zero false.
Definition neg_zero : number := S754_zero true.
Definition infinity (neg : bool) : number := S754_infinity neg.

Definition add : number -> number -> number := SFadd prec emax.
Definition sub : number -> number -> number := SFsub prec emax.
Definition mul : number -> number -> number := SFmul prec emax.
Definition div : number -> number -> number := SFdiv prec emax.

(** [a < b], [a > b] and [a === b] on numbers. *)
Definition lt (a b : number) : bool := SFltb a b.
Definition gt (a b : number) : bool := SFltb b a.
Definition strict_eq (a b : number) : bool := SFeqb a b.

Definition is_nan (x : number) : bool :=
  match x with S754_nan => true | _ => false end.
Definition is_zero (x : number) : bool :=
  match x with S754_zero _ => true | _ => false end.
Definition is_finite (x : number) : bool :=
  match x with S754_zero _ | S754_finite _ _ _ => true | _ => false end.

(** The number denoted by an integer literal. *)
Definition of_Z (k : Z) : number := binary_normalize prec emax k 0 false.

(** The number nearest to the fraction [n / d] (round to nearest, ties to
    even), with sign [neg]: the value of a decimal literal. *)
Definition of_ratio (neg : bool) (n : N) (d : positive) : number :=
  match n with
  | N0 => S754_zero neg
  | Npos p => SFdiv prec emax (S754_finite neg p 0) (S754_finite false d 0)
  end.

(** [ToBoolean]: [NaN], [+0] and [-0] are falsy. *)
Definition truthy (x : number) : bool := negb (is_nan x || is_zero x).

(** [x || 0] *)
Definition or_zero (x : number) : number :=
  if truthy x then x else pos_zero.

(** Exact value of a finite number in units of [2^emin'], where
    [emin' = 3 - emax - prec = -1074] is the exponent of the smallest
    subnormal.  Every finite binary64 value is an integral number of such
    units, so the order of the exact values is the order of [Z]. *)
Definition emin' : Z := 3 - emax - prec.
Definition unit_ticks : Z := 2 ^ (- emin').

Definition ticks (x : number) : Z :=
  match x with
  | S754_finite s m e => cond_Zopp s (Zpos m) * 2 ^ (e - emin')
  | _ => 0
  end.

(** Results of the arithmetic operations carry an exponent of at least
    [emin']; on those [ticks] is exact. *)
Definition exp_ok (x : number) : Prop :=
  match x with
  | S754_finite _ _ e => emin' <= e
  | _ => True
  end.

(** The order of the exact values, on numbers other than [NaN]. *)
Definition num_lt (a b : number) : bool :=
  match a, b with
  | S754_nan, _ | _, S754_nan => false
  | S754_infinity sa, S754_infinity sb => sa && negb sb
  | S754_infinity sa, _ => sa
  | _, S754_infinity sb => negb sb
  | _, _ => ticks a <? ticks b
  end.

(** [Math.floor]: the largest integer not above [x]. *)
Definition Math_floor (x : number) : number :=
  match x with
  | S754_finite s m e =>
      if 0 <=? e then x
      else
        let k := Z.shiftr (cond_Zopp s (Zpos m)) (- e) in
        if k =? 0 then pos_zero else of_Z k
  | _ => x
  end.

(** [Math.round]: the integer nearest to [x], ties towards [+Infinity];
    the result is [-0] for [-0.5 <= x < 0]. *)
Definition Math_round (x : number) : number :=
  match x with
  | S754_finite s m e =>
      if 0 <=? e then x
      else
        let k := Z.shiftr (2 * cond_Zopp s (Zpos m) + 2 ^ (- e)) (1 - e) in
        if k =? 0 then S754_zero s else of_Z k
  | _ => x
  end.

(** The strings produced by [toFixed], by what they spell. *)
Inductive NumericString : Type :=
| StrNaN
| StrInfinity (neg : bool)
| StrFixed (neg : bool) (n : N) (f : N)
    (** optional ["-"], then the decimal digits of [n] with a point before
        the last [f] of them (padded with zeros on the left) *)
| StrShortest (x : number)
    (** [Number::toString x], the shortest decimal that reads back as [x];
        used by [toFixed] from 10^21 upwards *).

Definition ten_pow_21 : number := of_Z (10 ^ 21).

(** For finite [x >= 0]: the integer [n] for which [n / 10^f - x] is as
    close to zero as possible, the larger one if there are two. *)
Definition nearest_scaled (m : positive) (e : Z) (f : N) : N :=
  let p := 10 ^ Z.of_N f in
  Z.to_N
    (if 0 <=? e then Zpos m * 2 ^ e * p
     else Z.shiftr (2 * (Zpos m * p) + 2 ^ (- e)) (1 - e)).

(** The string built by [toFixed] once its argument is accepted. *)
Definition fixed_string (x : number) (f : N) : NumericString :=
  match x with
  | S754_nan => StrNaN
  | S754_infinity s => StrInfinity s
  | S754_zero _ => StrFixed false 0 f
  | S754_finite s m e =>
      if SFleb ten_pow_21 (S754_finite false m e) then StrShortest x
      else StrFixed s (nearest_scaled m e f) f
  end.

(** [Number.prototype.toFixed(fractionDigits)] *)
Definition toFixed (x : number) (fractionDigits : Z)
  : completion NumericString :=
  if (fractionDigits <? 0) || (100 <? fractionDigits) then Throw RangeError
  else Normal (fixed_string x (Z.to_N fractionDigits)).

(** [Number(s)] on those strings. *)
Definition Number (s : NumericString) : number :=
  match s with
  | StrNaN => NaN
  | StrInfinity neg => infinity neg
  | StrFixed neg n f => of_ratio neg n (Z.to_pos (10 ^ Z.of_N f))
  | StrShortest x => x
  end.

(** [Number(v.toFixed(2))] when nothing is thrown. *)
Definition round2 (v : number) : number := Number (fixed_string v 2).

End JSNumber.

(** ** Strings *)

Module JSString.

(** A string is its sequence of UTF-16 code units. *)
Definition code_unit : Type := N.
Definition jsstring : Type := list code_unit.

(** The string spelled by an ASCII literal. *)
Definition js (s : string) : jsstring :=
  List.map N_of_ascii (list_ascii_of_string s).

Fixpoint eqb (a b : jsstring) : bool :=
  match a, b with
  | [], [] => true
  | x :: a', y :: b' => N.eqb x y && eqb a' b'
  | _, _ => false
  end.

Definition LF : code_unit := 10%N.
Definition CR : code_unit := 13%N.
Definition en_dash : code_unit := 8211%N.

(** ECMAScript [LineTerminator]: LF, CR, LS, PS. *)
Definition is_line_terminator (c : code_unit) : bool :=
  (N.eqb c 10 || N.eqb c 13 || N.eqb c 8232 || N.eqb c 8233)%N.

(** ECMAScript [WhiteSpace] or [LineTerminator]: the class [\s] and the
    characters removed by [trim]. *)
Definition is_space (c : code_unit) : bool :=
  ((9 <=? c) && (c <=? 13) || N.eqb c 32 || N.eqb c 160 || N.eqb c 5760
   || (8192 <=? c) && (c <=? 8202) || N.eqb c 8232 || N.eqb c 8233
   || N.eqb c 8239 || N.eqb c 8287 || N.eqb c 12288 || N.eqb c 65279)%N.

Definition is_digit (c : code_unit) : bool := ((48 <=? c) && (c <=? 57))%N.
Definition is_upper (c : code_unit) : bool := ((65 <=? c) && (c <=? 90))%N.
Definition is_lower (c : code_unit) : bool := ((97 <=? c) && (c <=? 122))%N.

(** [Canonicalize] of a non-unicode, case-insensitive pattern, on the
    characters that can equal an ASCII pattern character: a code unit
    from 128 upwards is never mapped below 128. *)
Definition canonicalize (c : code_unit) : code_unit :=
  if is_lower c then (c - 32)%N else c.

Fixpoint drop_spaces (s : jsstring) : jsstring :=
  match s with
  | c :: t => if is_space c then drop_spaces t else s
  | [] => []
  end.

(** [String.prototype.trim] *)
Definition trim (s : jsstring) : jsstring :=
  rev (drop_spaces (rev (drop_spaces s))).

(** [Boolean(s)]: the empty string is falsy. *)
Definition truthy (s : jsstring) : bool :=
  match s with [] => false | _ => true end.

End JSString.

(** ** The allocator ([apps/web/src/utils/rounding.ts]) *)

Module Rounding.
Import JSNumber JSString.

(** [types.ts]: [Partner] *)
Record Partner : Type := mkPartner {
  partner_number : jsstring;
  partner_global_id : option jsstring;
  name : jsstring;
  hours : number
}.

(** [PartnerPayout = Partner & { payout; roundedPayout }] *)
Record PartnerPayout : Type := mkPartnerPayout {
  partner : Partner;
  payout : number;
  roundedPayout : number
}.

Record DistributeResult : Type := mkDistributeResult {
  payouts : list PartnerPayout;
  hourlyRate : number;
  roundingDelta : number
}.

(** [ROUNDING_UNIT[mode]].  The type [RoundingMode] admits five tokens,
    but the value reaches the allocator unchecked from persisted state, so
    the lookup is modelled on arbitrary strings; a key that is not an own
    property yields no number. *)
Definition ROUNDING_UNIT (mode : jsstring) : option number :=
  if eqb mode (js "none") then Some pos_zero
  else if eqb mode (js "cent") then Some (of_ratio false 1 100)
  else if eqb mode (js "dime") then Some (of_ratio false 1 10)
  else if eqb mode (js "quarter") then Some (of_ratio false 25 100)
  else if eqb mode (js "dollar") then Some (of_Z 1)
  else None.

(** [ToNumber] of the looked-up unit: [undefined] becomes [NaN]. *)
Definition unit_number (u : option number) : number :=
  match u with Some x => x | None => NaN end.

Definition applyRounding (value : number) (mode : jsstring) : number :=
  if eqb mode (js "none") then value
  else
    let unit := unit_number (ROUNDING_UNIT mode) in
    mul (Math_round (div value unit)) unit.

(** [Number(v.toFixed(2))] *)
Definition toFixed2 (v : number) : completion number :=
  s <- toFixed v 2 ;; Normal (Number s).

(** Lines 39-41. *)
Definition hoursSum_of (partners : list Partner) (totalHours : option number)
  : number :=
  match totalHours with
  | Some h => h
  | None =>
      fold_left (fun sum partner => add sum (or_zero (hours partner)))
        partners pos_zero
  end.

Definition hourlyRate_of (partners : list Partner) (totalTips : number)
    (totalHours : option number) : number :=
  let hoursSum := hoursSum_of partners totalHours in
  let safeHours := if gt hoursSum pos_zero then hoursSum else pos_zero in
  if gt safeHours pos_zero then div totalTips safeHours else pos_zero.

(** Lines 43-47: the payouts before reconciliation. *)
Definition initial_payout (rate : number) (rounding : jsstring)
    (p : Partner) : completion PartnerPayout :=
  let payout := mul (or_zero (hours p)) rate in
  roundedPayout <- toFixed2 (applyRounding payout rounding) ;;
  Normal (mkPartnerPayout p payout roundedPayout).

Definition initial_payouts (partners : list Partner) (rate : number)
    (rounding : jsstring) : completion (list PartnerPayout) :=
  mapM (initial_payout rate rounding) partners.

Definition set_roundedPayout (p : PartnerPayout) (r : number)
  : PartnerPayout :=
  mkPartnerPayout (partner p) (payout p) r.

(** The comparator of line 61: a positive result moves [b] before [a]. *)
Definition fraction (p : PartnerPayout) : number :=
  sub (payout p) (Math_floor (payout p)).

Definition compare_fraction (a b : PartnerPayout) : number :=
  sub (fraction b) (fraction a).

(** [Array.prototype.sort] is stable, and for a comparator that is
    consistent the sorted order is then unique; it is denoted here by a
    stable insertion sort.  The array holds references: an element is the
    index of its object in [payouts] together with the object. *)
Fixpoint insert_sorted {A : Type} (cmp : A -> A -> number) (x : A)
    (l : list A) : list A :=
  match l with
  | [] => [x]
  | y :: t =>
      if gt (cmp x y) pos_zero then y :: insert_sorted cmp x t
      else x :: l
  end.

Fixpoint sort {A : Type} (cmp : A -> A -> number) (l : list A) : list A :=
  match l with
  | [] => []
  | x :: t => insert_sorted cmp x (sort cmp t)
  end.

Fixpoint indexed_from {A : Type} (i : nat) (l : list A) : list (nat * A) :=
  match l with
  | [] => []
  | x :: t => (i, x) :: indexed_from (S i) t
  end.

(** Assignment to a field of the object at index [i]. *)
Fixpoint update {A : Type} (i : nat) (f : A -> A) (l : list A) : list A :=
  match l, i with
  | [], _ => []
  | x :: t, O => f x :: t
  | x :: t, S j => x :: update j f t
  end.

Definition distributeTips (partners : list Partner) (totalTips : number)
    (rounding : jsstring) (totalHours : option number)
  : completion DistributeResult :=
  let hourlyRate := hourlyRate_of partners totalTips totalHours in
  payouts <- initial_payouts partners hourlyRate rounding ;;
  if eqb rounding (js "none") then
    payouts' <- mapM (fun p =>
                        r <- toFixed2 (payout p) ;;
                        Normal (set_roundedPayout p r)) payouts ;;
    Normal (mkDistributeResult payouts' hourlyRate pos_zero)
  else
    let roundedTotal :=
      fold_left (fun sum partner => add sum (roundedPayout partner))
        payouts pos_zero in
    delta <- toFixed2 (sub totalTips roundedTotal) ;;
    if strict_eq delta pos_zero then
      Normal (mkDistributeResult payouts hourlyRate pos_zero)
    else
      let sorted :=
        sort (fun a b => compare_fraction (snd a) (snd b))
          (indexed_from 0 payouts) in
      payouts' <-
        match sorted with
        | (i, first) :: _ =>
            r <- toFixed2 (add (roundedPayout first) delta) ;;
            Normal (update i (fun p => set_roundedPayout p r) payouts)
        | [] => Normal payouts
        end ;;
      Normal (mkDistributeResult payouts' hourlyRate delta).

End Rounding.

(** ** Regular expressions

    The patterns of the extractors use literals, character classes, groups,
    greedy and lazy repetition and the two anchors.  A pattern denotes, for
    an input and a start state, the list of its matches in the order in
    which the backtracking matcher of ECMAScript tries them; the match an
    engine reports is the first element. *)

Module Regex.
Import JSString.

Inductive regex : Type :=
| Eps
| Chr (p : code_unit -> bool)
| Seq (r1 r2 : regex)
| Alt (r1 r2 : regex)
| Star (greedy : bool) (r : regex)
| Group (i : nat) (r : regex)
| Bol
| Eol.

Notation "r1 >> r2" := (Seq r1 r2) (at level 60, right associativity).

(** [r+], [r?], [r{n}], [r{n,m}] (greedy). *)
Definition plus (r : regex) : regex := r >> Star true r.
Definition opt (r : regex) : regex := Alt r Eps.

Fixpoint upto (k : nat) (r : regex) : regex :=
  match k with
  | O => Eps
  | S k' => opt (r >> upto k' r)
  end.

Fixpoint rep (n : nat) (r : regex) (tail : regex) : regex :=
  match n with
  | O => tail
  | S n' => r >> rep n' r tail
  end.

Definition range (n m : nat) (r : regex) : regex :=
  rep n r (upto (m - n) r).

(** Character classes. *)
Definition lit (a : ascii) : regex := Chr (N.eqb (N_of_ascii a)).
Definition lit_ci (a : ascii) : regex :=
  Chr (fun c => N.eqb (canonicalize c) (canonicalize (N_of_ascii a))).
Definition digit : regex := Chr is_digit.
Definition space : regex := Chr is_space.
Definition non_space : regex := Chr (fun c => negb (is_space c)).
Definition dot : regex := Chr (fun c => negb (is_line_terminator c)).

Fixpoint word_ci (s : string) (tail : regex) : regex :=
  match s with
  | EmptyString => tail
  | String a s' => lit_ci a >> word_ci s' tail
  end.

(** A state of the matcher: what is left of the input, and the captures
    made so far (the most recent binding of a group first). *)
Record mstate : Type := mkState {
  rest : jsstring;
  caps : list (nat * jsstring)
}.

Fixpoint star_loop (step : mstate -> list mstate) (greedy : bool)
    (fuel : nat) (x : mstate) : list mstate :=
  match fuel with
  | O => [x]
  | S n =>
      let more :=
        flat_map
          (fun y =>
             if (length (rest y) <? length (rest x))%nat
             then star_loop step greedy n y
             else [])
          (step x) in
      if greedy then more ++ [x] else x :: more
  end.

Fixpoint matches (input : jsstring) (r : regex) (x : mstate)
  : list mstate :=
  match r with
  | Eps => [x]
  | Chr p =>
      match rest x with
      | c :: t => if p c then [mkState t (caps x)] else []
      | [] => []
      end
  | Seq r1 r2 => flat_map (matches input r2) (matches input r1 x)
  | Alt r1 r2 => matches input r1 x ++ matches input r2 x
  | Star greedy r' =>
      star_loop (matches input r') greedy (S (length (rest x))) x
  | Group i r' =>
      List.map
        (fun y =>
           mkState (rest y)
             ((i, firstn (length (rest x) - length (rest y)) (rest x))
                :: caps y))
        (matches input r' x)
  | Bol => if (length (rest x) =? length input)%nat then [x] else []
  | Eol => match rest x with [] => [x] | _ => [] end
  end.

(** The match array: element 0 is the matched text, element [i] the text
    captured by group [i], if it took part in the match. *)
Definition match_array : Type := list (nat * jsstring).

Fixpoint group (i : nat) (m : match_array) : option jsstring :=
  match m with
  | [] => None
  | (j, s) :: t => if Nat.eqb i j then Some s else group i t
  end.

(** [ToString] of an element of the match array. *)
Definition text (o : option jsstring) : jsstring :=
  match o with
  | Some s => s
  | None => js "undefined"
  end.

(** The first match of [r] that starts where [suffix] starts. *)
Definition match_at (input : jsstring) (r : regex) (suffix : jsstring)
  : option mstate :=
  match matches input (Group 0 r) (mkState suffix []) with
  | y :: _ => Some y
  | [] => None
  end.

(** [RegExp.prototype.exec] and [String.prototype.match] for a pattern
    without the global flag: the leftmost match. *)
Fixpoint exec_from (input : jsstring) (r : regex) (suffix : jsstring)
  : option match_array :=
  match match_at input r suffix with
  | Some y => Some (caps y)
  | None =>
      match suffix with
      | [] => None
      | _ :: t => exec_from input r t
      end
  end.

Definition exec (r : regex) (input : jsstring) : option match_array :=
  exec_from input r input.

(** [String.prototype.split] with a pattern that has no capturing group.
    [piece] holds, in reverse, the characters since the last separator. *)
Fixpoint split_loop (fuel : nat) (input : jsstring) (r : regex)
    (piece suffix : jsstring) : list jsstring :=
  match fuel with
  | O => [rev piece ++ suffix]
  | S n =>
      match suffix with
      | [] => [rev piece]
      | c :: t =>
          match match_at input r suffix with
          | Some y =>
              if (length (rest y) =? length suffix)%nat
                 && negb (truthy piece)
              then split_loop n input r (c :: piece) t
              else rev piece :: split_loop n input r [] (rest y)
          | None => split_loop n input r (c :: piece) t
          end
      end
  end.

Definition split (r : regex) (input : jsstring) : list jsstring :=
  match input with
  | [] => match match_at input r [] with Some _ => [] | None => [[]] end
  | _ => split_loop (S (2 * length input)) input r [] input
  end.

End Regex.

(** ** [Number.parseFloat] *)

Module ParseFloat.
Import JSNumber JSString.

Fixpoint span (p : code_unit -> bool) (s : jsstring)
  : jsstring * jsstring :=
  match s with
  | c :: t =>
      if p c then let '(a, b) := span p t in (c :: a, b) else ([], s)
  | [] => ([], [])
  end.

Definition digits_value (ds : jsstring) : N :=
  fold_left (fun acc c => (10 * acc + (c - 48))%N) ds 0%N.

Fixpoint starts_with (pre s : jsstring) : bool :=
  match pre, s with
  | [], _ => true
  | a :: pre', b :: s' => N.eqb a b && starts_with pre' s'
  | _ :: _, [] => false
  end.

(** The exponent part [e], [e+] or [e-] followed by digits, if present. *)
Definition exponent_part (s : jsstring) : Z :=
  match s with
  | c :: t =>
      if (N.eqb c 101 || N.eqb c 69)%N then
        let '(neg, t') :=
          match t with
          | d :: t'' =>
              if N.eqb d 45 then (true, t'')
              else if N.eqb d 43 then (false, t'') else (false, t)
          | [] => (false, t)
          end in
        let ds := fst (span is_digit t') in
        match ds with
        | [] => 0
        | _ => cond_Zopp neg (Z.of_N (digits_value ds))
        end
      else 0
  | [] => 0
  end.

(** The value of the longest prefix of [s] that is a decimal literal. *)
Definition unsigned_literal (neg : bool) (s : jsstring) : number :=
  if starts_with (js "Infinity") s then infinity neg
  else
    let '(int_digits, s1) := span is_digit s in
    let '(frac_digits, s2) :=
      match s1 with
      | c :: t => if N.eqb c 46 then span is_digit t else ([], s1)
      | [] => ([], s1)
      end in
    match int_digits ++ frac_digits with
    | [] => NaN
    | ds =>
        let k := exponent_part s2 - Z.of_nat (length frac_digits) in
        if 0 <=? k
        then of_ratio neg (digits_value ds * Z.to_N (10 ^ k)) 1
        else of_ratio neg (digits_value ds) (Z.to_pos (10 ^ (- k)))
    end.

Definition parseFloat (s : jsstring) : number :=
  match drop_spaces s with
  | c :: t =>
      if N.eqb c 45 then unsigned_literal true t
      else if N.eqb c 43 then unsigned_literal false t
      else unsigned_literal false (c :: t)
  | [] => NaN
  end.

End ParseFloat.

(** ** The extractors *)

Module Extract.
Import JSNumber JSString Regex ParseFloat.
Export Rounding.

(** [/\r?\n/] *)
Definition line_break : regex := opt (lit "013") >> lit "010".

(** [[0-9]+(?:\.[0-9]{1,2})?] *)
Definition decimal : regex :=
  plus digit >> opt (lit "." >> range 1 2 digit).

(** [/^(\d{4,6})\s+(.*?\S)\s+(US[A-Z0-9]+)\s+([0-9]+(?:\.[0-9]{1,2})?)$/] *)
Definition upper_or_digit : regex :=
  Chr (fun c => is_upper c || is_digit c).

Definition partnerRegex : regex :=
  Bol >> Group 1 (range 4 6 digit) >> plus space
      >> Group 2 (Star false dot >> non_space) >> plus space
      >> Group 3 (lit "U" >> lit "S" >> plus upper_or_digit) >> plus space
      >> Group 4 decimal >> Eol.

(** [/Total Tippable Hours:\s*([0-9]+(?:\.[0-9]{1,2})?)/i] *)
Definition hoursRegex : regex :=
  word_ci "Total Tippable Hours:" (Star true space >> Group 1 decimal).

(** [/Store\s+#?(\d{4,6})/i] *)
Definition storeRegex : regex :=
  word_ci "Store" (plus space >> opt (lit "#") >> Group 1 (range 4 6 digit)).

(** [/(\d{1,2}\/\d{1,2}\/\d{2,4})\s*[–-]\s*(\d{1,2}\/\d{1,2}\/\d{2,4})/] *)
Definition date : regex :=
  range 1 2 digit >> lit "/" >> range 1 2 digit >> lit "/"
    >> range 2 4 digit.

Definition dash : regex :=
  Chr (fun c => N.eqb c en_dash || N.eqb c (N_of_ascii "-")).

Definition dateRegex : regex :=
  Group 1 date >> Star true space >> dash >> Star true space
    >> Group 2 date.

(** [content.split(/\r?\n/).map((line) => line.trim()).filter(Boolean)] *)
Definition lines_of (content : jsstring) : list jsstring :=
  filter truthy (List.map trim (split line_break content)).

(** The body of the loop over the lines: the partner pushed for a line,
    if the line matches. *)
Definition partner_of_line (re : regex) (line : jsstring)
  : option Partner :=
  match exec re line with
  | Some m =>
      Some {| partner_number := text (group 1 m);
              name := text (group 2 m);
              partner_global_id := group 3 m;
              hours := parseFloat (text (group 4 m)) |}
  | None => None
  end.

Fixpoint push_partners (re : regex) (lines : list jsstring)
    (partners : list Partner) : list Partner :=
  match lines with
  | [] => partners
  | line :: t =>
      match partner_of_line re line with
      | Some p => push_partners re t (partners ++ [p])
      | None => push_partners re t partners
      end
  end.

(** [`${dateMatch[1]}–${dateMatch[2]}`] *)
Definition period_of (m : match_array) : jsstring :=
  text (group 1 m) ++ [en_dash] ++ text (group 2 m).

(** [!totalHours] *)
Definition not_number (h : option number) : bool :=
  match h with
  | Some x => negb (JSNumber.truthy x)
  | None => true
  end.

Record ParseContentResult : Type := mkParseContentResult {
  partners : list Partner;
  totalHours : option number;
  storeNumber : option jsstring;
  timePeriod : option jsstring;
  warnings : list jsstring
}.

Definition no_rows_warning : jsstring :=
  js "No partner rows detected. Ensure the upload is a Tip Distribution Report.".
Definition no_hours_warning : jsstring :=
  js "Total tippable hours not found. You may need to enter them manually.".

(** [apps/api/extract.ts], the Netlify function. *)
Module Netlify.
Definition parseContent (content : jsstring) : ParseContentResult :=
  let lines := lines_of content in
  let partners := push_partners partnerRegex lines [] in
  let totalHours :=
    match exec hoursRegex content with
    | Some hoursMatch => Some (parseFloat (text (group 1 hoursMatch)))
    | None => None
    end in
  let storeNumber :=
    match exec storeRegex content with
    | Some storeMatch => Some (text (group 1 storeMatch))
    | None => None
    end in
  let timePeriod :=
    match exec dateRegex content with
    | Some dateMatch => Some (period_of dateMatch)
    | None => None
    end in
  let warnings := [] in
  let warnings :=
    match partners with
    | [] => warnings ++ [no_rows_warning]
    | _ => warnings
    end in
  let warnings :=
    if not_number totalHours then warnings ++ [no_hours_warning]
    else warnings in
  mkParseContentResult partners totalHours storeNumber timePeriod warnings.
End Netlify.

(** [api/extract.ts], the Vercel function. *)
Module Vercel.
Definition parseContent (content : jsstring) : ParseContentResult :=
  let lines := filter truthy (List.map trim (split line_break content)) in
  let partners := push_partners partnerRegex lines [] in
  let totalHours :=
    match exec hoursRegex content with
    | Some hoursMatch => Some (parseFloat (text (group 1 hoursMatch)))
    | None => None
    end in
  let storeNumber :=
    match exec storeRegex content with
    | Some storeMatch => Some (text (group 1 storeMatch))
    | None => None
    end in
  let timePeriod :=
    match exec dateRegex content with
    | Some dateMatch => Some (period_of dateMatch)
    | None => None
    end in
  let warnings := [] in
  let warnings :=
    match partners with
    | [] => warnings ++ [no_rows_warning]
    | _ => warnings
    end in
  let warnings :=
    if not_number totalHours then warnings ++ [no_hours_warning]
    else warnings in
  mkParseContentResult partners totalHours storeNumber timePeriod warnings.
End Vercel.

(** [server/index.js], the Express server. *)
Module Server.
Definition parseContent (content : jsstring) : ParseContentResult :=
  let lines := filter truthy (List.map trim (split line_break content)) in
  let partners := push_partners partnerRegex lines [] in
  let totalHours :=
    match exec hoursRegex content with
    | Some hoursMatch => Some (parseFloat (text (group 1 hoursMatch)))
    | None => None
    end in
  let storeNumber :=
    match exec storeRegex content with
    | Some storeMatch => Some (text (group 1 storeMatch))
    | None => None
    end in
  let timePeriod :=
    match exec dateRegex content with
    | Some dateMatch => Some (period_of dateMatch)
    | None => None
    end in
  let warnings := [] in
  let warnings :=
    match partners with
    | [] => warnings ++ [no_rows_warning]
    | _ => warnings
    end in
  let warnings :=
    if not_number totalHours then warnings ++ [no_hours_warning]
    else warnings in
  mkParseContentResult partners totalHours storeNumber timePeriod warnings.
End Server.

(** [apps/web/src/utils/parser.ts], the fallback for pasted text. *)
Module Web.
Record ManualResult : Type := mkManualResult {
  partners : list Partner;
  total_tippable_hours : option number;
  store_number : option jsstring;
  time_period : option jsstring;
  warnings : list jsstring
}.

Definition no_rows_warning : jsstring :=
  js "No partner rows detected in the pasted text.".

Definition parseManualText (content : jsstring) : ManualResult :=
  let lines := lines_of content in
  let partners := push_partners partnerRegex lines [] in
  let warnings := [] in
  let hoursMatch := exec hoursRegex content in
  let storeMatch := exec storeRegex content in
  let dateMatch := exec dateRegex content in
  let warnings :=
    match partners with
    | [] => warnings ++ [no_rows_warning]
    | _ => warnings
    end in
  {| partners := partners;
     total_tippable_hours :=
       match hoursMatch with
       | Some m => Some (parseFloat (text (group 1 m)))
       | None => None
       end;
     store_number :=
       match storeMatch with
       | Some m => Some (text (group 1 m))
       | None => None
       end;
     time_period :=
       match dateMatch with
       | Some m => Some (period_of m)
       | None => None
       end;
     warnings := warnings |}.
End Web.

End Extract.

(** ** The application state ([apps/web/src/App.tsx]) *)

Module App.
Import JSNumber JSString.
Export Rounding.

(** [types.ts]: [ExtractionResult] *)
Record ExtractionResult : Type := mkExtractionResult {
  store_number : option jsstring;
  time_period : option jsstring;
  total_tippable_hours : option number;
  partners : list Partner;
  confidence : option number;
  warnings : list jsstring
}.

Definition EMPTY_RESULT : ExtractionResult :=
  {| store_number := None; time_period := None;
     total_tippable_hours := None; partners := [];
     confidence := None; warnings := [] |}.

(** [Array.prototype.filter] with a callback that looks at the index
    only. *)
Fixpoint filter_index {A : Type} (keep : nat -> bool) (idx : nat)
    (l : list A) : list A :=
  match l with
  | [] => []
  | x :: t =>
      if keep idx then x :: filter_index keep (S idx) t
      else filter_index keep (S idx) t
  end.

(** [removePartner]: the state update passed to [setResult]. *)
Definition removePartner (index : nat) (prev : ExtractionResult)
  : ExtractionResult :=
  let partners :=
    filter_index (fun idx => negb (Nat.eqb idx index)) 0 (partners prev) in
  {| store_number := store_number prev;
     time_period := time_period prev;
     total_tippable_hours := total_tippable_hours prev;
     partners := partners;
     confidence := confidence prev;
     warnings := warnings prev |}.

(** The row appended by [addPartner]. *)
Definition blank_partner : Partner :=
  {| partner_number := []; name := []; partner_global_id := Some [];
     hours := pos_zero |}.

Definition addPartner (prev : ExtractionResult) : ExtractionResult :=
  {| store_number := store_number prev;
     time_period := time_period prev;
     total_tippable_hours := total_tippable_hours prev;
     partners := partners prev ++ [blank_partner];
     confidence := confidence prev;
     warnings := warnings prev |}.

(** [handleManualParse]: the pasted text is parsed and merged into the
    previous result. *)
Definition handleManualParse (manualText : jsstring)
    (prev : ExtractionResult) : ExtractionResult :=
  let parsed := Extract.Web.parseManualText manualText in
  {| warnings := Extract.Web.warnings parsed;
     partners :=
       match Extract.Web.partners parsed with
       | [] => partners prev
       | _ => Extract.Web.partners parsed
       end;
     total_tippable_hours :=
       match Extract.Web.total_tippable_hours parsed with
       | Some h => Some h
       | None => total_tippable_hours prev
       end;
     store_number :=
       match Extract.Web.store_number parsed with
       | Some s => Some s
       | None => store_number prev
       end;
     time_period :=
       match Extract.Web.time_period parsed with
       | Some t => Some t
       | None => time_period prev
       end;
     confidence := confidence prev |}.

(** [totalHoursFromRows]; [Number] leaves a number as it is. *)
Definition totalHoursFromRows (result : ExtractionResult) : number :=
  fold_left (fun sum partner => add sum (or_zero (hours partner)))
    (partners result) pos_zero.

(** The call of [distributeTips] made by the component. *)
Definition distribution (result : ExtractionResult) (totalTips : number)
    (rounding : jsstring) : completion DistributeResult :=
  distributeTips (partners result) totalTips rounding
    (total_tippable_hours result).

End App.

(** ** The handlers, once the OCR service has answered

    [apps/api/extract.ts] (Netlify), [api/extract.ts] (Vercel) and
    [server/index.js] (Express): the [try] block of the handler from the
    value [azureResult] that [readAzure] resolves to, up to the object
    handed to [payloadSchema.parse].  An exception in the block is caught
    and answered with status 500. *)

Module Handler.
Import JSNumber JSString.

(** A value produced by [response.json()]. *)
#[warnings="-register-all"]
Inductive json : Type :=
| JNull
| JBool (b : bool)
| JNumber (x : number)
| JString (s : jsstring)
| JArray (items : list json)
| JObject (fields : list (jsstring * json)).

(** The own property [key] of an object read by [JSON.parse]: of two
    members with one name the later is kept.  [None] is [undefined]. *)
Fixpoint own (key : jsstring) (fields : list (jsstring * json))
  : option json :=
  match fields with
  | [] => None
  | (k, v) :: t =>
      match own key t with
      | Some v' => Some v'
      | None => if eqb k key then Some v else None
      end
  end.

(** [v.key], for the keys read by the handlers ([analyzeResult],
    [content], [pages], [words], [confidence]), which no prototype and
    no wrapper object defines: reading a property of [null] throws, and
    only an object can own the key. *)
Definition get (v : json) (key : jsstring) : completion (option json) :=
  match v with
  | JNull => Throw TypeError
  | JObject fields => Normal (own key fields)
  | _ => Normal None
  end.

(** [v?.key] *)
Definition get_opt (v : option json) (key : jsstring) : option json :=
  match v with
  | Some (JObject fields) => own key fields
  | _ => None
  end.

(** [azureResult?.analyzeResult?.key] *)
Definition analyzeResult_key (azureResult : json) (key : string)
  : option json :=
  get_opt (get_opt (Some azureResult) (js "analyzeResult")) (js key).

(** The strings yielded by iterating a string: its code points. *)
Definition is_high_surrogate (c : code_unit) : bool :=
  ((55296 <=? c) && (c <=? 56319))%N.
Definition is_low_surrogate (c : code_unit) : bool :=
  ((56320 <=? c) && (c <=? 57343))%N.

Fixpoint code_points (s : jsstring) : list jsstring :=
  match s with
  | [] => []
  | c :: t =>
      match t with
      | d :: t' =>
          if is_high_surrogate c && is_low_surrogate d
          then [c; d] :: code_points t'
          else [c] :: code_points t
      | [] => [[c]]
      end
  end.

(** The values a [for ... of] loop visits: arrays and strings are
    iterable, the other values are not. *)
Definition iterate (v : json) : completion (list json) :=
  match v with
  | JArray items => Normal items
  | JString s => Normal (List.map JString (code_points s))
  | _ => Throw TypeError
  end.

(** [for (const x of xs) { ... }] with a body that may push onto the
    array and may throw. *)
Fixpoint for_of {A B : Type} (body : A -> list B -> completion (list B))
    (xs : list A) (acc : list B) : completion (list B) :=
  match xs with
  | [] => Normal acc
  | x :: t => acc' <- body x acc ;; for_of body t acc'
  end.

(** The body of the loop over the words of a page. *)
Definition push_confidence (word : json) (wordConfidences : list number)
  : completion (list number) :=
  c <- get word (js "confidence") ;;
  match c with
  | Some (JNumber x) => Normal (wordConfidences ++ [x])
  | _ => Normal wordConfidences
  end.

(** The body of the loop over the pages. *)
Definition push_page (page : json) (wordConfidences : list number)
  : completion (list number) :=
  words <- get page (js "words") ;;
  match words with
  | Some (JArray items) => for_of push_confidence items wordConfidences
  | _ => Normal wordConfidences
  end.

(** The mean of the word confidences, to two decimals. *)
Definition confidence_of (wordConfidences : list number)
  : completion (option number) :=
  match wordConfidences with
  | [] => Normal None
  | _ =>
      c <- Rounding.toFixed2
             (div (fold_left (fun sum value => add sum value)
                     wordConfidences pos_zero)
                  (of_Z (Z.of_nat (length wordConfidences)))) ;;
      Normal (Some c)
  end.

(** The object handed to [payloadSchema.parse]. *)
Record Payload : Type := mkPayload {
  store_number : option jsstring;
  time_period : option jsstring;
  total_tippable_hours : option number;
  partners : list Rounding.Partner;
  confidence : option number;
  warnings : list jsstring
}.

Definition payload_of (r : Extract.ParseContentResult)
    (confidence : option number) : Payload :=
  {| store_number := Extract.storeNumber r;
     time_period := Extract.timePeriod r;
     total_tippable_hours := Extract.totalHours r;
     partners := Extract.partners r;
     confidence := confidence;
     warnings := Extract.warnings r |}.

(** [apps/api/extract.ts] *)
Module Netlify.
(** [azureResult?.analyzeResult?.content ?? ''], which [parseContent]
    splits: a value other than a string has no method [split]. *)
Definition content_of (azureResult : json) : completion jsstring :=
  match analyzeResult_key azureResult "content" with
  | None | Some JNull => Normal []
  | Some (JString s) => Normal s
  | Some _ => Throw TypeError
  end.

(** [azureResult?.analyzeResult?.pages ?? []], as the loop visits it. *)
Definition pages_of (azureResult : json) : completion (list json) :=
  match analyzeResult_key azureResult "pages" with
  | None | Some JNull => Normal []
  | Some v => iterate v
  end.

Definition process (azureResult : json) : completion Payload :=
  content <- content_of azureResult ;;
  let r := Extract.Netlify.parseContent content in
  pages <- pages_of azureResult ;;
  wordConfidences <- for_of push_page pages [] ;;
  confidence <- confidence_of wordConfidences ;;
  Normal (payload_of r confidence).
End Netlify.

(** [api/extract.ts] *)
Module Vercel.
Definition content_of (azureResult : json) : completion jsstring :=
  match analyzeResult_key azureResult "content" with
  | None | Some JNull => Normal []
  | Some (JString s) => Normal s
  | Some _ => Throw TypeError
  end.

Definition pages_of (azureResult : json) : completion (list json) :=
  match analyzeResult_key azureResult "pages" with
  | None | Some JNull => Normal []
  | Some v => iterate v
  end.

Definition process (azureResult : json) : completion Payload :=
  content <- content_of azureResult ;;
  let r := Extract.Vercel.parseContent content in
  pages <- pages_of azureResult ;;
  wordConfidences <- for_of push_page pages [] ;;
  confidence <- confidence_of wordConfidences ;;
  Normal (payload_of r confidence).
End Vercel.

(** [server/index.js] *)
Module Server.
(** [azureResult?.analyzeResult?.content || '']: a falsy value gives
    the empty string; a truthy one that is no string has no method
    [split]. *)
Definition content_of (azureResult : json) : completion jsstring :=
  match analyzeResult_key azureResult "content" with
  | None | Some JNull | Some (JBool false) => Normal []
  | Some (JNumber x) =>
      if JSNumber.truthy x then Throw TypeError else Normal []
  | Some (JString s) => Normal s
  | Some _ => Throw TypeError
  end.

(** [Array.isArray(pages) ? pages : []] *)
Definition pages_of (azureResult : json) : list json :=
  match analyzeResult_key azureResult "pages" with
  | Some (JArray items) => items
  | _ => []
  end.

Definition process (azureResult : json) : completion Payload :=
  content <- content_of azureResult ;;
  let r := Extract.Server.parseContent content in
  wordConfidences <- for_of push_page (pages_of azureResult) [] ;;
  confidence <- confidence_of wordConfidences ;;
  Normal (payload_of r confidence).
End Server.

End Handler.

(** ** Vocabulary of the allocator's properties *)

Section AllocatorVocabulary.
Import JSNumber JSString Rounding.

(** The shape of a rounded result. *)
Definition rounded (s : bool) (x : number) : Prop :=
  x = S754_zero s \/ x = S754_infinity s \/
  exists m e, x = S754_finite s m e /\ emin' <= e /\ Zpos (digits2_pos m) <= prec.

(** The exact share of a partner and its payout record before
    reconciliation. *)
Definition payout_of (rate : number) (p : Partner) : number :=
  mul (or_zero (hours p)) rate.

Definition quantized (rate : number) (rounding : jsstring) (p : Partner)
  : PartnerPayout :=
  mkPartnerPayout p (payout_of rate p)
    (round2 (applyRounding (payout_of rate p) rounding)).

Definition absorb (delta : number) (payouts : list PartnerPayout)
  : list PartnerPayout :=
  match sort (fun a b => compare_fraction (snd a) (snd b))
          (indexed_from 0 payouts) with
  | (i, first) :: _ =>
      update i
        (fun p => set_roundedPayout p (round2 (add (roundedPayout first) delta)))
        payouts
  | [] => payouts
  end.

Definition rounded_total (payouts : list PartnerPayout) : number :=
  fold_left (fun sum partner => add sum (roundedPayout partner)) payouts pos_zero.

Definition moved_before {A : Type} (cmp : A -> A -> number) (x y : A) : bool :=
  gt (cmp x y) pos_zero.

Definition is_infinite (x : number) : bool :=
  match x with S754_infinity _ => true | _ => false end.

Definition rounding_modes : list jsstring :=
  [js "none"; js "cent"; js "dime"; js "quarter"; js "dollar"].

Definition is_rounding_mode (token : jsstring) : bool :=
  existsb (eqb token) rounding_modes.

(** [r] is [x] to two decimal places: the number denoted by the decimal
    [n / 100] nearest to [x]. *)
Definition nearest_hundredth (x r : number) : Prop :=
  match x with
  | S754_finite s m e =>
      SFleb ten_pow_21 (S754_finite false m e) = false ->
      exists n : N,
        r = of_ratio s n 100 /\
        (2 * Z.of_N n - 1) * unit_ticks <= 200 * Z.abs (ticks x)
          < (2 * Z.of_N n + 1) * unit_ticks
  | S754_zero _ => r = pos_zero
  | _ => r = x
  end.

(** [K] is the integer nearest to [y], the upper one of two. *)
Definition nearest_integer (y K : number) : Prop :=
  match y with
  | S754_finite _ _ _ =>
      exists k : Z,
        is_finite K = true /\ ticks K = k * unit_ticks /\
        (2 * k - 1) * unit_ticks <= 2 * ticks y < (2 * k + 1) * unit_ticks
  | _ => K = y
  end.

Definition partner_of_hours (h : number) : Partner :=
  mkPartner (js "12345") (Some (js "US98765432")) (js "Smith, Alex J") h.

(** The multiple of [u] nearest to [x], the one away from zero of two, as
    the number of units; [x] and [u] are exact values. *)
Definition half_away_from_zero (x u : Z) : Z :=
  Z.sgn x * ((2 * Z.abs x + u) / (2 * u)).

Definition three_partners : list Partner :=
  [partner_of_hours (of_Z 1); partner_of_hours (of_Z 1); partner_of_hours (of_Z 1)].

(** The two amounts of a payout record. *)
Definition amounts (q : PartnerPayout) : number * number :=
  (payout q, roundedPayout q).

(** The hours the allocator counts for a partner: [partner.hours || 0]. *)
Definition counted_hours (p : Partner) : number := or_zero (hours p).

(** Two entries of the array handed to [sort] that agree on index and
    amounts. *)
Definition same_amounts (x y : nat * PartnerPayout) : Prop :=
  fst x = fst y /\ amounts (snd x) = amounts (snd y).

(** Some bit was shifted out of the record. *)
Definition inexact (mrs : shr_record) : bool := shr_r mrs || shr_s mrs.

(** [x] is a number of the format that is not negative and not above the
    integer [k]. *)
Definition bounded_by (k : Z) (x : number) : Prop :=
  match x with
  | S754_zero _ => True
  | S754_finite s m e =>
      s = false /\ emin' <= e /\ Zpos m * 2 ^ (e - emin') <= k * unit_ticks
  | _ => False
  end.

End AllocatorVocabulary.

(** ** Vocabulary of the extractors' properties *)

Section ExtractorVocabulary.
Import JSString Regex ParseFloat Extract.
Local Close Scope Z_scope.

(** The matches of a starred character class, written out. *)
Fixpoint star_chr (p : code_unit -> bool) (greedy : bool)
    (cs : list (nat * jsstring)) (s : jsstring) : list mstate :=
  match s with
  | c :: t =>
      if p c then
        if greedy then star_chr p greedy cs t ++ [mkState s cs]
        else mkState s cs :: star_chr p greedy cs t
      else [mkState s cs]
  | [] => [mkState [] cs]
  end.

(** The patterns covered by the declarative reading: repetition is applied
    to character classes only. *)
Fixpoint supported (r : regex) : bool :=
  match r with
  | Seq a b | Alt a b => supported a && supported b
  | Star _ (Chr _) => true
  | Star _ _ => false
  | Group _ a => supported a
  | _ => true
  end.

(** [sem input r x y]: the pattern [r] can take the matcher from state [x]
    to state [y]. *)
Fixpoint sem (input : jsstring) (r : regex) (x y : mstate) : Prop :=
  match r with
  | Eps => y = x
  | Chr p => exists c, rest x = c :: rest y /\ p c = true /\ caps y = caps x
  | Seq a b => exists z, sem input a x z /\ sem input b z y
  | Alt a b => sem input a x y \/ sem input b x y
  | Star _ (Chr p) =>
      exists w, rest x = w ++ rest y /\ forallb p w = true /\ caps y = caps x
  | Star _ _ => False
  | Group i a =>
      exists z, sem input a x z /\
        y = mkState (rest z)
              ((i, firstn (List.length (rest x) - List.length (rest z)) (rest x))
                 :: caps z)
  | Bol => y = x /\ List.length (rest x) = List.length input
  | Eol => y = x /\ rest x = []
  end.

(** The texts a pattern without groups and anchors can consume. *)
Fixpoint plain (r : regex) : bool :=
  match r with
  | Eps | Chr _ => true
  | Seq a b | Alt a b => plain a && plain b
  | Star _ (Chr _) => true
  | _ => false
  end.

Fixpoint lang (r : regex) (w : jsstring) : Prop :=
  match r with
  | Eps => w = []
  | Chr p => exists c, w = [c] /\ p c = true
  | Seq a b => exists u v, w = u ++ v /\ lang a u /\ lang b v
  | Alt a b => lang a w \/ lang b w
  | Star _ (Chr p) => forallb p w = true
  | _ => False
  end.

(** Shapes of the fields of a partner row. *)
Definition digits_between (n m : nat) (w : jsstring) : bool :=
  forallb is_digit w && (n <=? List.length w)%nat && (List.length w <=? m)%nat.

Definition is_id : jsstring -> bool := digits_between 4 6.

Definition is_blank (w : jsstring) : bool := truthy w && forallb is_space w.

Definition ends_with (q : code_unit -> bool) (w : jsstring) : bool :=
  match rev w with c :: _ => q c | [] => false end.

Definition begins_with (q : code_unit -> bool) (w : jsstring) : bool :=
  match w with c :: _ => q c | [] => false end.

Definition non_space_char (c : code_unit) : bool := negb (is_space c).

Definition is_name (w : jsstring) : bool :=
  begins_with non_space_char w && ends_with non_space_char w
  && forallb (fun c => negb (is_line_terminator c)) w.

Definition is_gid (w : jsstring) : bool :=
  match w with
  | a :: b :: g =>
      N.eqb a 85 && N.eqb b 83 && truthy g
      && forallb (fun c => is_upper c || is_digit c) g
  | _ => false
  end.

Definition is_decimal (w : jsstring) : Prop :=
  exists ds fs,
    w = ds ++ fs /\ ds <> [] /\ forallb is_digit ds = true /\
    (fs = [] \/ exists f, fs = 46%N :: f /\ digits_between 1 2 f = true).

Definition stops (p : code_unit -> bool) (s : jsstring) : Prop :=
  match s with c :: _ => p c = false | [] => True end.

Definition name_pat : regex := Star false dot >> non_space.

Definition gid_pat : regex := lit "U" >> lit "S" >> plus upper_or_digit.

Definition T4 : regex := Group 4 decimal >> Eol.

Definition T3s : regex := plus space >> T4.

Definition T3 : regex := Group 3 gid_pat >> T3s.

Definition T2s : regex := plus space >> T3.

Definition T2 : regex := Group 2 name_pat >> T2s.

Definition T1s : regex := plus space >> T2.

Definition T1 : regex := Group 1 (range 4 6 digit) >> T1s.

(** The row as the pattern reads it. *)
Definition row (id ws1 name ws2 gid ws3 hrs : jsstring) : jsstring :=
  id ++ ws1 ++ name ++ ws2 ++ gid ++ ws3 ++ hrs.

Definition row_fields (id ws1 name ws2 gid ws3 hrs : jsstring) : Prop :=
  is_id id = true /\ is_blank ws1 = true /\ is_name name = true /\
  is_blank ws2 = true /\ is_gid gid = true /\ is_blank ws3 = true /\
  is_decimal hrs.

Definition partner_of_fields (id name gid hrs : jsstring) : Partner :=
  {| partner_number := id; partner_global_id := Some gid; name := name;
     hours := parseFloat hrs |}.

(** What is left after a line break at the head of [s]. *)
Definition break_at (s : jsstring) : option jsstring :=
  match s with
  | c :: t =>
      if N.eqb c 10 then Some t
      else if N.eqb c 13 then
        match t with
        | d :: t' => if N.eqb d 10 then Some t' else None
        | [] => None
        end
      else None
  | [] => None
  end.

Definition eol (cr : bool) : jsstring := (if cr then [CR] else []) ++ [LF].

Definition not_LF (c : code_unit) : bool := negb (N.eqb c LF).

Definition partners_of (content : jsstring) : list Partner :=
  push_partners partnerRegex (lines_of content) [].

Definition option_list {A : Type} (o : option A) : list A :=
  match o with Some a => [a] | None => [] end.

Definition is_date (w : jsstring) : Prop :=
  exists a b c,
    w = a ++ [47%N] ++ b ++ [47%N] ++ c /\
    digits_between 1 2 a = true /\ digits_between 1 2 b = true /\
    digits_between 2 4 c = true.

Definition is_dash (c : code_unit) : bool := N.eqb c en_dash || N.eqb c 45.

(** [content] holds the dates [d1] and [d2] with a dash between them. *)
Definition date_pair_in (content d1 d2 : jsstring) : Prop :=
  exists pre w1 c w2 post,
    content = pre ++ d1 ++ w1 ++ [c] ++ w2 ++ d2 ++ post /\
    is_date d1 /\ forallb is_space w1 = true /\ is_dash c = true /\
    forallb is_space w2 = true /\ is_date d2.

Definition ends_line (before : jsstring) : Prop :=
  before = [] \/ exists pre cr, before = pre ++ eol cr.

Definition starts_line (after : jsstring) : Prop :=
  after = [] \/ exists cr post, after = eol cr ++ post.

Definition sample_row : jsstring :=
  row (js "12345") (js "  ") (js "Smith, Alex J") (js "  ") (js "US98765432")
    (js "  ") (js "31.45").

(** The identifier as the specification words it: [US] and then letters or digits. *)
Definition alphanumeric (c : code_unit) : bool :=
  is_upper c || is_lower c || is_digit c.

Definition us_alphanumeric (w : jsstring) : bool :=
  match w with
  | a :: b :: g => N.eqb a 85 && N.eqb b 83 && truthy g && forallb alphanumeric g
  | _ => false
  end.

(** The period as the specification words it: [MM/DD/YYYY], an en dash,
    [MM/DD/YYYY]. *)
Definition is_MMDDYYYY (w : jsstring) : bool :=
  match w with
  | [m1; m2; s1; d1; d2; s2; y1; y2; y3; y4] =>
      forallb is_digit [m1; m2; d1; d2; y1; y2; y3; y4]
      && N.eqb s1 47 && N.eqb s2 47
  | _ => false
  end.

Definition normalized_period (t : jsstring) : bool :=
  is_MMDDYYYY (firstn 10 t) && N.eqb (nth 10 t 0%N) en_dash
  && is_MMDDYYYY (skipn 11 t).

(** [w] spells the word [s], letter case aside. *)
Fixpoint spells_ci (s : string) (w : jsstring) : bool :=
  match s, w with
  | EmptyString, [] => true
  | String a s', c :: w' =>
      N.eqb (canonicalize c) (canonicalize (N_of_ascii a)) && spells_ci s' w'
  | _, _ => false
  end.

(** [content] holds the label [Store], white space, an optional [#] and the
    digits [ds]. *)
Definition store_label_in (content ds : jsstring) : Prop :=
  exists pre w ws h post,
    content = pre ++ w ++ ws ++ h ++ ds ++ post /\
    spells_ci "Store" w = true /\ is_blank ws = true /\
    (h = [] \/ h = js "#") /\ is_id ds = true.

(** [content] holds the label [Total Tippable Hours:], optional white space
    and the decimal [h]. *)
Definition hours_label_in (content h : jsstring) : Prop :=
  exists pre w ws post,
    content = pre ++ w ++ ws ++ h ++ post /\
    spells_ci "Total Tippable Hours:" w = true /\
    forallb is_space ws = true /\ is_decimal h.

(** The lines of [s] as the line feeds divide it. *)
Fixpoint LF_lines (s : jsstring) : list jsstring :=
  match s with
  | [] => [[]]
  | c :: t =>
      if N.eqb c LF then [] :: LF_lines t
      else
        match LF_lines t with
        | l :: ls => (c :: l) :: ls
        | [] => [[c]]
        end
  end.

(** The partner read from a line of the text, if it is a row. *)
Definition row_partner (l : jsstring) : list Partner :=
  option_list (partner_of_line partnerRegex (trim l)).

(** [p] was read from a row with well-formed fields. *)
Definition read_from_row (p : Partner) : Prop :=
  exists id name gid hrs,
    p = partner_of_fields id name gid hrs /\
    is_id id = true /\ is_name name = true /\ is_gid gid = true /\
    is_decimal hrs.

End ExtractorVocabulary.

(** ** Vocabulary of the handlers' properties *)

Section HandlerVocabulary.
Import JSNumber JSString Handler.

(** The words of a page, if it has an array of them. *)
Definition words_of (page : json) : option (list json) :=
  match page with
  | JObject fields =>
      match own (js "words") fields with
      | Some (JArray items) => Some items
      | _ => None
      end
  | _ => None
  end.

(** The confidence of a word, if it has a numeric one. *)
Definition number_of (word : json) : list number :=
  match word with
  | JObject fields =>
      match own (js "confidence") fields with
      | Some (JNumber x) => [x]
      | _ => []
      end
  | _ => []
  end.

Definition numbers_of (page : json) : list number :=
  match words_of page with
  | Some items => flat_map number_of items
  | None => []
  end.

(** Some page, or some word of a page, is [null]. *)
Definition visits_null (pages : list json) : Prop :=
  In JNull pages \/
  exists page items, In page pages /\ words_of page = Some items /\ In JNull items.

(** An answer of the OCR service with text and one page of two words. *)
Definition sample_answer : json :=
  JObject
    [(js "analyzeResult",
      JObject
        [(js "content", JString (js "12345 Smith, Alex J US98765432 31.45"));
         (js "pages",
          JArray
            [JObject
               [(js "words",
                 JArray [JObject [(js "confidence", JNumber (of_ratio false 1 2))];
                         JObject [(js "content", JString (js "Smith,"))]])]])])].

(** The same answer with a page that is [null]. *)
Definition sample_answer_null_page : json :=
  JObject
    [(js "analyzeResult",
      JObject
        [(js "content", JString (js "12345 Smith, Alex J US98765432 31.45"));
         (js "pages", JArray [JNull])])].

(** The same answer with an object in the place of the pages. *)
Definition sample_answer_pages_object : json :=
  JObject
    [(js "analyzeResult",
      JObject
        [(js "content", JString (js "12345 Smith, Alex J US98765432 31.45"));
         (js "pages", JObject [])])].

End HandlerVocabulary.

(* ================================================================== *)
(** * Part II: theorems                                                *)
(* ================================================================== *)

(** ** Rounding in binary64 *)

Section NumberFacts.
Import JSNumber.

Lemma Zdigits2_nonneg m : 0 <= Zdigits2 m.
Proof. destruct m; simpl; lia. Qed.

Lemma Zdigits2_pos_iff m : 0 <= m -> (0 < Zdigits2 m <-> 0 < m).
Proof. destruct m; simpl; lia. Qed.

Lemma digits2_pos_bounds (m : positive) :
  2 ^ (Zpos (digits2_pos m) - 1) <= Zpos m < 2 ^ Zpos (digits2_pos m).
Proof.
  induction m as [m IH | m IH | ]; simpl digits2_pos.
  - rewrite Pos2Z.inj_succ.
    replace (Z.succ (Zpos (digits2_pos m)) - 1) with (Z.succ (Zpos (digits2_pos m) - 1)) by lia.
    rewrite !Z.pow_succ_r by lia. lia.
  - rewrite Pos2Z.inj_succ.
    replace (Z.succ (Zpos (digits2_pos m)) - 1) with (Z.succ (Zpos (digits2_pos m) - 1)) by lia.
    rewrite !Z.pow_succ_r by lia. lia.
  - simpl. lia.
Qed.

Lemma shr_1_nonneg s : 0 <= shr_m s -> 0 <= shr_m (shr_1 s).
Proof.
  destruct s as [m r t]; simpl; intros H.
  destruct m as [| p | p]; simpl; try lia; destruct p; simpl; lia.
Qed.

Lemma shr_1_digits s :
  0 <= shr_m s -> Zdigits2 (shr_m (shr_1 s)) = Z.max 0 (Zdigits2 (shr_m s) - 1).
Proof.
  destruct s as [m r t]; simpl; intros H.
  destruct m as [| p | p]; [reflexivity | | lia].
  destruct p; cbn [shr_1 shr_m Zdigits2 digits2_pos]; lia.
Qed.

Lemma iter_shr_1 p : forall s,
  0 <= shr_m s ->
  0 <= shr_m (iter_pos shr_1 p s) /\
  Zdigits2 (shr_m (iter_pos shr_1 p s)) = Z.max 0 (Zdigits2 (shr_m s) - Zpos p).
Proof.
  induction p as [p IH | p IH | ]; intros s Hs; simpl iter_pos.
  - pose proof (shr_1_nonneg s Hs) as H1. pose proof (shr_1_digits s Hs) as D1.
    destruct (IH _ H1) as [H2 D2]. destruct (IH _ H2) as [H3 D3].
    split; [exact H3|]. rewrite D3, D2, D1. pose proof (Zdigits2_nonneg (shr_m s)). lia.
  - destruct (IH _ Hs) as [H2 D2]. destruct (IH _ H2) as [H3 D3].
    split; [exact H3|]. rewrite D3, D2. pose proof (Zdigits2_nonneg (shr_m s)). lia.
  - split; [apply shr_1_nonneg; exact Hs | apply shr_1_digits; exact Hs].
Qed.

Lemma shr_record_of_loc_m m l : shr_m (shr_record_of_loc m l) = m.
Proof. destruct l as [| []]; reflexivity. Qed.

(** What one rounding shift guarantees about mantissa and exponent. *)
Lemma shr_fexp_spec m e l mrs e' :
  0 <= m ->
  shr_fexp prec emax m e l = (mrs, e') ->
  0 <= shr_m mrs /\ Zdigits2 (shr_m mrs) <= prec /\ emin' <= e' /\
  (0 < m -> emin' <= e -> 0 < shr_m mrs).
Proof.
  intros Hm. unfold shr_fexp, shr, fexp, SpecFloat.emin.
  change (3 - emax - prec) with emin'.
  pose proof (Zdigits2_nonneg m) as Hd.
  destruct (Z.max (Zdigits2 m + e - prec) emin' - e) as [| p | p] eqn:E;
    intros Heq; inversion Heq; subst; clear Heq.
  - rewrite shr_record_of_loc_m. unfold prec, emax, emin' in *. lia.
  - pose proof (iter_shr_1 p (shr_record_of_loc m l)) as H.
    rewrite shr_record_of_loc_m in H. destruct (H Hm) as [H1 H2].
    split; [exact H1|]. unfold prec, emax, emin' in *.
    split; [lia|]. split; [lia|].
    intros Hpos He. apply Zdigits2_pos_iff; [exact H1|].
    rewrite H2. lia.
  - rewrite shr_record_of_loc_m. unfold prec, emax, emin' in *. lia.
Qed.

Lemma round_nearest_even_bounds m l :
  m <= round_nearest_even m l <= m + 1.
Proof.
  unfold round_nearest_even. destruct l as [| []]; try lia.
  destruct (Z.even m); lia.
Qed.

Lemma binary_round_aux_spec s m e l :
  0 <= m ->
  rounded s (binary_round_aux prec emax s m e l) /\
  (0 < m -> emin' <= e -> binary_round_aux prec emax s m e l <> S754_zero s).
Proof.
  intros Hm. unfold binary_round_aux.
  destruct (shr_fexp prec emax m e l) as [mrs' e'] eqn:E1.
  destruct (shr_fexp_spec _ _ _ _ _ Hm E1) as (H1a & H1b & H1c & H1d).
  pose proof (round_nearest_even_bounds (shr_m mrs') (loc_of_shr_record mrs')) as Hr.
  set (m1 := round_nearest_even (shr_m mrs') (loc_of_shr_record mrs')) in *.
  assert (Hm1 : 0 <= m1) by lia.
  destruct (shr_fexp prec emax m1 e' loc_Exact) as [mrs'' e''] eqn:E2.
  destruct (shr_fexp_spec _ _ _ _ _ Hm1 E2) as (H2a & H2b & H2c & H2d).
  destruct (shr_m mrs'') as [| p | p] eqn:E.
  - split; [left; reflexivity|]. intros Hpos He. exfalso.
    specialize (H1d Hpos He). assert (0 < m1) by lia. specialize (H2d H H1c). lia.
  - split.
    + destruct (e'' <=? emax - prec); [|right; left; reflexivity].
      right; right. exists p, e''. simpl in H2b. auto.
    + intros _ _. destruct (e'' <=? emax - prec); discriminate.
  - lia.
Qed.

Lemma shl_align_exp m e e' :
  emin' <= e' ->
  (emin' <= e \/ e' < e) ->
  emin' <= snd (shl_align m e e').
Proof.
  unfold shl_align. intros. destruct (e' - e) eqn:E; simpl; lia.
Qed.

Lemma binary_round_spec s m e :
  rounded s (binary_round prec emax s m e) /\
  (emin' <= e -> binary_round prec emax s m e <> S754_zero s).
Proof.
  unfold binary_round.
  destruct (shl_align m e (fexp prec emax (Zpos (digits2_pos m) + e))) as [mz ez] eqn:E.
  pose proof (binary_round_aux_spec s (Zpos mz) ez loc_Exact ltac:(lia)) as [H1 H2].
  split; [exact H1|]. intros He. apply H2; [lia|].
  assert (ez = snd (shl_align m e (fexp prec emax (Zpos (digits2_pos m) + e)))) by (rewrite E; reflexivity).
  subst ez. unfold shl_align.
  destruct (fexp prec emax (Zpos (digits2_pos m) + e) - e) eqn:E2; simpl; try lia.
  unfold fexp, SpecFloat.emin in *. change (3 - emax - prec) with emin' in *. lia.
Qed.

Lemma shl_align_value m e ez :
  ez <= e -> Zpos (fst (shl_align m e ez)) = Zpos m * 2 ^ (e - ez).
Proof.
  intros H. unfold shl_align. destruct (ez - e) as [| d | d] eqn:E; simpl fst.
  - replace (e - ez) with 0 by lia. simpl. lia.
  - lia.
  - replace (e - ez) with (Zpos d) by lia.
    change (Pos.iter xO m d) with (shift_pos d m).
    rewrite shift_pos_correct. rewrite Z.pow_pos_fold. apply Z.mul_comm.
Qed.

Lemma ticks_aligned s m e ez :
  emin' <= ez -> ez <= e ->
  ticks (S754_finite s m e)
  = cond_Zopp s (Zpos (fst (shl_align m e ez))) * 2 ^ (ez - emin').
Proof.
  intros H1 H2. unfold ticks. rewrite shl_align_value by exact H2.
  replace (e - emin') with ((e - ez) + (ez - emin')) by lia.
  rewrite Z.pow_add_r by lia. destruct s; unfold cond_Zopp; ring.
Qed.

Lemma gt_zero_rounded_pos x :
  rounded false x -> x <> S754_zero false -> gt x pos_zero = true.
Proof.
  intros [H | [H | (m & e & H & _)]] Hz; subst; try reflexivity. congruence.
Qed.

Lemma gt_zero_rounded_neg x : rounded true x -> gt x pos_zero = false.
Proof.
  intros [H | [H | (m & e & H & _)]]; subst; reflexivity.
Qed.

Lemma ticks_sign s m e : emin' <= e ->
  (ticks (S754_finite s m e) < 0 <-> s = true) /\
  (0 < ticks (S754_finite s m e) <-> s = false).
Proof.
  intros H. unfold ticks.
  assert (0 < 2 ^ (e - emin')) by (apply Z.pow_pos_nonneg; lia).
  set (P := 2 ^ (e - emin')) in *. pose proof (Pos2Z.is_pos m).
  destruct s; unfold cond_Zopp; split; split; intros;
    try discriminate; try reflexivity; nia.
Qed.

Lemma gt_sub_zero a b :
  exp_ok a -> exp_ok b -> is_nan a = false -> is_nan b = false ->
  gt (sub b a) pos_zero = num_lt a b.
Proof.
  intros Ha Hb Na Nb.
  destruct a as [sa | sa | | sa ma ea]; try discriminate;
  destruct b as [sb | sb | | sb mb eb]; try discriminate;
    try (destruct sa, sb; reflexivity).
  - (* a zero, b finite *)
    simpl in Hb. destruct (ticks_sign sb mb eb Hb) as [_ H].
    unfold num_lt. simpl ticks at 1.
    destruct sb; simpl sub; unfold gt, SFltb; simpl SFcompare; cbv iota.
    + symmetry. apply Z.ltb_ge. destruct (ticks_sign true mb eb Hb) as [H1 _].
      assert (ticks (S754_finite true mb eb) < 0) by (apply H1; reflexivity). lia.
    + symmetry. apply Z.ltb_lt. apply H. reflexivity.
  - (* a finite, b zero *)
    simpl in Ha. unfold num_lt. simpl ticks at 2.
    destruct sa; simpl sub; unfold gt, SFltb; simpl SFcompare; cbv iota.
    + symmetry. apply Z.ltb_lt. apply (ticks_sign true ma ea Ha). reflexivity.
    + symmetry. apply Z.ltb_ge.
      assert (0 < ticks (S754_finite false ma ea)) by (apply (ticks_sign false ma ea Ha); reflexivity). lia.
  - (* both finite *)
    simpl in Ha, Hb. unfold num_lt.
    set (ez := Z.min eb ea).
    assert (Hez : emin' <= ez) by (unfold ez; lia).
    rewrite (ticks_aligned sa ma ea ez) by (unfold ez; lia).
    rewrite (ticks_aligned sb mb eb ez) by (unfold ez; lia).
    unfold sub, SFsub. fold ez.
    set (za := cond_Zopp sa (Zpos (fst (shl_align ma ea ez)))).
    set (zb := cond_Zopp sb (Zpos (fst (shl_align mb eb ez)))).
    assert (Hp : 0 < 2 ^ (ez - emin')) by (apply Z.pow_pos_nonneg; lia).
    destruct (zb - za) as [| p | p] eqn:E; unfold binary_normalize.
    + replace zb with za by lia. rewrite Z.ltb_irrefl. reflexivity.
    + destruct (binary_round_spec false p ez) as [H1 H2].
      rewrite gt_zero_rounded_pos; [| exact H1 | apply H2; exact Hez].
      symmetry. apply Z.ltb_lt. nia.
    + destruct (binary_round_spec true p ez) as [H1 _].
      rewrite gt_zero_rounded_neg by exact H1.
      symmetry. apply Z.ltb_ge. nia.
Qed.

Lemma rounded_exp_ok s x : rounded s x -> exp_ok x /\ is_nan x = false.
Proof.
  intros [H | [H | (m & e & H & He & _)]]; subst; simpl; auto.
Qed.

Lemma digits2_pos_shift (n p : positive) :
  digits2_pos (Pos.iter xO p n) = (digits2_pos p + n)%positive.
Proof.
  induction n as [| n IH] using Pos.peano_ind.
  - simpl. lia.
  - rewrite Pos.iter_succ. simpl digits2_pos. rewrite IH. lia.
Qed.

Lemma loc_of_shr_record_exact m :
  loc_of_shr_record (shr_record_of_loc m loc_Exact) = loc_Exact.
Proof. reflexivity. Qed.

(** A mantissa that already has the canonical exponent is left alone. *)
Lemma binary_round_aux_canonical s m e :
  fexp prec emax (Zpos (digits2_pos m) + e) = e -> e <= emax - prec ->
  binary_round_aux prec emax s (Zpos m) e loc_Exact = S754_finite s m e.
Proof.
  intros Hc He. unfold binary_round_aux, shr_fexp.
  cbn [Zdigits2]. rewrite Hc, Z.sub_diag. cbn [shr].
  cbn [shr_record_of_loc loc_of_shr_record shr_m round_nearest_even Zdigits2].
  rewrite Hc, Z.sub_diag. cbn [shr shr_record_of_loc shr_m].
  apply Z.leb_le in He. rewrite He. reflexivity.
Qed.

Lemma of_Z_exact k :
  k <> 0 -> Z.abs k < 2 ^ prec ->
  exists m e, of_Z k = S754_finite (k <? 0) m e /\ emin' <= e /\
              Zpos (digits2_pos m) <= prec /\ ticks (of_Z k) = k * unit_ticks.
Proof.
  intros Hk Hb.
  assert (Hgen : forall s p, Zpos p < 2 ^ prec ->
     exists m e, binary_round prec emax s p 0 = S754_finite s m e /\ emin' <= e /\
       Zpos (digits2_pos m) <= prec /\
       ticks (binary_round prec emax s p 0) = cond_Zopp s (Zpos p) * unit_ticks).
  { intros s p Hp. unfold binary_round.
    pose proof (digits2_pos_bounds p) as [Hd1 Hd2].
    assert (Hd : Zpos (digits2_pos p) <= prec).
    { destruct (Z_le_gt_dec (Zpos (digits2_pos p)) prec) as [L | G]; [exact L|].
      exfalso. assert (2 ^ prec <= 2 ^ (Zpos (digits2_pos p) - 1)) by (apply Z.pow_le_mono_r; lia). lia. }
    assert (Hf : fexp prec emax (Zpos (digits2_pos p) + 0) = Zpos (digits2_pos p) - prec).
    { unfold fexp, SpecFloat.emin, prec, emax in *. lia. }
    rewrite Hf. unfold shl_align.
    destruct (Zpos (digits2_pos p) - prec - 0) as [| d | d] eqn:E.
    - rewrite binary_round_aux_canonical.
      + exists p, 0. unfold emin', prec, emax in *. repeat split; lia.
      + unfold fexp, SpecFloat.emin, prec, emax in *. lia.
      + unfold prec, emax. lia.
    - lia.
    - rewrite binary_round_aux_canonical.
      + exists (Pos.iter xO p d), (Zpos (digits2_pos p) - prec).
        rewrite digits2_pos_shift.
        unfold emin', prec, emax in *. repeat split; try lia.
        unfold ticks, unit_ticks. change (Pos.iter xO p d) with (shift_pos d p).
        rewrite shift_pos_correct, Z.pow_pos_fold.
        replace (- emin') with (Zpos d + (Zpos (digits2_pos p) - 53 - emin'))
          by (unfold emin', emax, prec; lia).
        rewrite Z.pow_add_r by (unfold emin', emax, prec; lia).
        destruct s; unfold cond_Zopp; ring.
      + rewrite digits2_pos_shift. unfold fexp, SpecFloat.emin, prec, emax in *. lia.
      + unfold prec, emax in *. lia. }
  unfold of_Z, binary_normalize. destruct k as [| p | p]; [congruence | |].
  - destruct (Hgen false p Hb) as (m & e & H1 & H2 & H3 & H4). exists m, e. auto.
  - destruct (Hgen true p Hb) as (m & e & H1 & H2 & H3 & H4). exists m, e.
    repeat split; auto.
Qed.

(** [Math.round] returns the integer nearest to its argument, the upper
    one of two. *)
Lemma Math_round_nearest s m e :
  emin' <= e -> Zpos (digits2_pos m) <= prec ->
  exists k, ticks (Math_round (S754_finite s m e)) = k * unit_ticks /\
            is_finite (Math_round (S754_finite s m e)) = true /\
            (2 * k - 1) * unit_ticks <= 2 * ticks (S754_finite s m e)
              < (2 * k + 1) * unit_ticks.
Proof.
  intros He Hd. unfold Math_round. set (z := cond_Zopp s (Zpos m)).
  destruct (0 <=? e) eqn:E0.
  - apply Z.leb_le in E0. exists (z * 2 ^ e). unfold ticks, unit_ticks. fold z.
    replace (e - emin') with (e + - emin') by lia.
    rewrite Z.pow_add_r by (unfold emin', emax, prec; lia).
    assert (0 < 2 ^ (- emin')) by (apply Z.pow_pos_nonneg; unfold emin', emax, prec; lia).
    repeat split; try reflexivity; try ring; nia.
  - apply Z.leb_gt in E0.
    set (A := 2 ^ (- e)). set (k := Z.shiftr (2 * z + A) (1 - e)).
    assert (HA : 0 < A) by (apply Z.pow_pos_nonneg; lia).
    assert (Hk : k = (2 * z + A) / (2 * A)).
    { unfold k. rewrite Z.shiftr_div_pow2 by lia.
      replace (1 - e) with (1 + - e) by lia. rewrite Z.pow_add_r by lia. reflexivity. }
    pose proof (Z.div_mod (2 * z + A) (2 * A) ltac:(lia)) as Hdm.
    pose proof (Z.mod_pos_bound (2 * z + A) (2 * A) ltac:(lia)) as Hmb.
    rewrite <- Hk in Hdm.
    set (T := 2 ^ (e - emin')).
    assert (HT : 0 < T) by (apply Z.pow_pos_nonneg; lia).
    assert (HU : unit_ticks = A * T).
    { unfold unit_ticks, A, T. rewrite <- Z.pow_add_r by lia. f_equal. lia. }
    assert (Hx : ticks (S754_finite s m e) = z * T) by reflexivity.
    assert (Hbounds : (2 * k - 1) * unit_ticks <= 2 * (z * T) < (2 * k + 1) * unit_ticks).
    { rewrite HU. split; nia. }
    exists k. rewrite Hx.
    destruct (k =? 0) eqn:Ek.
    + apply Z.eqb_eq in Ek.
      split; [rewrite Ek; reflexivity|]. split; [reflexivity | exact Hbounds].
    + apply Z.eqb_neq in Ek.
      assert (Hkb : Z.abs k < 2 ^ prec).
      { pose proof (digits2_pos_bounds m) as [_ Hm2].
        assert (Zpos m < 2 ^ prec).
        { eapply Z.lt_le_trans; [exact Hm2|]. apply Z.pow_le_mono_r; lia. }
        assert (2 <= A) by (unfold A; change 2 with (2 ^ 1) at 1; apply Z.pow_le_mono_r; lia).
        assert (Z.abs z = Zpos m) by (unfold z; destruct s; simpl; lia).
        unfold prec in *. nia. }
      destruct (of_Z_exact k Ek Hkb) as (m' & e' & H1 & H2 & H3 & H4).
      rewrite H4. split; [reflexivity|]. split; [rewrite H1; reflexivity | exact Hbounds].
Qed.

Lemma nearest_scaled_spec m e f :
  emin' <= e ->
  let n := Z.of_N (nearest_scaled m e f) in
  (2 * n - 1) * unit_ticks
    <= 2 * 10 ^ Z.of_N f * ticks (S754_finite false m e)
    < (2 * n + 1) * unit_ticks.
Proof.
  intros He. unfold nearest_scaled. set (p := 10 ^ Z.of_N f).
  assert (Hp : 0 < p) by (apply Z.pow_pos_nonneg; lia).
  unfold ticks, cond_Zopp.
  destruct (0 <=? e) eqn:E0.
  - apply Z.leb_le in E0.
    assert (0 < 2 ^ e) by (apply Z.pow_pos_nonneg; lia).
    rewrite Z2N.id by nia. cbv zeta.
    replace (e - emin') with (e + - emin') by lia.
    rewrite Z.pow_add_r by (unfold emin', emax, prec; lia). fold unit_ticks.
    assert (0 < unit_ticks) by (apply Z.pow_pos_nonneg; unfold emin', emax, prec; lia).
    split; nia.
  - apply Z.leb_gt in E0.
    set (A := 2 ^ (- e)). set (k := Z.shiftr (2 * (Zpos m * p) + A) (1 - e)).
    assert (HA : 0 < A) by (apply Z.pow_pos_nonneg; lia).
    assert (Hk : k = (2 * (Zpos m * p) + A) / (2 * A)).
    { unfold k. rewrite Z.shiftr_div_pow2 by lia.
      replace (1 - e) with (1 + - e) by lia. rewrite Z.pow_add_r by lia. reflexivity. }
    pose proof (Z.div_mod (2 * (Zpos m * p) + A) (2 * A) ltac:(lia)) as Hdm.
    pose proof (Z.mod_pos_bound (2 * (Zpos m * p) + A) (2 * A) ltac:(lia)) as Hmb.
    rewrite <- Hk in Hdm.
    assert (0 <= k) by (rewrite Hk; apply Z.div_pos; nia).
    rewrite Z2N.id by lia. cbv zeta.
    set (T := 2 ^ (e - emin')).
    assert (HT : 0 < T) by (apply Z.pow_pos_nonneg; lia).
    assert (HU : unit_ticks = A * T).
    { unfold unit_ticks, A, T. rewrite <- Z.pow_add_r by lia. f_equal. lia. }
    rewrite HU. split; nia.
Qed.

End NumberFacts.

(** ** The allocator *)

Section AllocatorFacts.
Import JSNumber JSString Rounding.

Lemma toFixed2_normal v : toFixed2 v = Normal (round2 v).
Proof. reflexivity. Qed.

Lemma mapM_normal {A B : Type} (f : A -> completion B) (g : A -> B) l :
  (forall a, f a = Normal (g a)) -> mapM f l = Normal (List.map g l).
Proof.
  intros H. induction l as [| a t IH]; simpl; [reflexivity|].
  rewrite H, IH. reflexivity.
Qed.

Lemma initial_payouts_normal partners rate rounding :
  initial_payouts partners rate rounding
  = Normal (List.map (quantized rate rounding) partners).
Proof. apply mapM_normal. intros p. reflexivity. Qed.

Lemma distributeTips_unfold partners totalTips rounding totalHours :
  distributeTips partners totalTips rounding totalHours
  = let rate := hourlyRate_of partners totalTips totalHours in
    let payouts := List.map (quantized rate rounding) partners in
    if eqb rounding (js "none") then
      Normal (mkDistributeResult
                (List.map (fun p => set_roundedPayout p (round2 (payout p))) payouts)
                rate pos_zero)
    else
      let delta := round2 (sub totalTips (rounded_total payouts)) in
      if strict_eq delta pos_zero then
        Normal (mkDistributeResult payouts rate pos_zero)
      else
        Normal (mkDistributeResult (absorb delta payouts) rate delta).
Proof.
  unfold distributeTips. rewrite initial_payouts_normal. cbn [bind]. cbv zeta.
  destruct (eqb rounding (js "none")).
  - rewrite (mapM_normal _ (fun p => set_roundedPayout p (round2 (payout p))))
      by (intros; reflexivity).
    reflexivity.
  - rewrite toFixed2_normal. cbn [bind]. fold (rounded_total (List.map (quantized (hourlyRate_of partners totalTips totalHours) rounding) partners)).
    destruct (strict_eq _ pos_zero); [reflexivity|].
    unfold absorb.
    destruct (sort _ _) as [| [i first] ?]; reflexivity.
Qed.

(** *** Well-formedness of computed numbers *)
Lemma binary_normalize_ok k e sz :
  exp_ok (binary_normalize prec emax k e sz) /\
  is_nan (binary_normalize prec emax k e sz) = false.
Proof.
  destruct k as [| p | p]; simpl binary_normalize.
  - split; reflexivity || exact I.
  - eapply rounded_exp_ok. apply binary_round_spec.
  - eapply rounded_exp_ok. apply binary_round_spec.
Qed.

Lemma mul_exp_ok a b : exp_ok (mul a b).
Proof.
  destruct a as [sa | sa | | sa ma ea], b as [sb | sb | | sb mb eb]; try exact I.
  unfold mul, SFmul.
  eapply rounded_exp_ok. apply binary_round_aux_spec. lia.
Qed.

Lemma sub_ok a b :
  is_finite a = true -> exp_ok a -> exp_ok b -> is_nan b = false ->
  exp_ok (sub a b) /\ is_nan (sub a b) = false.
Proof.
  intros Fa Ha Hb Nb.
  destruct a as [sa | sa | | sa ma ea]; try discriminate;
    destruct b as [sb | sb | | sb mb eb]; try discriminate;
    try (destruct sa, sb; split; reflexivity || exact I);
    try (split; [assumption | reflexivity]).
  apply binary_normalize_ok.
Qed.

Lemma Math_floor_ok x :
  exp_ok x -> is_nan x = false ->
  exp_ok (Math_floor x) /\ is_nan (Math_floor x) = false.
Proof.
  intros Hx Nx. destruct x as [s | s | | s m e]; try discriminate; auto.
  unfold Math_floor. destruct (0 <=? e); [auto|].
  destruct (_ =? 0); [split; reflexivity || exact I|].
  apply binary_normalize_ok.
Qed.

Lemma fraction_ok p :
  is_finite (payout p) = true -> exp_ok (payout p) ->
  exp_ok (fraction p) /\ is_nan (fraction p) = false.
Proof.
  intros F H. unfold fraction.
  assert (N : is_nan (payout p) = false) by (destruct (payout p); auto; discriminate).
  destruct (Math_floor_ok _ H N). apply sub_ok; assumption.
Qed.

(** *** The order of the exact values *)
Lemma num_lt_trans a b c :
  num_lt a b = true -> num_lt b c = true -> num_lt a c = true.
Proof.
  destruct a as [sa | sa | | sa ma ea], b as [sb | sb | | sb mb eb],
    c as [sc | sc | | sc mc ec]; unfold num_lt;
    try discriminate; intros H1 H2;
    repeat match goal with
           | H : (_ <? _) = true |- _ => apply Z.ltb_lt in H
           | |- (_ <? _) = true => apply Z.ltb_lt
           end;
    try lia; try (destruct sa, sb, sc; simpl in *; congruence);
    try (destruct sa, sb; simpl in *; congruence);
    try (destruct sb, sc; simpl in *; congruence);
    try (destruct sa, sc; simpl in *; congruence).
Qed.

Lemma num_lt_neg_trans a b c :
  is_nan b = false ->
  num_lt a c = true -> num_lt a b = true \/ num_lt b c = true.
Proof.
  intros Nb.
  destruct a as [sa | sa | | sa ma ea], b as [sb | sb | | sb mb eb],
    c as [sc | sc | | sc mc ec]; unfold num_lt;
    try discriminate; intros H1;
    repeat match goal with
           | H : (_ <? _) = true |- _ => apply Z.ltb_lt in H
           end;
    try (rewrite !Z.ltb_lt; lia);
    try (destruct sa, sb, sc; simpl in *; auto; congruence);
    try (destruct sa, sb; simpl in *; auto; congruence);
    try (destruct sb, sc; simpl in *; auto; congruence);
    try (destruct sa, sc; simpl in *; auto; congruence);
    try (destruct sb; simpl in *; auto; congruence).
Qed.

(** *** The head of the sorted array *)

Section SortHead.
Context {A : Type} (cmp : A -> A -> number).

Lemma insert_sorted_length x l :
  List.length (insert_sorted cmp x l) = S (List.length l).
Proof.
  induction l as [| y t IH]; simpl; [reflexivity|].
  destruct (gt (cmp x y) pos_zero); simpl; congruence.
Qed.

Lemma sort_length l : List.length (sort cmp l) = List.length l.
Proof.
  induction l as [| x t IH]; simpl; [reflexivity|].
  rewrite insert_sorted_length. congruence.
Qed.

Lemma sort_head_first_max l :
  (forall x y z, In x l -> In y l -> In z l ->
     moved_before cmp x y = true -> moved_before cmp y z = true -> moved_before cmp x z = true) ->
  (forall x y z, In x l -> In y l -> In z l ->
     moved_before cmp x z = true -> moved_before cmp x y = true \/ moved_before cmp y z = true) ->
  forall h s, sort cmp l = h :: s ->
  exists l1 l2, l = l1 ++ h :: l2 /\
    (forall y, In y l1 -> moved_before cmp y h = true) /\
    (forall y, In y l2 -> moved_before cmp h y = false).
Proof.
  induction l as [| x t IH]; intros Htr Hneg h s Hs; [discriminate|].
  simpl in Hs.
  destruct (sort cmp t) as [| h' s'] eqn:Est.
  - assert (t = []) by (apply length_zero_iff_nil; rewrite <- (sort_length t), Est; reflexivity).
    subst t. simpl in Hs. inversion Hs; subst.
    exists [], []. repeat split; intros y [].
  - assert (Htr' : forall x y z, In x t -> In y t -> In z t ->
              moved_before cmp x y = true -> moved_before cmp y z = true -> moved_before cmp x z = true)
      by (intros; eapply Htr; eauto; right; assumption).
    assert (Hneg' : forall x y z, In x t -> In y t -> In z t ->
              moved_before cmp x z = true -> moved_before cmp x y = true \/ moved_before cmp y z = true)
      by (intros; eapply Hneg; eauto; right; assumption).
    destruct (IH Htr' Hneg' h' s' eq_refl) as (l1 & l2 & El & H1 & H2).
    assert (Inh' : In h' t) by (rewrite El; apply in_or_app; right; left; reflexivity).
    simpl in Hs. fold (moved_before cmp x h') in Hs.
    destruct (moved_before cmp x h') eqn:Eb; inversion Hs; subst h s; clear Hs.
    + exists (x :: l1), l2. split; [rewrite El; reflexivity|]. split; [|exact H2].
      intros y [<- | Hy]; [exact Eb | apply H1; exact Hy].
    + exists [], t. split; [reflexivity|]. split; [intros y []|].
      intros y Hy. destruct (moved_before cmp x y) eqn:Exy; [|reflexivity]. exfalso.
      assert (Hy' := Hy). rewrite El in Hy'. apply in_app_or in Hy'.
      destruct Hy' as [Hy1 | [<- | Hy2]].
      * specialize (H1 y Hy1).
        assert (moved_before cmp x h' = true)
          by (eapply (Htr x y h'); eauto; [left; reflexivity | right; exact Hy | right; exact Inh']).
        congruence.
      * congruence.
      * specialize (H2 y Hy2).
        destruct (Hneg x h' y) as [B | B]; eauto;
          [left; reflexivity | right; exact Inh' | right; exact Hy | congruence | congruence].
Qed.

End SortHead.

Lemma indexed_from_in {A : Type} (l : list A) : forall s j q,
  nth_error l j = Some q -> In ((s + j)%nat, q) (indexed_from s l).
Proof.
  induction l as [| a t IH]; intros s j q Hj; [destruct j; discriminate|].
  simpl. destruct j as [| j']; simpl in Hj.
  - inversion Hj; subst. left. f_equal. lia.
  - right. replace (s + S j')%nat with (S s + j')%nat by lia. apply IH. exact Hj.
Qed.

Lemma indexed_from_split {A : Type} (l : list A) : forall s l1 i x l2,
  indexed_from s l = l1 ++ (i, x) :: l2 ->
  (i = s + List.length l1)%nat /\
  nth_error l (List.length l1) = Some x /\
  (forall j q, nth_error l j = Some q ->
     ((j < List.length l1)%nat -> In ((s + j)%nat, q) l1) /\
     ((List.length l1 < j)%nat -> In ((s + j)%nat, q) l2)).
Proof.
  induction l as [| a t IH]; intros s l1 i x l2 H; simpl in H.
  - destruct l1; discriminate.
  - destruct l1 as [| b l1'].
    + simpl in H. inversion H as [[Hi Ha Ht]]. split; [simpl; lia|]. split; [reflexivity|].
      intros j q Hj. split; [simpl; lia|]. intros Hlt. simpl in Hlt.
      destruct j as [| j']; [lia|]. simpl in Hj.
      replace (i + S j')%nat with (S i + j')%nat by lia.
      apply indexed_from_in. exact Hj.
    + simpl in H. inversion H as [[Hb Ht]]. clear H.
      destruct (IH (S s) l1' i x l2 Ht) as (Hi & Hn & Hall).
      split; [simpl; lia|]. split; [exact Hn|].
      intros j q Hj. destruct j as [| j']; simpl in Hj.
      * inversion Hj; subst. split; [intros _; left; f_equal; lia | simpl; lia].
      * destruct (Hall j' q Hj) as [Ha Hb'].
        replace (s + S j')%nat with (S s + j')%nat by lia.
        split; simpl; intros; [right; apply Ha; lia | apply Hb'; lia].
Qed.

Lemma nth_error_update_eq {A : Type} (f : A -> A) (l : list A) : forall i x,
  nth_error l i = Some x -> nth_error (update i f l) i = Some (f x).
Proof.
  induction l as [| a t IH]; intros [| i] x H; simpl in *; try discriminate.
  - inversion H; reflexivity.
  - apply IH; exact H.
Qed.

Lemma nth_error_update_neq {A : Type} (f : A -> A) (l : list A) : forall i j,
  i <> j -> nth_error (update i f l) j = nth_error l j.
Proof.
  induction l as [| a t IH]; intros [| i] [| j] H; simpl; try reflexivity; try congruence.
  apply IH. congruence.
Qed.

Lemma update_length {A : Type} (f : A -> A) (l : list A) : forall i,
  List.length (update i f l) = List.length l.
Proof.
  induction l as [| a t IH]; intros [| i]; simpl; try reflexivity. f_equal. apply IH.
Qed.

Lemma num_lt_irrefl a : num_lt a a = false.
Proof.
  destruct a as [s | s | | s m e]; unfold num_lt; try reflexivity;
    try apply Z.ltb_irrefl.
  destruct s; reflexivity.
Qed.

Lemma num_lt_asym a b : num_lt a b = true -> num_lt b a = false.
Proof.
  intros H. destruct (num_lt b a) eqn:E; [|reflexivity].
  pose proof (num_lt_trans _ _ _ H E) as T. rewrite num_lt_irrefl in T. discriminate.
Qed.



Lemma indexed_from_nth {A : Type} (l : list A) : forall s i x,
  In (i, x) (indexed_from s l) -> (s <= i)%nat /\ nth_error l (i - s) = Some x.
Proof.
  induction l as [| a t IH]; intros s i x H; simpl in H; [contradiction|].
  destruct H as [H | H].
  - inversion H; subst. rewrite Nat.sub_diag. split; [lia | reflexivity].
  - destruct (IH _ _ _ H) as [L N]. split; [lia|].
    replace (i - s)%nat with (S (i - S s)) by lia. exact N.
Qed.

Lemma indexed_from_length {A : Type} (l : list A) s :
  List.length (indexed_from s l) = List.length l.
Proof. revert s; induction l; intros; simpl; [reflexivity | f_equal; auto]. Qed.


(** With finite shares it is the first payout of largest fractional part. *)
Lemma absorb_first_max delta Q :
  Q <> [] ->
  Forall (fun q => is_finite (payout q) = true /\ exp_ok (payout q)) Q ->
  exists k first, nth_error Q k = Some first /\
    (forall j q, nth_error Q j = Some q ->
       num_lt (fraction first) (fraction q) = false) /\
    (forall j q, (j < k)%nat -> nth_error Q j = Some q ->
       num_lt (fraction q) (fraction first) = true) /\
    absorb delta Q
    = update k
        (fun p => set_roundedPayout p (round2 (add (roundedPayout first) delta))) Q.
Proof.
  intros HQ Hfin. unfold absorb.
  set (cmp := fun a b : nat * PartnerPayout => compare_fraction (snd a) (snd b)).
  assert (Hin : forall x, In x (indexed_from 0 Q) -> In (snd x) Q).
  { intros [i q] H. apply indexed_from_nth in H. destruct H as [_ H].
    eapply nth_error_In. exact H. }
  assert (Hcmp : forall x y, In x (indexed_from 0 Q) -> In y (indexed_from 0 Q) ->
            gt (cmp x y) pos_zero = num_lt (fraction (snd x)) (fraction (snd y))).
  { intros x y Hx Hy. unfold cmp, compare_fraction.
    rewrite Forall_forall in Hfin.
    destruct (Hfin _ (Hin x Hx)) as [F1 O1]. destruct (Hfin _ (Hin y Hy)) as [F2 O2].
    destruct (fraction_ok _ F1 O1). destruct (fraction_ok _ F2 O2).
    apply gt_sub_zero; assumption. }
  assert (Hnan : forall x, In x (indexed_from 0 Q) -> is_nan (fraction (snd x)) = false).
  { intros x Hx. rewrite Forall_forall in Hfin. destruct (Hfin _ (Hin x Hx)) as [F1 O1].
    apply fraction_ok; assumption. }
  destruct (sort cmp (indexed_from 0 Q)) as [| [i first] s] eqn:E.
  - exfalso. apply HQ. apply length_zero_iff_nil.
    rewrite <- (indexed_from_length Q 0), <- (sort_length cmp), E. reflexivity.
  - destruct (sort_head_first_max cmp (indexed_from 0 Q)) with (h := (i, first)) (s := s)
      as (l1 & l2 & El & H1 & H2).
    + intros x y z Hx Hy Hz. unfold moved_before.
      rewrite !Hcmp by assumption. apply num_lt_trans.
    + intros x y z Hx Hy Hz. unfold moved_before. rewrite !Hcmp by assumption.
      apply num_lt_neg_trans. apply Hnan; exact Hy.
    + exact E.
    + destruct (indexed_from_split Q 0 l1 i first l2 El) as (Hi & Hn & Hall).
      simpl in Hi. subst i.
      assert (Hh : In (List.length l1, first) (indexed_from 0 Q))
        by (rewrite El; apply in_or_app; right; left; reflexivity).
      exists (List.length l1), first. split; [exact Hn|]. split; [|split; [|reflexivity]].
      * intros j q Hj. destruct (Hall j q Hj) as [Ha Hb]. simpl in Ha, Hb.
        destruct (Nat.lt_trichotomy j (List.length l1)) as [L | [L | L]].
        -- apply num_lt_asym.
           assert (In (j, q) (indexed_from 0 Q)) by (rewrite El; apply in_or_app; left; auto).
           pose proof (Hcmp (j, q) (List.length l1, first) H Hh) as C.
           simpl snd in C. rewrite <- C. apply H1. auto.
        -- subst j. rewrite Hn in Hj. inversion Hj. apply num_lt_irrefl.
        -- assert (In (j, q) (indexed_from 0 Q))
             by (rewrite El; apply in_or_app; right; right; auto).
           pose proof (Hcmp (List.length l1, first) (j, q) Hh H) as C.
           simpl snd in C. rewrite <- C. apply H2. auto.
      * intros j q L Hj. destruct (Hall j q Hj) as [Ha _]. simpl in Ha.
        assert (In (j, q) (indexed_from 0 Q)) by (rewrite El; apply in_or_app; left; auto).
        pose proof (Hcmp (j, q) (List.length l1, first) H Hh) as C.
        simpl snd in C. rewrite <- C. apply H1. auto.
Qed.

Lemma round2_nearest_hundredth x : exp_ok x -> nearest_hundredth x (round2 x).
Proof.
  intros Hx. destruct x as [s | s | | s m e]; try reflexivity.
  unfold nearest_hundredth, round2, fixed_string. intros Hlt. rewrite Hlt.
  exists (nearest_scaled m e 2). split; [reflexivity|].
  pose proof (nearest_scaled_spec m e 2 Hx) as H. cbv zeta in H.
  change (10 ^ Z.of_N 2) with 100 in H.
  replace (Z.abs (ticks (S754_finite s m e))) with (ticks (S754_finite false m e)).
  - lia.
  - unfold ticks. simpl in Hx.
    assert (0 < 2 ^ (e - emin')) by (apply Z.pow_pos_nonneg; lia).
    destruct s; unfold cond_Zopp; nia.
Qed.

Lemma map_payout_update i f (l : list PartnerPayout) :
  (forall p, payout (f p) = payout p) ->
  List.map payout (update i f l) = List.map payout l.
Proof.
  intros H. revert i. induction l as [| a t IH]; intros [| i]; simpl; try reflexivity.
  - rewrite H. reflexivity.
  - rewrite IH. reflexivity.
Qed.

Lemma map_payout_absorb delta Q :
  List.map payout (absorb delta Q) = List.map payout Q.
Proof.
  unfold absorb. destruct (sort _ _) as [| [i first] s]; [reflexivity|].
  apply map_payout_update. reflexivity.
Qed.

(** Every call returns, with the rate and the exact shares of lines 39-44. *)
Lemma distributeTips_returns partners totalTips rounding totalHours :
  exists r,
    distributeTips partners totalTips rounding totalHours = Normal r /\
    hourlyRate r = hourlyRate_of partners totalTips totalHours /\
    List.map payout (payouts r)
    = List.map (payout_of (hourlyRate_of partners totalTips totalHours)) partners.
Proof.
  rewrite distributeTips_unfold. cbv zeta.
  set (rate := hourlyRate_of partners totalTips totalHours).
  assert (HQ : List.map payout (List.map (quantized rate rounding) partners)
               = List.map (payout_of rate) partners)
    by (rewrite map_map; reflexivity).
  destruct (eqb rounding (js "none")).
  - eexists. split; [reflexivity|]. split; [reflexivity|]. simpl payouts.
    rewrite !map_map. reflexivity.
  - destruct (strict_eq _ pos_zero).
    + eexists. split; [reflexivity|]. split; [reflexivity|]. exact HQ.
    + eexists. split; [reflexivity|]. split; [reflexivity|]. simpl payouts.
      rewrite map_payout_absorb. exact HQ.
Qed.

Lemma leb_zero_not_gt h : SFleb h pos_zero = true -> gt h pos_zero = false.
Proof.
  destruct h as [s | s | | s m e]; try reflexivity; try discriminate;
    destruct s; try reflexivity; discriminate.
Qed.

Lemma mul_zero_rate h :
  is_infinite h = false -> is_zero (mul (or_zero h) pos_zero) = true.
Proof.
  destruct h as [s | s | | s m e]; try reflexivity. discriminate.
Qed.

(** C4, amended.  If the effective hours basis (the override when given,
    else the sum of the partners' hours) is at most 0 and no partner's hours
    are infinite, the call returns normally, [hourlyRate] is 0 and the exact
    payout of every partner is zero. *)
Theorem C4_nonpositive_hours_basis partners totalTips rounding totalHours :
  SFleb (hoursSum_of partners totalHours) pos_zero = true ->
  Forall (fun p => is_infinite (hours p) = false) partners ->
  exists r,
    distributeTips partners totalTips rounding totalHours = Normal r /\
    hourlyRate r = pos_zero /\
    List.length (payouts r) = List.length partners /\
    Forall (fun q => is_zero (payout q) = true) (payouts r).
Proof.
  intros Hle Hfin.
  destruct (distributeTips_returns partners totalTips rounding totalHours)
    as (r & Hr & Hrate & Hpay).
  assert (R0 : hourlyRate_of partners totalTips totalHours = pos_zero).
  { unfold hourlyRate_of. rewrite (leb_zero_not_gt _ Hle). reflexivity. }
  exists r. split; [exact Hr|]. split; [congruence|]. split.
  - rewrite <- (length_map payout), Hpay, length_map. reflexivity.
  - rewrite R0 in Hpay. clear Hr Hrate R0 Hle.
    revert Hpay. generalize (payouts r) as Q. clear r.
    induction Hfin as [| p t Hp Ht IH]; intros Q HQ; destruct Q as [| q Q'];
      try discriminate; constructor.
    + simpl in HQ. inversion HQ as [[H1 H2]]. rewrite H1. apply mul_zero_rate. exact Hp.
    + apply IH. simpl in HQ. inversion HQ. reflexivity.
Qed.

(** C4, amended, at two partners with zero hours, a pool of 100 and mode
    [cent]. *)
Lemma C4_witness :
  exists r,
    distributeTips [partner_of_hours (of_Z 0); partner_of_hours (of_Z 0)]
      (of_Z 100) (js "cent") None = Normal r /\
    hourlyRate r = pos_zero /\
    List.length (payouts r) = 2%nat /\
    Forall (fun q => is_zero (payout q) = true) (payouts r).
Proof.
  apply (C4_nonpositive_hours_basis
           [partner_of_hours (of_Z 0); partner_of_hours (of_Z 0)]
           (of_Z 100) (js "cent") None).
  - reflexivity.
  - repeat constructor.
Defined.

(** C5.  With rounding mode [none] every call returns; the reported
    [roundingDelta] is 0, and each partner's [roundedPayout] is its exact
    payout [hours * hourlyRate] rounded to two decimals only: for a finite
    payout below 10^21 it is the number denoted by [n / 100], where [n] is
    the integer nearest to 100 times the payout. *)
Theorem C5_mode_none_rounds_to_cents partners totalTips totalHours :
  exists r,
    distributeTips partners totalTips (js "none") totalHours = Normal r /\
    roundingDelta r = pos_zero /\
    Forall2
      (fun p q =>
         partner q = p /\
         payout q = mul (or_zero (hours p)) (hourlyRate r) /\
         roundedPayout q = round2 (payout q) /\
         nearest_hundredth (payout q) (roundedPayout q))
      partners (payouts r).
Proof.
  rewrite distributeTips_unfold. cbv zeta.
  change (eqb (js "none") (js "none")) with true. cbv iota.
  eexists. split; [reflexivity|]. split; [reflexivity|].
  simpl payouts. simpl hourlyRate.
  generalize (hourlyRate_of partners totalTips totalHours) as rate. intros rate.
  induction partners as [| p t IH]; simpl; constructor; [|exact IH].
  simpl. repeat split. apply round2_nearest_hundredth. apply mul_exp_ok.
Qed.


(** C2, amended.  For a non-empty partner list whose exact shares are all
    finite, a rounding mode other than [none] and a non-zero delta, exactly
    one payout is adjusted: the one at the first index [k] whose exact share
    has the largest fractional part (share minus its floor, compared as
    exact values), every earlier share having a strictly smaller one.  Its
    [roundedPayout] becomes the quantized value plus the whole delta,
    rounded to two decimals; every other payout keeps its quantized
    value. *)
Theorem C2_first_largest_fraction_absorbs partners totalTips rounding totalHours :
  partners <> [] ->
  eqb rounding (js "none") = false ->
  let rate := hourlyRate_of partners totalTips totalHours in
  let Q := List.map (quantized rate rounding) partners in
  let delta := round2 (sub totalTips (rounded_total Q)) in
  Forall (fun q => is_finite (payout q) = true) Q ->
  strict_eq delta pos_zero = false ->
  exists r k q,
    distributeTips partners totalTips rounding totalHours = Normal r /\
    roundingDelta r = delta /\
    nth_error Q k = Some q /\
    (forall j q', nth_error Q j = Some q' ->
       num_lt (fraction q) (fraction q') = false) /\
    (forall j q', (j < k)%nat -> nth_error Q j = Some q' ->
       num_lt (fraction q') (fraction q) = true) /\
    nth_error (payouts r) k
    = Some (set_roundedPayout q (round2 (add (roundedPayout q) delta))) /\
    (forall j, j <> k -> nth_error (payouts r) j = nth_error Q j).
Proof.
  intros Hne Hmode rate Q delta Hfin Hd.
  rewrite distributeTips_unfold. cbv zeta. rewrite Hmode.
  fold rate. fold Q. fold delta. rewrite Hd.
  assert (HQ : Q <> []) by (unfold Q; destruct partners; [congruence | discriminate]).
  assert (Hok : Forall (fun q => is_finite (payout q) = true /\ exp_ok (payout q)) Q).
  { rewrite Forall_forall in *. intros q Hq. split; [apply Hfin; exact Hq|].
    unfold Q in Hq. apply in_map_iff in Hq. destruct Hq as (p & <- & _).
    apply mul_exp_ok. }
  destruct (absorb_first_max delta Q HQ Hok) as (k & q & Hk & Hmax & Hfirst & Ha).
  eexists. exists k, q. split; [reflexivity|]. simpl payouts. simpl roundingDelta.
  rewrite Ha. repeat split; auto.
  - apply (nth_error_update_eq (fun p => set_roundedPayout p (round2 (add (roundedPayout q) delta))) Q k q Hk).
  - intros j Hj. apply nth_error_update_neq. congruence.
Qed.

(** *** Rounding tokens outside the table *)
Lemma is_rounding_mode_false token :
  is_rounding_mode token = false ->
  eqb token (js "none") = false /\ ROUNDING_UNIT token = None.
Proof.
  unfold is_rounding_mode, rounding_modes, existsb, ROUNDING_UNIT.
  intros H. repeat (apply orb_false_elim in H; destruct H as [? H]).
  repeat match goal with E : eqb token _ = false |- _ => rewrite E; clear E end.
  split; reflexivity.
Qed.

Lemma applyRounding_unknown v token :
  is_rounding_mode token = false -> applyRounding v token = NaN.
Proof.
  intros H. destruct (is_rounding_mode_false _ H) as [H1 H2].
  unfold applyRounding. rewrite H1, H2. simpl unit_number.
  destruct (Math_round (div v NaN)); reflexivity.
Qed.

Lemma fold_add_nan (l : list PartnerPayout) :
  fold_left (fun sum partner => add sum (roundedPayout partner)) l NaN = NaN.
Proof. induction l as [| a t IH]; simpl; [reflexivity | exact IH]. Qed.

Lemma rounded_total_nan Q :
  Q <> [] -> Forall (fun q => roundedPayout q = NaN) Q -> rounded_total Q = NaN.
Proof.
  intros HQ HF. destruct Q as [| q t]; [congruence|].
  inversion HF as [| ? ? Hq Ht]; subst. unfold rounded_total. simpl.
  rewrite Hq. apply fold_add_nan.
Qed.

Lemma Forall_update {A : Type} (P : A -> Prop) f (l : list A) : forall i,
  (forall x, P (f x)) -> Forall P l -> Forall P (update i f l).
Proof.
  induction l as [| a t IH]; intros [| i] Hf H; simpl; inversion H; subst;
    constructor; auto.
Qed.

Lemma sub_nan_r x : sub x NaN = NaN.
Proof. destruct x; reflexivity. Qed.

Lemma add_nan_r x : add x NaN = NaN.
Proof. destruct x; reflexivity. Qed.

(** C9, amended.  A call with a rounding token outside
    [none], [cent], [dime], [quarter], [dollar] does not fail: it returns a
    result with one payout per partner, every [roundedPayout] being [NaN],
    and, when there is a partner, a [roundingDelta] of [NaN]. *)
Theorem C9_unknown_mode_returns_NaN partners totalTips token totalHours :
  is_rounding_mode token = false ->
  exists r,
    distributeTips partners totalTips token totalHours = Normal r /\
    List.length (payouts r) = List.length partners /\
    Forall (fun q => roundedPayout q = NaN) (payouts r) /\
    (partners <> [] -> roundingDelta r = NaN).
Proof.
  intros Hu. destruct (is_rounding_mode_false _ Hu) as [Hn _].
  rewrite distributeTips_unfold. cbv zeta. rewrite Hn.
  set (rate := hourlyRate_of partners totalTips totalHours).
  set (Q := List.map (quantized rate token) partners).
  assert (HN : Forall (fun q => roundedPayout q = NaN) Q).
  { unfold Q. apply Forall_forall. intros q Hq. apply in_map_iff in Hq.
    destruct Hq as (p & <- & _). simpl. rewrite applyRounding_unknown by exact Hu.
    reflexivity. }
  assert (HL : List.length Q = List.length partners) by (unfold Q; apply length_map).
  destruct partners as [| p0 t].
  - destruct (strict_eq _ pos_zero); eexists; (split; [reflexivity|]);
      simpl; repeat split; try constructor; congruence.
  - assert (HQ : Q <> []) by (unfold Q; discriminate).
    rewrite (rounded_total_nan Q HQ HN), sub_nan_r.
    change (round2 NaN) with NaN. change (strict_eq NaN pos_zero) with false. cbv iota.
    eexists. split; [reflexivity|]. simpl payouts. simpl roundingDelta.
    split; [|split; [|reflexivity]].
    + unfold absorb. destruct (sort _ _) as [| [i first] s]; [exact HL|].
      rewrite update_length. exact HL.
    + unfold absorb. destruct (sort _ _) as [| [i first] s]; [exact HN|].
      apply Forall_update; [|exact HN]. intros x. simpl. rewrite add_nan_r. reflexivity.
Qed.

(** C9, amended, at the token [nickel]. *)
Lemma C9_witness :
  exists r,
    distributeTips [partner_of_hours (of_Z 1); partner_of_hours (of_Z 2)]
      (of_Z 100) (js "nickel") None = Normal r /\
    List.length (payouts r) = 2%nat /\
    Forall (fun q => roundedPayout q = NaN) (payouts r) /\
    ([partner_of_hours (of_Z 1); partner_of_hours (of_Z 2)] <> [] ->
     roundingDelta r = NaN).
Proof.
  apply (C9_unknown_mode_returns_NaN
           [partner_of_hours (of_Z 1); partner_of_hours (of_Z 2)]
           (of_Z 100) (js "nickel") None).
  reflexivity.
Defined.

(** C9, as stated, fails: no call with a token outside the five modes
    throws. *)
Lemma C9_no_call_throws :
  ~ (exists partners totalTips token totalHours e,
       is_rounding_mode token = false /\
       distributeTips partners totalTips token totalHours = Throw e).
Proof.
  intros (partners & totalTips & token & totalHours & e & _ & H).
  destruct (distributeTips_returns partners totalTips token totalHours) as (r & Hr & _).
  congruence.
Qed.

Lemma SFdiv_core_nonneg mx ex my ey mz ez lz :
  SFdiv_core_binary prec emax (Zpos mx) ex (Zpos my) ey = (mz, ez, lz) -> 0 <= mz.
Proof.
  unfold SFdiv_core_binary.
  set (s := ex - ey - _).
  set (m' := match s with Z0 => Zpos mx | Zpos _ => Z.shiftl (Zpos mx) s | Zneg _ => 0 end).
  assert (Hm' : 0 <= m').
  { unfold m'. destruct s; try lia. apply Z.shiftl_nonneg. lia. }
  pose proof (Z.div_pos m' (Zpos my) Hm' ltac:(lia)) as Hq.
  unfold Z.div in Hq. destruct (Z.div_eucl m' (Zpos my)) as [q r].
  intros H. inversion H; subst. exact Hq.
Qed.

Lemma div_finite_ok a b s m e :
  div a b = S754_finite s m e -> emin' <= e /\ Zpos (digits2_pos m) <= prec.
Proof.
  destruct a as [sa | sa | | sa ma ea], b as [sb | sb | | sb mb eb];
    try discriminate.
  unfold div, SFdiv.
  destruct (SFdiv_core_binary prec emax (Zpos ma) ea (Zpos mb) eb) as [[mz ez] lz] eqn:E.
  pose proof (SFdiv_core_nonneg _ _ _ _ _ _ _ E) as Hmz.
  destruct (binary_round_aux_spec (xorb sa sb) mz ez lz Hmz) as [[H | [H | (m' & e' & H & He & Hd)]] _];
    rewrite H; intros Heq; inversion Heq; subst; auto.
Qed.

Lemma Math_round_nearest_integer y :
  (forall s m e, y = S754_finite s m e -> emin' <= e /\ Zpos (digits2_pos m) <= prec) ->
  nearest_integer y (Math_round y).
Proof.
  intros H. destruct y as [s | s | | s m e]; try reflexivity.
  destruct (H s m e eq_refl) as [He Hd].
  destruct (Math_round_nearest s m e He Hd) as (k & H1 & H2 & H3).
  exists k. auto.
Qed.

(** C6, amended.  For the modes [cent], [dime], [quarter] and [dollar],
    with unit [u], each partner's [roundedPayout] before reconciliation is
    [Math.round(payout / u) * u], computed in binary64 and rounded to two
    decimals, where [Math.round] yields the integer nearest to the quotient
    and, of two nearest, the upper one (ties go towards plus infinity, which
    is away from zero only for non-negative payouts). *)
Theorem C6_quantized_to_unit_ties_up partners rate rounding unit :
  eqb rounding (js "none") = false ->
  ROUNDING_UNIT rounding = Some unit ->
  exists Q,
    initial_payouts partners rate rounding = Normal Q /\
    Forall2
      (fun p q =>
         payout q = mul (or_zero (hours p)) rate /\
         roundedPayout q
         = round2 (mul (Math_round (div (payout q) unit)) unit) /\
         nearest_integer (div (payout q) unit) (Math_round (div (payout q) unit)))
      partners Q.
Proof.
  intros Hmode Hunit. rewrite initial_payouts_normal. eexists. split; [reflexivity|].
  induction partners as [| p t IH]; simpl; constructor; [|exact IH].
  simpl. unfold applyRounding. rewrite Hmode, Hunit. simpl unit_number.
  repeat split. apply Math_round_nearest_integer. intros s m e. apply div_finite_ok.
Qed.

(** C6, amended, at one partner, a rate of 2.5 and mode [dollar]. *)
Lemma C6_witness :
  exists Q,
    initial_payouts [partner_of_hours (of_Z 1)] (of_ratio false 5 2) (js "dollar")
    = Normal Q /\
    Forall2
      (fun p q =>
         payout q = mul (or_zero (hours p)) (of_ratio false 5 2) /\
         roundedPayout q
         = round2 (mul (Math_round (div (payout q) (of_Z 1))) (of_Z 1)) /\
         nearest_integer (div (payout q) (of_Z 1))
           (Math_round (div (payout q) (of_Z 1))))
      [partner_of_hours (of_Z 1)] Q.
Proof.
  apply (C6_quantized_to_unit_ties_up [partner_of_hours (of_Z 1)]
           (of_ratio false 5 2) (js "dollar") (of_Z 1)); reflexivity.
Defined.

(** C6, as stated, fails on a negative tie: for one partner, a rate of
    -2.5 and mode [dollar] the exact payout is -2.5; rounding half away from
    zero gives -3, the code gives -2. *)
Lemma C6_counterexample :
  exists q,
    initial_payouts [partner_of_hours (of_Z 1)] (of_ratio true 5 2) (js "dollar")
    = Normal [q] /\
    payout q = of_ratio true 5 2 /\
    half_away_from_zero (ticks (payout q)) (ticks (of_Z 1)) = -3 /\
    roundedPayout q = of_Z (-2) /\
    roundedPayout q <> round2 (mul (of_Z (-3)) (of_Z 1)).
Proof.
  eexists. split; [reflexivity|]. split; [reflexivity|].
  split; [vm_compute; reflexivity|]. split; [reflexivity|]. vm_compute. discriminate.
Qed.


(** C2, as stated, fails for the empty partner list: the delta is 100,
    not zero, and no payout exists that could be adjusted. *)
Lemma C2_counterexample :
  exists r,
    distributeTips [] (of_Z 100) (js "cent") None = Normal r /\
    strict_eq (roundingDelta r) pos_zero = false /\
    payouts r = [].
Proof.
  eexists. split; [vm_compute; reflexivity|]. split; reflexivity.
Qed.


(** C2, amended, at three partners of one hour each, a pool of 100 and
    mode [cent]. *)
Lemma C2_witness :
  let rate := hourlyRate_of three_partners (of_Z 100) None in
  let Q := List.map (quantized rate (js "cent")) three_partners in
  let delta := round2 (sub (of_Z 100) (rounded_total Q)) in
  exists r k q,
    distributeTips three_partners (of_Z 100) (js "cent") None = Normal r /\
    roundingDelta r = delta /\
    nth_error Q k = Some q /\
    (forall j q', nth_error Q j = Some q' ->
       num_lt (fraction q) (fraction q') = false) /\
    (forall j q', (j < k)%nat -> nth_error Q j = Some q' ->
       num_lt (fraction q') (fraction q) = true) /\
    nth_error (payouts r) k
    = Some (set_roundedPayout q (round2 (add (roundedPayout q) delta))) /\
    (forall j, j <> k -> nth_error (payouts r) j = nth_error Q j).
Proof.
  apply (C2_first_largest_fraction_absorbs three_partners (of_Z 100) (js "cent") None).
  - discriminate.
  - reflexivity.
  - repeat constructor.
  - vm_compute. reflexivity.
Defined.

(** C4, as stated, fails when a partner's hours are infinite: with the
    hours basis overridden by 0 the rate is 0 and the exact share is
    [Infinity * 0], which is [NaN], not 0. *)
Lemma C4_counterexample :
  exists r,
    SFleb (hoursSum_of [partner_of_hours (infinity false)] (Some pos_zero))
      pos_zero = true /\
    distributeTips [partner_of_hours (infinity false)] (of_Z 100) (js "cent")
      (Some pos_zero) = Normal r /\
    hourlyRate r = pos_zero /\
    List.map payout (payouts r) = [NaN].
Proof.
  eexists. split; [reflexivity|]. split; [vm_compute; reflexivity|].
  split; reflexivity.
Qed.

(** *** One payout per partner *)
Lemma map_partner_update i f (l : list PartnerPayout) :
  (forall p, partner (f p) = partner p) ->
  List.map partner (update i f l) = List.map partner l.
Proof.
  intros H. revert i. induction l as [| a t IH]; intros [| i]; simpl; try reflexivity.
  - rewrite H. reflexivity.
  - rewrite IH. reflexivity.
Qed.

Lemma map_partner_absorb delta Q :
  List.map partner (absorb delta Q) = List.map partner Q.
Proof.
  unfold absorb. destruct (sort _ _) as [| [i first] s]; [reflexivity|].
  apply map_partner_update. reflexivity.
Qed.

(** X1.  Whatever the rounding token, the result holds one payout per
    partner, in the partners' order: the record of a partner carries the
    partner unchanged and the exact payout [(partner.hours || 0) *
    hourlyRate]. *)
Theorem payouts_follow_partners partners totalTips rounding totalHours :
  exists r,
    distributeTips partners totalTips rounding totalHours = Normal r /\
    List.map partner (payouts r) = partners /\
    List.map payout (payouts r)
    = List.map (fun p => mul (counted_hours p) (hourlyRate r)) partners.
Proof.
  rewrite distributeTips_unfold. cbv zeta.
  set (rate := hourlyRate_of partners totalTips totalHours).
  set (Q := List.map (quantized rate rounding) partners).
  assert (HP : List.map partner Q = partners).
  { unfold Q. rewrite map_map. simpl. apply map_id. }
  assert (HQ : List.map payout Q
               = List.map (fun p => mul (counted_hours p) rate) partners).
  { unfold Q. rewrite map_map. reflexivity. }
  destruct (eqb rounding (js "none")).
  - eexists. split; [reflexivity|]. simpl payouts. simpl hourlyRate.
    split; rewrite map_map; [exact HP | exact HQ].
  - destruct (strict_eq _ pos_zero); eexists; (split; [reflexivity|]);
      simpl payouts; simpl hourlyRate.
    + split; assumption.
    + rewrite map_partner_absorb, map_payout_absorb. split; assumption.
Qed.

(** *** Only the hours matter *)
Lemma map_set_rounded_amounts Q1 : forall Q2,
  List.map amounts Q1 = List.map amounts Q2 ->
  List.map amounts (List.map (fun p => set_roundedPayout p (round2 (payout p))) Q1)
  = List.map amounts (List.map (fun p => set_roundedPayout p (round2 (payout p))) Q2).
Proof.
  induction Q1 as [| a t IH]; intros [| b t'] H; try discriminate; [reflexivity|].
  simpl in H. injection H as Hp Hr Ht. simpl. rewrite (IH t' Ht).
  unfold amounts. simpl. rewrite Hp. reflexivity.
Qed.

Lemma fold_add_map {A : Type} (f : A -> number) (l : list A) : forall a,
  fold_left (fun s p => add s (f p)) l a = fold_left add (List.map f l) a.
Proof. induction l as [| x t IH]; intros a; simpl; [reflexivity | apply IH]. Qed.

Lemma hourlyRate_counted ps1 ps2 totalTips totalHours :
  List.map counted_hours ps1 = List.map counted_hours ps2 ->
  hourlyRate_of ps1 totalTips totalHours = hourlyRate_of ps2 totalTips totalHours.
Proof.
  intros H. unfold hourlyRate_of, hoursSum_of. destruct totalHours; [reflexivity|].
  rewrite !(fold_add_map (fun p => or_zero (hours p))).
  change (List.map (fun p => or_zero (hours p))) with (List.map counted_hours).
  rewrite H. reflexivity.
Qed.

Lemma amounts_quantized ps1 ps2 rate rounding :
  List.map counted_hours ps1 = List.map counted_hours ps2 ->
  List.map amounts (List.map (quantized rate rounding) ps1)
  = List.map amounts (List.map (quantized rate rounding) ps2).
Proof.
  intros H. rewrite !map_map.
  rewrite <- !(map_map counted_hours
                 (fun h => (mul h rate, round2 (applyRounding (mul h rate) rounding)))).
  rewrite H. reflexivity.
Qed.

Lemma rounded_total_amounts Q1 Q2 :
  List.map amounts Q1 = List.map amounts Q2 -> rounded_total Q1 = rounded_total Q2.
Proof.
  intros H. unfold rounded_total. rewrite !(fold_add_map roundedPayout).
  rewrite <- !(map_map amounts snd). rewrite H. reflexivity.
Qed.

Lemma compare_fraction_amounts a a' b b' :
  amounts a = amounts a' -> amounts b = amounts b' ->
  compare_fraction a b = compare_fraction a' b'.
Proof.
  unfold amounts, compare_fraction, fraction. intros Ha Hb.
  inversion Ha. inversion Hb. congruence.
Qed.

Lemma insert_sorted_same_amounts x x' l l' :
  same_amounts x x' -> Forall2 same_amounts l l' ->
  Forall2 same_amounts
    (insert_sorted (fun a b => compare_fraction (snd a) (snd b)) x l)
    (insert_sorted (fun a b => compare_fraction (snd a) (snd b)) x' l').
Proof.
  intros Hx H. induction H as [| y y' t t' Hy Ht IH]; simpl.
  - constructor; [exact Hx | constructor].
  - rewrite (compare_fraction_amounts (snd x) (snd x') (snd y) (snd y'))
      by (apply Hx || apply Hy).
    destruct (gt _ pos_zero); constructor; auto.
Qed.

Lemma sort_same_amounts l l' :
  Forall2 same_amounts l l' ->
  Forall2 same_amounts
    (sort (fun a b => compare_fraction (snd a) (snd b)) l)
    (sort (fun a b => compare_fraction (snd a) (snd b)) l').
Proof.
  intros H. induction H; simpl; [constructor|].
  apply insert_sorted_same_amounts; assumption.
Qed.

Lemma indexed_same_amounts Q1 : forall Q2 s,
  List.map amounts Q1 = List.map amounts Q2 ->
  Forall2 same_amounts (indexed_from s Q1) (indexed_from s Q2).
Proof.
  induction Q1 as [| a t IH]; intros [| b t'] s H; try discriminate; simpl.
  - constructor.
  - simpl in H. injection H as Hp Hr Ht.
    constructor; [split; [reflexivity | unfold amounts; simpl; congruence]|].
    apply IH. exact Ht.
Qed.

Lemma update_same_amounts f f' Q1 : forall Q2 i,
  (forall p p', amounts p = amounts p' -> amounts (f p) = amounts (f' p')) ->
  List.map amounts Q1 = List.map amounts Q2 ->
  List.map amounts (update i f Q1) = List.map amounts (update i f' Q2).
Proof.
  induction Q1 as [| a t IH]; intros [| b t'] i Hf H; try discriminate;
    [destruct i; reflexivity|].
  simpl in H. injection H as Hp Hr Ht.
  assert (Hab : amounts a = amounts b) by (unfold amounts; congruence).
  destruct i as [| i]; simpl.
  - rewrite (Hf a b Hab), Ht. reflexivity.
  - rewrite Hab, (IH t' i Hf Ht). reflexivity.
Qed.

Lemma absorb_same_amounts delta Q1 Q2 :
  List.map amounts Q1 = List.map amounts Q2 ->
  List.map amounts (absorb delta Q1) = List.map amounts (absorb delta Q2).
Proof.
  intros H. unfold absorb.
  pose proof (sort_same_amounts _ _ (indexed_same_amounts Q1 Q2 0%nat H)) as S.
  inversion S as [| [i q] [i' q'] s s' [Hi Hq] Hs E1 E2]; [exact H|].
  simpl in Hi, Hq. subst i'.
  apply update_same_amounts; [|exact H].
  intros p p' Hp. unfold amounts in *. simpl. inversion Hp. inversion Hq. congruence.
Qed.

(** X2.  Only the hours matter: two partner lists with the same counted
    hours [partner.hours || 0], position by position, get the same hourly
    rate, the same rounding delta and the same amounts [payout] and
    [roundedPayout]. *)
Theorem payouts_depend_on_counted_hours ps1 ps2 totalTips rounding totalHours :
  List.map counted_hours ps1 = List.map counted_hours ps2 ->
  exists r1 r2,
    distributeTips ps1 totalTips rounding totalHours = Normal r1 /\
    distributeTips ps2 totalTips rounding totalHours = Normal r2 /\
    hourlyRate r1 = hourlyRate r2 /\
    roundingDelta r1 = roundingDelta r2 /\
    List.map amounts (payouts r1) = List.map amounts (payouts r2).
Proof.
  intros H. rewrite !distributeTips_unfold. cbv zeta.
  rewrite (hourlyRate_counted ps1 ps2 totalTips totalHours H).
  set (rate := hourlyRate_of ps2 totalTips totalHours).
  pose proof (amounts_quantized ps1 ps2 rate rounding H) as HQ.
  rewrite (rounded_total_amounts _ _ HQ).
  destruct (eqb rounding (js "none")).
  - do 2 eexists. do 2 (split; [reflexivity|]). simpl.
    split; [reflexivity|]. split; [reflexivity|].
    apply map_set_rounded_amounts. exact HQ.
  - destruct (strict_eq _ pos_zero); do 2 eexists; do 2 (split; [reflexivity|]);
      simpl; (split; [reflexivity|]); (split; [reflexivity|]).
    + exact HQ.
    + apply absorb_same_amounts. exact HQ.
Qed.

(** X2 at two partners, one with hours [NaN], and two others with hours 0
    and 8. *)
Lemma payouts_depend_on_counted_hours_witness :
  exists r1 r2,
    distributeTips
      [mkPartner (js "12345") (Some (js "US98765432")) (js "Smith, Alex J") NaN;
       mkPartner (js "23456") (Some (js "US12345678")) (js "Lee, Kim") (of_Z 8)]
      (of_Z 100) (js "quarter") None = Normal r1 /\
    distributeTips
      [mkPartner [] None (js "A") pos_zero;
       mkPartner [] None (js "B") (of_Z 8)]
      (of_Z 100) (js "quarter") None = Normal r2 /\
    hourlyRate r1 = hourlyRate r2 /\
    roundingDelta r1 = roundingDelta r2 /\
    List.map amounts (payouts r1) = List.map amounts (payouts r2).
Proof.
  apply payouts_depend_on_counted_hours. reflexivity.
Defined.

(** *** No partners *)
Lemma sub_zero_r x : sub x pos_zero = x.
Proof. destruct x as [[|] | [|] | | s m e]; reflexivity. Qed.

(** X3.  With no partners there are no payouts, and the reported rounding
    delta is the whole pool to two decimals (0 under mode [none] or when
    that is zero). *)
Theorem no_partners_no_payouts totalTips rounding totalHours :
  exists r,
    distributeTips [] totalTips rounding totalHours = Normal r /\
    payouts r = [] /\
    roundingDelta r
    = if eqb rounding (js "none") || is_zero (round2 totalTips)
      then pos_zero else round2 totalTips.
Proof.
  rewrite distributeTips_unfold. cbv zeta. cbn [List.map].
  destruct (eqb rounding (js "none")); [eexists; repeat split|].
  change (rounded_total []) with pos_zero. rewrite sub_zero_r. cbn [orb].
  destruct (round2 totalTips) as [[|] | [|] | | [|] m e] eqn:E;
    eexists; (split; [reflexivity|]); split; reflexivity.
Qed.

End AllocatorFacts.

(** ** The extractors *)

Section ExtractorFacts.
Import JSString Regex ParseFloat Extract.
Local Close Scope Z_scope.

Lemma star_loop_chr input p greedy : forall fuel s cs,
  (List.length s < fuel)%nat ->
  star_loop (matches input (Chr p)) greedy fuel (mkState s cs)
  = star_chr p greedy cs s.
Proof.
  induction fuel as [| n IH]; intros s cs Hlt; [lia|].
  destruct s as [| c t]; simpl.
  - destruct greedy; reflexivity.
  - destruct (p c); simpl.
    + replace (List.length t <? S (List.length t))%nat with true
        by (symmetry; apply Nat.ltb_lt; lia).
      rewrite app_nil_r. rewrite IH by (simpl in Hlt; lia).
      destruct greedy; reflexivity.
    + destruct greedy; reflexivity.
Qed.

Lemma in_star_chr p greedy cs y : forall s,
  In y (star_chr p greedy cs s) <->
  exists w, s = w ++ rest y /\ forallb p w = true /\ caps y = cs.
Proof.
  induction s as [| c t IH]; simpl.
  - split.
    + intros [<- | []]. exists []. auto.
    + intros (w & Hw & _ & Hc). destruct w; [|discriminate]. simpl in Hw.
      left. destruct y; simpl in *; subst; reflexivity.
  - assert (Hhere : forall w, c :: t = w ++ rest y -> caps y = cs -> w = [] ->
                      mkState (c :: t) cs = y).
    { intros w Hw Hc ->. simpl in Hw. destruct y; simpl in *; subst; reflexivity. }
    destruct (p c) eqn:Ep.
    + assert (In y (star_chr p greedy cs t) \/ mkState (c :: t) cs = y <->
              exists w, c :: t = w ++ rest y /\ forallb p w = true /\ caps y = cs).
      { rewrite IH. split.
        - intros [(w & Hw & Hp & Hc) | <-].
          + exists (c :: w). simpl. rewrite Ep, Hp, Hw. auto.
          + exists []. auto.
        - intros (w & Hw & Hp & Hc). destruct w as [| c' w'].
          + right. eapply Hhere; eauto.
          + left. simpl in Hw. inversion Hw; subst. simpl in Hp.
            apply andb_true_iff in Hp. exists w'. tauto. }
      destruct greedy; simpl; [rewrite in_app_iff; simpl|]; tauto.
    + split.
      * intros [<- | []]. exists []. auto.
      * intros (w & Hw & Hp & Hc). destruct w as [| c' w'].
        -- left. eapply Hhere; eauto.
        -- simpl in Hw. inversion Hw; subst. simpl in Hp. rewrite Ep in Hp. discriminate.
Qed.

Theorem matches_sem input r : supported r = true ->
  forall x y, In y (matches input r x) <-> sem input r x y.
Proof.
  induction r as [| p | a IHa b IHb | a IHa b IHb | g a IHa | i a IHa | |];
    intros Hs x y; simpl in Hs.
  - simpl. intuition.
  - simpl. destruct x as [s cs]; simpl. destruct s as [| c t]; simpl.
    + split; [intros [] | intros (c & H & _); discriminate].
    + destruct (p c) eqn:Ep; simpl.
      * split.
        -- intros [<- | []]. exists c. auto.
        -- intros (c' & H & Hp & Hc). inversion H; subst. left.
           destruct y; simpl in *; subst; reflexivity.
      * split; [intros [] |].
        intros (c' & H & Hp & Hc). inversion H; subst. congruence.
  - simpl. apply andb_true_iff in Hs. destruct Hs as [Ha Hb].
    rewrite in_flat_map. split; intros (z & H1 & H2); exists z.
    + split; [apply IHa | apply IHb]; assumption.
    + split; [apply IHa | apply IHb]; assumption.
  - simpl. apply andb_true_iff in Hs. destruct Hs as [Ha Hb].
    rewrite in_app_iff, IHa, IHb by assumption. reflexivity.
  - destruct a as [| p | | | | | |]; try discriminate.
    destruct x as [s cs].
    change (matches input (Star g (Chr p)) (mkState s cs))
      with (star_loop (matches input (Chr p)) g (S (List.length s)) (mkState s cs)).
    rewrite star_loop_chr by lia.
    rewrite in_star_chr. simpl. reflexivity.
  - simpl. rewrite in_map_iff. split.
    + intros (z & <- & Hz). exists z. split; [apply IHa; assumption | reflexivity].
    + intros (z & Hz & ->). exists z. split; [reflexivity | apply IHa; assumption].
  - simpl. destruct (Nat.eqb_spec (List.length (rest x)) (List.length input)); simpl.
    + intuition congruence.
    + intuition.
  - simpl. destruct (rest x) eqn:E; simpl.
    + intuition congruence.
    + intuition congruence.
Qed.

(** A match consumes a prefix of what is left. *)
Lemma sem_suffix input r : supported r = true ->
  forall x y, sem input r x y -> exists w, rest x = w ++ rest y.
Proof.
  induction r as [| p | a IHa b IHb | a IHa b IHb | g a IHa | i a IHa | |];
    intros Hs x y H; simpl in Hs, H.
  - subst. exists []. reflexivity.
  - destruct H as (c & H & _). exists [c]. exact H.
  - apply andb_true_iff in Hs. destruct Hs as [Ha Hb].
    destruct H as (z & H1 & H2).
    destruct (IHa Ha _ _ H1) as (w1 & E1). destruct (IHb Hb _ _ H2) as (w2 & E2).
    exists (w1 ++ w2). rewrite E1, E2, app_assoc. reflexivity.
  - apply andb_true_iff in Hs. destruct Hs as [Ha Hb].
    destruct H as [H | H]; eauto.
  - destruct a; try discriminate. destruct H as (w & H & _). exists w. exact H.
  - destruct H as (z & H1 & ->). simpl. eauto.
  - destruct H as [-> _]. exists []. reflexivity.
  - destruct H as [-> _]. exists []. reflexivity.
Qed.

Lemma firstn_consumed {A : Type} (w s : list A) :
  firstn (List.length (w ++ s) - List.length s) (w ++ s) = w.
Proof.
  rewrite length_app. replace (List.length w + List.length s - List.length s)%nat
    with (List.length w) by lia.
  rewrite firstn_app, Nat.sub_diag, firstn_all. simpl. apply app_nil_r.
Qed.

(** A group records the text its pattern consumed. *)
Lemma sem_group input i a x y : supported a = true ->
  sem input (Group i a) x y <->
  exists z w, sem input a x z /\ rest x = w ++ rest z /\
              y = mkState (rest z) ((i, w) :: caps z).
Proof.
  intros Hs. simpl. split.
  - intros (z & Hz & ->). destruct (sem_suffix input a Hs _ _ Hz) as (w & Hw).
    exists z, w. split; [exact Hz|]. split; [exact Hw|].
    rewrite Hw at 1 2. rewrite firstn_consumed. reflexivity.
  - intros (z & w & Hz & Hw & ->). exists z. split; [exact Hz|].
    rewrite Hw at 1 2. rewrite firstn_consumed. reflexivity.
Qed.

Lemma plain_supported r : plain r = true -> supported r = true.
Proof.
  induction r as [| p | a IHa b IHb | a IHa b IHb | g a IHa | i a IHa | |];
    simpl; intros H; try reflexivity; try discriminate.
  - apply andb_true_iff in H. destruct H. rewrite IHa, IHb by assumption. reflexivity.
  - apply andb_true_iff in H. destruct H. rewrite IHa, IHb by assumption. reflexivity.
  - destruct a; try discriminate; reflexivity.
Qed.

Lemma sem_lang input r : plain r = true ->
  forall x y, sem input r x y <->
    exists w, rest x = w ++ rest y /\ caps y = caps x /\ lang r w.
Proof.
  induction r as [| p | a IHa b IHb | a IHa b IHb | g a IHa | i a IHa | |];
    intros Hp x y; simpl in Hp; try discriminate.
  - simpl. split.
    + intros ->. exists []. auto.
    + intros (w & H1 & H2 & ->). simpl in H1. destruct x, y; simpl in *; congruence.
  - simpl. split.
    + intros (c & H1 & H2 & H3). exists [c]. repeat split; eauto.
    + intros (w & H1 & H2 & c & -> & H3). exists c. auto.
  - apply andb_true_iff in Hp. destruct Hp as [Ha Hb]. simpl. split.
    + intros (z & H1 & H2). apply IHa in H1; [|exact Ha]. apply IHb in H2; [|exact Hb].
      destruct H1 as (u & E1 & C1 & L1). destruct H2 as (v & E2 & C2 & L2).
      exists (u ++ v). rewrite E1, E2, app_assoc. repeat split; try congruence.
      exists u, v. auto.
    + intros (w & E & C & u & v & -> & L1 & L2).
      exists (mkState (v ++ rest y) (caps x)). split.
      * apply IHa; [exact Ha|]. exists u. simpl. rewrite E, app_assoc. auto.
      * apply IHb; [exact Hb|]. exists v. simpl. auto.
  - apply andb_true_iff in Hp. destruct Hp as [Ha Hb]. simpl.
    rewrite IHa, IHb by assumption. split.
    + intros [(w & H) | (w & H)]; exists w; tauto.
    + intros (w & H1 & H2 & [H3 | H3]); [left | right]; exists w; auto.
  - destruct a; try discriminate. simpl.
    split; intros (w & H1 & H2 & H3); exists w; auto.
Qed.

(** *** Repetitions of a character class *)
Lemma lang_rep p n tail w :
  lang (rep n (Chr p) tail) w <->
  exists u v, w = u ++ v /\ List.length u = n /\ forallb p u = true /\ lang tail v.
Proof.
  revert w. induction n as [| n IH]; intros w; simpl.
  - split.
    + intros H. exists [], w. auto.
    + intros (u & v & -> & Hl & _ & H). destruct u; [exact H | discriminate].
  - split.
    + intros (u & v & -> & (c & -> & Hc) & H). apply IH in H.
      destruct H as (u' & v' & -> & Hl & Hp & Ht).
      exists (c :: u'), v'. simpl. rewrite Hc, Hp, Hl. auto.
    + intros (u & v & -> & Hl & Hp & Ht). destruct u as [| c u']; [discriminate|].
      simpl in Hp. apply andb_true_iff in Hp. destruct Hp as [Hc Hp].
      exists [c], (u' ++ v). split; [reflexivity|]. split; [exists c; auto|].
      apply IH. exists u', v. simpl in Hl. auto.
Qed.

Lemma lang_upto p k w :
  lang (upto k (Chr p)) w <-> (List.length w <= k)%nat /\ forallb p w = true.
Proof.
  revert w. induction k as [| k IH]; intros w; simpl.
  - split.
    + intros ->. auto.
    + intros [H _]. destruct w; [reflexivity | simpl in H; lia].
  - split.
    + intros [(u & v & -> & (c & -> & Hc) & H) | ->].
      * apply IH in H. destruct H as [Hl Hp]. simpl. rewrite Hc, Hp. split; [lia | reflexivity].
      * simpl. split; [lia | reflexivity].
    + intros [Hl Hp]. destruct w as [| c w']; [right; reflexivity|].
      left. simpl in Hp. apply andb_true_iff in Hp. destruct Hp as [Hc Hp].
      exists [c], w'. split; [reflexivity|]. split; [exists c; auto|].
      apply IH. simpl in Hl. split; [lia | exact Hp].
Qed.

Lemma lang_range p n m w : (n <= m)%nat ->
  lang (range n m (Chr p)) w <->
  forallb p w = true /\ (n <= List.length w <= m)%nat.
Proof.
  intros Hnm. unfold range. rewrite lang_rep. split.
  - intros (u & v & -> & Hl & Hp & H). apply lang_upto in H. destruct H as [Hv Hpv].
    rewrite forallb_app, Hp, Hpv, length_app. split; [reflexivity | lia].
  - intros [Hp [H1 H2]]. exists (firstn n w), (skipn n w).
    rewrite firstn_skipn. split; [reflexivity|].
    rewrite <- (firstn_skipn n w), forallb_app in Hp.
    apply andb_true_iff in Hp. destruct Hp as [Hp1 Hp2].
    split; [apply firstn_length_le; lia|]. split; [exact Hp1|].
    apply lang_upto. split; [rewrite length_skipn; lia | exact Hp2].
Qed.

Lemma lang_plus p w :
  lang (plus (Chr p)) w <-> w <> [] /\ forallb p w = true.
Proof.
  unfold plus. simpl. split.
  - intros (u & v & -> & (c & -> & Hc) & Hv). simpl. rewrite Hc, Hv.
    split; [discriminate | reflexivity].
  - intros [Hne Hp]. destruct w as [| c w']; [congruence|].
    simpl in Hp. apply andb_true_iff in Hp. destruct Hp as [Hc Hp].
    exists [c], w'. split; [reflexivity|]. split; [exists c; auto | exact Hp].
Qed.

(** *** The first match *)
Lemma hd_flat_map_head {A B : Type} (K : A -> list B) L y0 z :
  hd_error L = Some y0 -> hd_error (K y0) = Some z ->
  hd_error (flat_map K L) = Some z.
Proof.
  destruct L as [| a t]; simpl; [discriminate|]. intros H; inversion H; subst.
  destruct (K y0); simpl; [discriminate | auto].
Qed.

Lemma hd_flat_map_unique {A B : Type} (K : A -> list B) L y0 z :
  (forall y, In y L -> K y <> [] -> y = y0) ->
  In y0 L -> hd_error (K y0) = Some z ->
  hd_error (flat_map K L) = Some z.
Proof.
  intros Hu Hin Hz. induction L as [| a t IH]; [contradiction|].
  simpl. destruct (K a) as [| b l] eqn:Ea.
  - simpl. apply IH.
    + intros y Hy. apply Hu. right. exact Hy.
    + destruct Hin as [-> | Hin]; [|exact Hin]. rewrite Ea in Hz. discriminate.
  - assert (a = y0) by (apply Hu; [left; reflexivity | rewrite Ea; discriminate]).
    subst a. rewrite Ea in Hz. exact Hz.
Qed.

Lemma hd_star_chr_greedy p cs w s :
  forallb p w = true ->
  match s with c :: _ => p c = false | [] => True end ->
  hd_error (star_chr p true cs (w ++ s)) = Some (mkState s cs).
Proof.
  intros Hp Hs. induction w as [| c w' IH]; simpl.
  - destruct s as [| c t]; [reflexivity|]. simpl. rewrite Hs. reflexivity.
  - simpl in Hp. apply andb_true_iff in Hp. destruct Hp as [Hc Hp]. rewrite Hc.
    specialize (IH Hp). destruct (star_chr p true cs (w' ++ s)); [discriminate|].
    exact IH.
Qed.

(** *** Where a run of a character class ends *)
Lemma run_unique (p : code_unit -> bool) : forall u u' s s',
  u ++ s = u' ++ s' ->
  forallb p u = true -> forallb p u' = true ->
  match s with c :: _ => p c = false | [] => True end ->
  match s' with c :: _ => p c = false | [] => True end ->
  u = u' /\ s = s'.
Proof.
  induction u as [| c u IH]; intros u' s s' E Hu Hu' Hs Hs'.
  - destruct u' as [| c' u'']; [auto|]. simpl in E. subst s.
    simpl in Hu'. apply andb_true_iff in Hu'. destruct Hu'. congruence.
  - destruct u' as [| c' u''].
    + simpl in E. subst s'. simpl in Hu. apply andb_true_iff in Hu. destruct Hu. congruence.
    + simpl in E. inversion E; subst. simpl in Hu, Hu'.
      apply andb_true_iff in Hu. apply andb_true_iff in Hu'.
      destruct (IH u'' s s') as [-> ->]; tauto.
Qed.

Lemma forallb_rev' {A : Type} (p : A -> bool) l :
  forallb p (rev l) = forallb p l.
Proof.
  induction l as [| a t IH]; simpl; [reflexivity|].
  rewrite forallb_app, IH. simpl. rewrite andb_true_r. apply andb_comm.
Qed.

Lemma run_unique_end (p : code_unit -> bool) a a' t t' :
  a ++ t = a' ++ t' ->
  forallb p t = true -> forallb p t' = true ->
  match rev a with c :: _ => p c = false | [] => True end ->
  match rev a' with c :: _ => p c = false | [] => True end ->
  a = a' /\ t = t'.
Proof.
  intros E Ht Ht' Ha Ha'.
  assert (E' : rev t ++ rev a = rev t' ++ rev a')
    by (rewrite <- !rev_app_distr, E; reflexivity).
  destruct (run_unique p (rev t) (rev t') (rev a) (rev a') E') as [H1 H2].
  - rewrite forallb_rev'. exact Ht.
  - rewrite forallb_rev'. exact Ht'.
  - exact Ha.
  - exact Ha'.
  - split.
    + rewrite <- (rev_involutive a), H2, rev_involutive. reflexivity.
    + rewrite <- (rev_involutive t), H1, rev_involutive. reflexivity.
Qed.

(** Decide every comparison of a character against a constant by
    arithmetic, given bounds on the character. *)
Ltac decide_class :=
  repeat match goal with
         | |- context [N.leb ?a ?b] =>
             first [ replace (N.leb a b) with true
                       by (symmetry; apply N.leb_le; lia)
                   | replace (N.leb a b) with false
                       by (symmetry; apply N.leb_gt; lia) ]
         | |- context [N.eqb ?a ?b] =>
             first [ replace (N.eqb a b) with false
                       by (symmetry; apply N.eqb_neq; lia)
                   | replace (N.eqb a b) with true
                       by (symmetry; apply N.eqb_eq; lia) ]
         end.

Lemma is_digit_bounds c : is_digit c = true <-> (48 <= c <= 57)%N.
Proof.
  unfold is_digit. rewrite andb_true_iff, !N.leb_le. reflexivity.
Qed.

Lemma is_upper_bounds c : is_upper c = true <-> (65 <= c <= 90)%N.
Proof.
  unfold is_upper. rewrite andb_true_iff, !N.leb_le. reflexivity.
Qed.

Lemma digit_not_space c : is_digit c = true -> is_space c = false.
Proof.
  intros H. apply is_digit_bounds in H. unfold is_space. decide_class. reflexivity.
Qed.

Lemma upper_not_space c : is_upper c = true -> is_space c = false.
Proof.
  intros H. apply is_upper_bounds in H. unfold is_space. decide_class. reflexivity.
Qed.

Lemma space_not_digit c : is_space c = true -> is_digit c = false.
Proof. intros H. destruct (is_digit c) eqn:E; [|reflexivity].
  apply digit_not_space in E. congruence. Qed.

Lemma line_terminator_space c : is_line_terminator c = true -> is_space c = true.
Proof.
  unfold is_line_terminator. rewrite !orb_true_iff, !N.eqb_eq.
  intros [[[-> | ->] | ->] | ->]; reflexivity.
Qed.

Lemma forallb_impl {A : Type} (p q : A -> bool) l :
  (forall a, p a = true -> q a = true) -> forallb p l = true -> forallb q l = true.
Proof.
  intros H. induction l as [| a t IH]; simpl; [auto|].
  intros E. apply andb_true_iff in E. destruct E as [E1 E2].
  rewrite (H _ E1), (IH E2). reflexivity.
Qed.

Lemma sem_group_plain input i a x y : plain a = true ->
  sem input (Group i a) x y <->
  exists w, rest x = w ++ rest y /\ lang a w /\ caps y = (i, w) :: caps x.
Proof.
  intros Hp. rewrite sem_group by (apply plain_supported; exact Hp). split.
  - intros (z & w & Hz & Hw & ->). apply (sem_lang input a Hp) in Hz.
    destruct Hz as (w' & Hw' & Hc & Hl).
    assert (w' = w) by (rewrite Hw in Hw'; apply app_inv_tail in Hw'; congruence).
    subst w'. exists w. simpl. rewrite Hc. auto.
  - intros (w & Hw & Hl & Hc). exists (mkState (rest y) (caps x)), w. simpl.
    split; [|split; [exact Hw|]].
    + apply (sem_lang input a Hp). exists w. simpl. auto.
    + destruct y; simpl in *; congruence.
Qed.

Lemma matches_nonempty_sem input r y :
  supported r = true -> matches input r y <> [] -> exists y', sem input r y y'.
Proof.
  intros Hs Hne. destruct (matches input r y) as [| z l] eqn:E; [congruence|].
  exists z. apply matches_sem; [exact Hs|]. rewrite E. left. reflexivity.
Qed.

Lemma stage_unique input a R x y0 z :
  supported a = true ->
  (forall y, sem input a x y -> matches input R y <> [] -> y = y0) ->
  sem input a x y0 ->
  hd_error (matches input R y0) = Some z ->
  hd_error (matches input (a >> R) x) = Some z.
Proof.
  intros Hs Hu H0 Hz. simpl. apply hd_flat_map_unique with (y0 := y0).
  - intros y Hy. apply Hu. apply matches_sem; assumption.
  - apply matches_sem; assumption.
  - exact Hz.
Qed.

Lemma stage_head input a R x y0 z :
  hd_error (matches input a x) = Some y0 ->
  hd_error (matches input R y0) = Some z ->
  hd_error (matches input (a >> R) x) = Some z.
Proof. intros. simpl. eapply hd_flat_map_head; eauto. Qed.

Lemma hd_plus_chr input p w s cs :
  w <> [] -> forallb p w = true ->
  match s with c :: _ => p c = false | [] => True end ->
  hd_error (matches input (plus (Chr p)) (mkState (w ++ s) cs)) = Some (mkState s cs).
Proof.
  intros Hne Hp Hs. destruct w as [| c w']; [congruence|].
  simpl in Hp. apply andb_true_iff in Hp. destruct Hp as [Hc Hp].
  unfold plus.
  change (matches input (Chr p >> Star true (Chr p)) (mkState ((c :: w') ++ s) cs))
    with (flat_map (matches input (Star true (Chr p)))
            (matches input (Chr p) (mkState (c :: w' ++ s) cs))).
  simpl matches at 2. rewrite Hc. cbn [flat_map]. rewrite app_nil_r.
  change (matches input (Star true (Chr p)) (mkState (w' ++ s) cs))
    with (star_loop (matches input (Chr p)) true (S (List.length (w' ++ s)))
            (mkState (w' ++ s) cs)).
  rewrite star_loop_chr by lia. apply hd_star_chr_greedy; assumption.
Qed.

(** *** Runs and their ends *)

Lemma starts_stops (q p : code_unit -> bool) s :
  (forall c, q c = true -> p c = false) -> begins_with q s = true -> stops p s.
Proof. destruct s as [| c t]; simpl; [auto|]. intros H E. apply H. exact E. Qed.

Lemma ends_with_app q a b : b <> [] -> ends_with q (a ++ b) = ends_with q b.
Proof.
  intros Hb. unfold ends_with. rewrite rev_app_distr.
  destruct (rev b) as [| c t] eqn:E; [|reflexivity].
  exfalso. apply Hb. rewrite <- (rev_involutive b), E. reflexivity.
Qed.

Lemma ends_with_forallb q b : b <> [] -> forallb q b = true -> ends_with q b = true.
Proof.
  intros Hb Hq. unfold ends_with. rewrite <- forallb_rev' in Hq.
  destruct (rev b) as [| c t] eqn:E.
  - exfalso. apply Hb. rewrite <- (rev_involutive b), E. reflexivity.
  - simpl in Hq. apply andb_true_iff in Hq. tauto.
Qed.

Lemma run_end_unique (p : code_unit -> bool) a a' t t' :
  a ++ t = a' ++ t' ->
  forallb p t = true -> forallb p t' = true ->
  ends_with (fun c => negb (p c)) a = true ->
  ends_with (fun c => negb (p c)) a' = true ->
  a = a' /\ t = t'.
Proof.
  intros E Ht Ht' Ha Ha'. apply (run_unique_end p); try assumption.
  - unfold ends_with in Ha. destruct (rev a); [exact I|].
    apply negb_true_iff. exact Ha.
  - unfold ends_with in Ha'. destruct (rev a'); [exact I|].
    apply negb_true_iff. exact Ha'.
Qed.

Lemma is_blank_spec w : is_blank w = true <-> w <> [] /\ forallb is_space w = true.
Proof.
  unfold is_blank. rewrite andb_true_iff. destruct w; simpl; intuition congruence.
Qed.

(** *** The languages of the pieces of the row pattern *)

Lemma lang_space_plus w : lang (plus space) w <-> is_blank w = true.
Proof. unfold space. rewrite lang_plus, is_blank_spec. reflexivity. Qed.

Lemma lang_name n :
  lang name_pat n <->
  exists u c, n = u ++ [c] /\
    forallb (fun c => negb (is_line_terminator c)) u = true /\ is_space c = false.
Proof.
  unfold name_pat. simpl. split.
  - intros (u & v & -> & Hu & c & -> & Hc). exists u, c.
    apply negb_true_iff in Hc. auto.
  - intros (u & c & -> & Hu & Hc). exists u, [c]. split; [reflexivity|].
    split; [exact Hu|]. exists c. rewrite Hc. auto.
Qed.

Lemma lang_gid g : lang gid_pat g <-> is_gid g = true.
Proof.
  unfold gid_pat. change (lang (lit "U" >> lit "S" >> plus upper_or_digit) g)
    with (exists u v, g = u ++ v /\ (exists c, u = [c] /\ N.eqb 85 c = true) /\
          exists u' v', v = u' ++ v' /\ (exists c, u' = [c] /\ N.eqb 83 c = true) /\
          lang (plus upper_or_digit) v').
  unfold upper_or_digit. split.
  - intros (u & v & -> & (c & -> & Hc) & u' & v' & -> & (c' & -> & Hc') & H).
    apply lang_plus in H. destruct H as [Hne Hp].
    apply N.eqb_eq in Hc, Hc'. subst. simpl.
    destruct v'; [congruence|]. simpl in *. exact Hp.
  - intros H. destruct g as [| a [| b g']]; try discriminate. simpl in H.
    apply andb_true_iff in H. destruct H as [H Hp].
    apply andb_true_iff in H. destruct H as [H Hne].
    apply andb_true_iff in H. destruct H as [Ha Hb].
    apply N.eqb_eq in Ha, Hb. subst.
    exists [85%N], (83%N :: g'). split; [reflexivity|]. split; [exists 85%N; auto|].
    exists [83%N], g'. split; [reflexivity|]. split; [exists 83%N; auto|].
    apply lang_plus. split; [destruct g'; [discriminate | discriminate] | exact Hp].
Qed.

Lemma digits_between_spec n m w :
  digits_between n m w = true <->
  forallb is_digit w = true /\ (n <= List.length w <= m)%nat.
Proof.
  unfold digits_between. rewrite !andb_true_iff, !Nat.leb_le. tauto.
Qed.

Lemma lang_digits n m w : (n <= m)%nat ->
  lang (range n m digit) w <-> digits_between n m w = true.
Proof.
  intros H. unfold digit. rewrite lang_range by exact H.
  rewrite digits_between_spec. reflexivity.
Qed.

Lemma lang_decimal h : lang decimal h <-> is_decimal h.
Proof.
  unfold decimal, is_decimal, opt.
  change (lang (plus digit >> Alt (lit "." >> range 1 2 digit) Eps) h)
    with (exists u v, h = u ++ v /\ lang (plus digit) u /\
          ((exists u' v', v = u' ++ v' /\ (exists c, u' = [c] /\ N.eqb 46 c = true) /\
             lang (range 1 2 digit) v') \/ v = [])).
  unfold digit at 1. split.
  - intros (u & v & -> & Hu & Hv). apply lang_plus in Hu. destruct Hu as [Hne Hd].
    exists u, v. repeat split; auto.
    destruct Hv as [(u' & v' & -> & (c & -> & Hc) & Hr) | ->]; [right | left; reflexivity].
    apply N.eqb_eq in Hc. subst c. exists v'. split; [reflexivity|].
    apply lang_digits in Hr; [exact Hr | lia].
  - intros (ds & fs & -> & Hne & Hd & Hf). exists ds, fs. split; [reflexivity|].
    split; [apply lang_plus; auto|].
    destruct Hf as [-> | (f & -> & Hf)]; [right; reflexivity | left].
    exists [46%N], f. split; [reflexivity|]. split; [exists 46%N; auto|].
    apply lang_digits; [lia | exact Hf].
Qed.

Lemma is_gid_tokens g :
  is_gid g = true ->
  g <> [] /\ forallb non_space_char g = true /\ begins_with (N.eqb 85) g = true.
Proof.
  intros H. destruct g as [| a [| b g']]; try discriminate. simpl in H.
  apply andb_true_iff in H. destruct H as [H Hp].
  apply andb_true_iff in H. destruct H as [H Hne].
  apply andb_true_iff in H. destruct H as [Ha Hb].
  apply N.eqb_eq in Ha, Hb. subst. split; [discriminate|]. split; [|reflexivity].
  simpl. eapply forallb_impl; [|exact Hp]. intros c Hc. unfold non_space_char.
  apply orb_true_iff in Hc. destruct Hc as [Hc | Hc];
    [rewrite (upper_not_space _ Hc) | rewrite (digit_not_space _ Hc)]; reflexivity.
Qed.

Lemma is_decimal_tokens h :
  is_decimal h ->
  h <> [] /\ forallb non_space_char h = true /\ begins_with is_digit h = true.
Proof.
  intros (ds & fs & -> & Hne & Hd & Hf).
  assert (Hds : forallb non_space_char ds = true).
  { eapply forallb_impl; [|exact Hd]. intros c Hc. unfold non_space_char.
    rewrite (digit_not_space _ Hc). reflexivity. }
  split; [destruct ds; [congruence | discriminate]|]. split.
  - rewrite forallb_app, Hds. destruct Hf as [-> | (f & -> & Hf)]; [reflexivity|].
    apply digits_between_spec in Hf. destruct Hf as [Hf _]. simpl.
    eapply forallb_impl; [|exact Hf]. intros c Hc. unfold non_space_char.
    rewrite (digit_not_space _ Hc). reflexivity.
  - destruct ds as [| d ds']; [congruence|]. simpl in *.
    apply andb_true_iff in Hd. tauto.
Qed.

(** *** Stages of the row pattern *)
Lemma starts_seq input a R q y :
  supported (a >> R) = true -> plain a = true ->
  (forall v, lang a v -> begins_with q v = true) ->
  matches input (a >> R) y <> [] -> begins_with q (rest y) = true.
Proof.
  intros Hs Hp Hq Hne. destruct (matches_nonempty_sem _ _ _ Hs Hne) as (y' & z & H1 & _).
  apply (sem_lang input a Hp) in H1. destruct H1 as (w & Hw & _ & Hl).
  specialize (Hq w Hl). rewrite Hw. destruct w; [discriminate | exact Hq].
Qed.

Lemma starts_group_seq input i a R q y :
  supported (Group i a >> R) = true -> plain a = true ->
  (forall v, lang a v -> begins_with q v = true) ->
  matches input (Group i a >> R) y <> [] -> begins_with q (rest y) = true.
Proof.
  intros Hs Hp Hq Hne. destruct (matches_nonempty_sem _ _ _ Hs Hne) as (y' & z & H1 & _).
  apply (sem_group_plain input i a _ _ Hp) in H1. destruct H1 as (w & Hw & Hl & _).
  specialize (Hq w Hl). rewrite Hw. destruct w; [discriminate | exact Hq].
Qed.

Lemma mstate_eq (y : mstate) s cs : rest y = s -> caps y = cs -> y = mkState s cs.
Proof. destruct y; simpl; intros; subst; reflexivity. Qed.

(** A piece whose text is a run of [p] that must stop where the rest of
    the pattern can start. *)
Lemma stage_plain_run input a R p w s cs z :
  plain a = true -> lang a w ->
  (forall v, lang a v -> forallb p v = true) ->
  stops p s ->
  (forall y, matches input R y <> [] -> stops p (rest y)) ->
  hd_error (matches input R (mkState s cs)) = Some z ->
  hd_error (matches input (a >> R) (mkState (w ++ s) cs)) = Some z.
Proof.
  intros Hp Hw Hrun Hs HR Hz.
  apply stage_unique with (y0 := mkState s cs); [apply plain_supported; exact Hp | | | exact Hz].
  - intros y Hy Hne. apply (sem_lang input a Hp) in Hy.
    destruct Hy as (v & Hv & Hc & Hl). simpl in Hv, Hc.
    assert (E : w = v /\ s = rest y)
      by (apply (run_unique p w v s (rest y) Hv); auto; apply HR; exact Hne).
    destruct E as [_ E]. apply mstate_eq; [symmetry; exact E | exact Hc].
  - apply (sem_lang input a Hp). exists w. simpl. auto.
Qed.

Lemma stage_group_run input i a R p w s cs z :
  plain a = true -> lang a w ->
  (forall v, lang a v -> forallb p v = true) ->
  stops p s ->
  (forall y, matches input R y <> [] -> stops p (rest y)) ->
  hd_error (matches input R (mkState s ((i, w) :: cs))) = Some z ->
  hd_error (matches input (Group i a >> R) (mkState (w ++ s) cs)) = Some z.
Proof.
  intros Hp Hw Hrun Hs HR Hz.
  apply stage_unique with (y0 := mkState s ((i, w) :: cs));
    [simpl; apply plain_supported; exact Hp | | | exact Hz].
  - intros y Hy Hne. apply (sem_group_plain input i a _ _ Hp) in Hy.
    destruct Hy as (v & Hv & Hl & Hc). simpl in Hv, Hc.
    assert (E : w = v /\ s = rest y)
      by (apply (run_unique p w v s (rest y) Hv); auto; apply HR; exact Hne).
    destruct E as [E1 E2]. apply mstate_eq; [symmetry; exact E2 | rewrite E1; exact Hc].
  - apply (sem_group_plain input i a _ _ Hp). exists w. simpl. auto.
Qed.

Lemma partnerRegex_eq : partnerRegex = Bol >> T1.
Proof. reflexivity. Qed.

Lemma sem_T2s input y y' :
  sem input T2s y y' ->
  exists w2 g w3 h,
    rest y = w2 ++ g ++ w3 ++ h /\
    is_blank w2 = true /\ is_gid g = true /\ is_blank w3 = true /\ is_decimal h /\
    rest y' = [] /\ caps y' = (4%nat, h) :: (3%nat, g) :: caps y.
Proof.
  intros (z1 & H1 & z2 & H2 & z3 & H3 & z4 & H4 & H5).
  apply (sem_lang input (plus space) eq_refl) in H1. destruct H1 as (w2 & E1 & C1 & L1).
  apply (sem_group_plain input 3 gid_pat _ _ eq_refl) in H2. destruct H2 as (g & E2 & L2 & C2).
  apply (sem_lang input (plus space) eq_refl) in H3. destruct H3 as (w3 & E3 & C3 & L3).
  apply (sem_group_plain input 4 decimal _ _ eq_refl) in H4. destruct H4 as (h & E4 & L4 & C4).
  simpl in H5. destruct H5 as [-> H5].
  exists w2, g, w3, h. rewrite E1, E2, E3, E4, H5, app_nil_r.
  apply lang_space_plus in L1, L3. apply lang_gid in L2. apply lang_decimal in L4.
  repeat split; auto. congruence.
Qed.

Lemma row_tail_unique a a' ws2 gid ws3 hrs w2 g w3 h :
  a ++ ws2 ++ gid ++ ws3 ++ hrs = a' ++ w2 ++ g ++ w3 ++ h ->
  ends_with non_space_char a = true -> ends_with non_space_char a' = true ->
  is_blank ws2 = true -> is_blank w2 = true ->
  is_gid gid = true -> is_gid g = true ->
  is_blank ws3 = true -> is_blank w3 = true ->
  is_decimal hrs -> is_decimal h ->
  a = a' /\ ws2 = w2 /\ gid = g /\ ws3 = w3 /\ hrs = h.
Proof.
  intros E Ha Ha' B2 B2' G G' B3 B3' D D'.
  apply is_blank_spec in B2, B2', B3, B3'.
  destruct B2 as [N2 S2], B2' as [N2' S2'], B3 as [N3 S3], B3' as [N3' S3'].
  destruct (is_gid_tokens _ G) as (Ng & Tg & _).
  destruct (is_gid_tokens _ G') as (Ng' & Tg' & _).
  destruct (is_decimal_tokens _ D) as (Nh & Th & _).
  destruct (is_decimal_tokens _ D') as (Nh' & Th' & _).
  assert (neg_space : forall w, forallb is_space w = true ->
            forallb (fun c => negb (non_space_char c)) w = true).
  { intros w. apply forallb_impl. intros c Hc. unfold non_space_char. rewrite Hc. reflexivity. }
  assert (neg_neg : forall w, ends_with non_space_char w = true ->
            ends_with (fun c => negb (is_space c)) w = true) by auto.
  (* hours *)
  destruct (run_end_unique non_space_char
              (a ++ ws2 ++ gid ++ ws3) (a' ++ w2 ++ g ++ w3) hrs h) as [E1 Eh]; auto.
  { rewrite <- !app_assoc. exact E. }
  { rewrite !app_assoc. rewrite ends_with_app by exact N3.
    apply ends_with_forallb; auto. }
  { rewrite !app_assoc. rewrite ends_with_app by exact N3'.
    apply ends_with_forallb; auto. }
  (* blank before the hours *)
  destruct (run_end_unique is_space
              (a ++ ws2 ++ gid) (a' ++ w2 ++ g) ws3 w3) as [E2 Ew3]; auto.
  { rewrite <- !app_assoc. exact E1. }
  { rewrite !app_assoc. rewrite ends_with_app by exact Ng.
    apply ends_with_forallb; auto. }
  { rewrite !app_assoc. rewrite ends_with_app by exact Ng'.
    apply ends_with_forallb; auto. }
  (* identifier *)
  destruct (run_end_unique non_space_char (a ++ ws2) (a' ++ w2) gid g) as [E3 Eg]; auto.
  { rewrite <- !app_assoc. exact E2. }
  { rewrite ends_with_app by exact N2. apply ends_with_forallb; auto. }
  { rewrite ends_with_app by exact N2'. apply ends_with_forallb; auto. }
  (* blank before the identifier *)
  destruct (run_end_unique is_space a a' ws2 w2) as [E4 Ew2]; auto.
Qed.

Lemma forallb_true (w : jsstring) : forallb (fun _ => true) w = true.
Proof. induction w; simpl; auto. Qed.

Lemma T4_head input hrs cs :
  is_decimal hrs ->
  hd_error (matches input T4 (mkState hrs cs))
  = Some (mkState [] ((4%nat, hrs) :: cs)).
Proof.
  intros D. rewrite <- (app_nil_r hrs) at 1. unfold T4.
  apply stage_group_run with (p := fun _ => true).
  - reflexivity.
  - apply lang_decimal. exact D.
  - intros v _. apply forallb_true.
  - exact I.
  - intros y Hne. simpl in Hne. destruct (rest y); [exact I | congruence].
  - reflexivity.
Qed.

Lemma T3s_head input ws3 hrs cs :
  is_blank ws3 = true -> is_decimal hrs ->
  hd_error (matches input T3s (mkState (ws3 ++ hrs) cs))
  = Some (mkState [] ((4%nat, hrs) :: cs)).
Proof.
  intros B D. unfold T3s. apply stage_plain_run with (p := is_space).
  - reflexivity.
  - apply lang_space_plus. exact B.
  - intros v Hv. apply lang_space_plus, is_blank_spec in Hv. tauto.
  - apply (starts_stops is_digit); [apply digit_not_space|].
    apply is_decimal_tokens. exact D.
  - intros y Hne. apply (starts_stops is_digit); [apply digit_not_space|].
    apply (starts_group_seq input 4 decimal Eol); auto.
    intros v Hv. apply is_decimal_tokens. apply lang_decimal. exact Hv.
  - apply T4_head. exact D.
Qed.

Lemma blank_starts w s : is_blank w = true -> begins_with is_space (w ++ s) = true.
Proof.
  intros B. apply is_blank_spec in B. destruct B as [N F].
  destruct w as [| c t]; [congruence|]. simpl in *. apply andb_true_iff in F. tauto.
Qed.

Lemma starts_with_app q w s : begins_with q w = true -> begins_with q (w ++ s) = true.
Proof. destruct w; simpl; [discriminate | auto]. Qed.

Lemma non_space_not c : non_space_char c = true -> is_space c = false.
Proof. unfold non_space_char. apply negb_true_iff. Qed.

Lemma space_not_non_space c : is_space c = true -> non_space_char c = false.
Proof. unfold non_space_char. intros ->. reflexivity. Qed.

Lemma T3_head input gid ws3 hrs cs :
  is_gid gid = true -> is_blank ws3 = true -> is_decimal hrs ->
  hd_error (matches input T3 (mkState (gid ++ ws3 ++ hrs) cs))
  = Some (mkState [] ((4%nat, hrs) :: (3%nat, gid) :: cs)).
Proof.
  intros G B D. unfold T3. apply stage_group_run with (p := non_space_char).
  - reflexivity.
  - apply lang_gid. exact G.
  - intros v Hv. apply lang_gid in Hv. apply is_gid_tokens. exact Hv.
  - apply (starts_stops is_space); [apply space_not_non_space|].
    apply blank_starts. exact B.
  - intros y Hne. apply (starts_stops is_space); [apply space_not_non_space|].
    apply (starts_seq input (plus space) T4); auto.
    intros v Hv. apply lang_space_plus in Hv.
    rewrite <- (app_nil_r v). apply blank_starts. exact Hv.
  - apply T3s_head; assumption.
Qed.

Lemma U_not_space c : N.eqb 85 c = true -> is_space c = false.
Proof. intros H. apply N.eqb_eq in H. subst. reflexivity. Qed.

Lemma T2s_head input ws2 gid ws3 hrs cs :
  is_blank ws2 = true -> is_gid gid = true -> is_blank ws3 = true ->
  is_decimal hrs ->
  hd_error (matches input T2s (mkState (ws2 ++ gid ++ ws3 ++ hrs) cs))
  = Some (mkState [] ((4%nat, hrs) :: (3%nat, gid) :: cs)).
Proof.
  intros B2 G B3 D. unfold T2s. apply stage_plain_run with (p := is_space).
  - reflexivity.
  - apply lang_space_plus. exact B2.
  - intros v Hv. apply lang_space_plus, is_blank_spec in Hv. tauto.
  - apply (starts_stops (N.eqb 85)); [apply U_not_space|].
    apply starts_with_app. apply is_gid_tokens. exact G.
  - intros y Hne. apply (starts_stops (N.eqb 85)); [apply U_not_space|].
    apply (starts_group_seq input 3 gid_pat T3s); auto.
    intros v Hv. apply lang_gid in Hv. apply is_gid_tokens. exact Hv.
  - apply T3_head; assumption.
Qed.

Lemma is_name_spec w :
  is_name w = true <->
  begins_with non_space_char w = true /\ ends_with non_space_char w = true /\
  forallb (fun c => negb (is_line_terminator c)) w = true.
Proof. unfold is_name. rewrite !andb_true_iff. tauto. Qed.

Lemma ends_with_last q u c : ends_with q (u ++ [c]) = q c.
Proof. unfold ends_with. rewrite rev_app_distr. reflexivity. Qed.

Lemma lang_name_of_is_name w : is_name w = true -> lang name_pat w.
Proof.
  intros H. apply is_name_spec in H. destruct H as (Hs & He & Hd).
  destruct w as [| c0 t] using rev_ind; [discriminate|]. clear IHt.
  rewrite ends_with_last in He. rewrite forallb_app in Hd.
  apply andb_true_iff in Hd. destruct Hd as [Hd _].
  apply lang_name. exists t, c0. split; [reflexivity|]. split; [exact Hd|].
  apply non_space_not. exact He.
Qed.

Lemma lang_name_ends n : lang name_pat n -> ends_with non_space_char n = true.
Proof.
  intros H. apply lang_name in H. destruct H as (u & c & -> & _ & Hc).
  rewrite ends_with_last. unfold non_space_char. rewrite Hc. reflexivity.
Qed.

Lemma T2_head input name ws2 gid ws3 hrs cs :
  is_name name = true ->
  is_blank ws2 = true -> is_gid gid = true -> is_blank ws3 = true ->
  is_decimal hrs ->
  hd_error (matches input T2 (mkState (name ++ ws2 ++ gid ++ ws3 ++ hrs) cs))
  = Some (mkState [] ((4%nat, hrs) :: (3%nat, gid) :: (2%nat, name) :: cs)).
Proof.
  intros Nm B2 G B3 D. unfold T2.
  apply stage_unique
    with (y0 := mkState (ws2 ++ gid ++ ws3 ++ hrs) ((2%nat, name) :: cs)).
  - reflexivity.
  - intros y Hy Hne.
    apply (sem_group_plain input 2 name_pat _ _ eq_refl) in Hy.
    destruct Hy as (n & En & Ln & Cn). simpl in En, Cn.
    destruct (matches_nonempty_sem input T2s y eq_refl Hne) as (y' & Hy').
    apply sem_T2s in Hy'.
    destruct Hy' as (w2 & g & w3 & h & Ey & B2' & G' & B3' & D' & _).
    rewrite Ey in En.
    destruct (row_tail_unique name n ws2 gid ws3 hrs w2 g w3 h En)
      as (E1 & E2 & E3 & E4 & E5); auto.
    { apply is_name_spec in Nm. tauto. }
    { apply lang_name_ends. exact Ln. }
    apply mstate_eq.
    + rewrite Ey, E2, E3, E4, E5. reflexivity.
    + rewrite Cn, E1. reflexivity.
  - apply (sem_group_plain input 2 name_pat _ _ eq_refl). exists name. simpl.
    split; [reflexivity|]. split; [apply lang_name_of_is_name; exact Nm | reflexivity].
  - apply T2s_head; assumption.
Qed.

Lemma T1s_head input ws1 name ws2 gid ws3 hrs cs :
  is_blank ws1 = true -> is_name name = true ->
  is_blank ws2 = true -> is_gid gid = true -> is_blank ws3 = true ->
  is_decimal hrs ->
  hd_error
    (matches input T1s (mkState (ws1 ++ name ++ ws2 ++ gid ++ ws3 ++ hrs) cs))
  = Some (mkState [] ((4%nat, hrs) :: (3%nat, gid) :: (2%nat, name) :: cs)).
Proof.
  intros B1 Nm B2 G B3 D. unfold T1s.
  apply stage_head with (y0 := mkState (name ++ ws2 ++ gid ++ ws3 ++ hrs) cs).
  - apply is_blank_spec in B1. destruct B1 as [N1 F1].
    apply hd_plus_chr; auto.
    apply (starts_stops non_space_char); [apply non_space_not|].
    apply starts_with_app. apply is_name_spec in Nm. tauto.
  - apply T2_head; assumption.
Qed.

Lemma T1_head input id ws1 name ws2 gid ws3 hrs cs :
  is_id id = true ->
  is_blank ws1 = true -> is_name name = true ->
  is_blank ws2 = true -> is_gid gid = true -> is_blank ws3 = true ->
  is_decimal hrs ->
  hd_error
    (matches input T1
       (mkState (id ++ ws1 ++ name ++ ws2 ++ gid ++ ws3 ++ hrs) cs))
  = Some (mkState []
            ((4%nat, hrs) :: (3%nat, gid) :: (2%nat, name) :: (1%nat, id) :: cs)).
Proof.
  intros I B1 Nm B2 G B3 D. unfold T1.
  apply stage_group_run with (p := is_digit).
  - reflexivity.
  - apply lang_digits; [lia | exact I].
  - intros v Hv. apply lang_digits in Hv; [|lia].
    apply digits_between_spec in Hv. tauto.
  - apply (starts_stops is_space); [apply space_not_digit|].
    apply blank_starts. exact B1.
  - intros y Hne. apply (starts_stops is_space); [apply space_not_digit|].
    apply (starts_seq input (plus space) T2); auto.
    intros v Hv. apply lang_space_plus in Hv.
    rewrite <- (app_nil_r v). apply blank_starts. exact Hv.
  - apply T1s_head; assumption.
Qed.

Lemma match_at_row id ws1 name ws2 gid ws3 hrs :
  row_fields id ws1 name ws2 gid ws3 hrs ->
  let line := row id ws1 name ws2 gid ws3 hrs in
  match_at line partnerRegex line
  = Some (mkState []
            [(0%nat, line); (4%nat, hrs); (3%nat, gid); (2%nat, name); (1%nat, id)]).
Proof.
  intros (I & B1 & Nm & B2 & G & B3 & D) line.
  unfold match_at.
  change (matches line (Group 0 partnerRegex) (mkState line []))
    with (List.map
            (fun y => mkState (rest y)
               ((0%nat, firstn (List.length line - List.length (rest y)) line) :: caps y))
            (flat_map (matches line T1) (matches line Bol (mkState line [])))).
  simpl matches at 2. rewrite Nat.eqb_refl. cbn [flat_map]. rewrite app_nil_r.
  pose proof (T1_head line id ws1 name ws2 gid ws3 hrs [] I B1 Nm B2 G B3 D) as H.
  fold (row id ws1 name ws2 gid ws3 hrs) in H. fold line in H.
  destruct (matches line T1 (mkState line [])) as [| y l]; [discriminate|].
  simpl in H. inversion H; subst y. simpl.
  rewrite Nat.sub_0_r, firstn_all. reflexivity.
Qed.

(** *** Anchored patterns are tried at the start only *)
Lemma match_at_bol_short input R suffix :
  List.length suffix <> List.length input ->
  match_at input (Bol >> R) suffix = None.
Proof.
  intros H. unfold match_at.
  change (matches input (Group 0 (Bol >> R)) (mkState suffix []))
    with (List.map
            (fun y => mkState (rest y)
               ((0%nat, firstn (List.length suffix - List.length (rest y)) suffix) :: caps y))
            (flat_map (matches input R) (matches input Bol (mkState suffix [])))).
  simpl matches. apply Nat.eqb_neq in H. rewrite H. reflexivity.
Qed.

Lemma exec_from_bol_short input R : forall suffix,
  (List.length suffix < List.length input)%nat ->
  exec_from input (Bol >> R) suffix = None.
Proof.
  induction suffix as [| c t IH]; intros H; simpl.
  - rewrite match_at_bol_short by lia. reflexivity.
  - rewrite match_at_bol_short by lia. apply IH. simpl in H. lia.
Qed.

Lemma exec_bol R input :
  exec (Bol >> R) input = option_map caps (match_at input (Bol >> R) input).
Proof.
  unfold exec. destruct input as [| c t]; simpl.
  - destruct (match_at [] (Bol >> R) []); reflexivity.
  - destruct (match_at (c :: t) (Bol >> R) (c :: t)); [reflexivity|].
    apply exec_from_bol_short. simpl. lia.
Qed.

Lemma exec_row id ws1 name ws2 gid ws3 hrs :
  row_fields id ws1 name ws2 gid ws3 hrs ->
  let line := row id ws1 name ws2 gid ws3 hrs in
  exec partnerRegex line
  = Some [(0%nat, line); (4%nat, hrs); (3%nat, gid); (2%nat, name); (1%nat, id)].
Proof.
  intros H line. rewrite partnerRegex_eq, exec_bol. rewrite <- partnerRegex_eq.
  unfold line. rewrite (match_at_row _ _ _ _ _ _ _ H). reflexivity.
Qed.

Lemma partner_of_row id ws1 name ws2 gid ws3 hrs :
  row_fields id ws1 name ws2 gid ws3 hrs ->
  partner_of_line partnerRegex (row id ws1 name ws2 gid ws3 hrs)
  = Some (partner_of_fields id name gid hrs).
Proof.
  intros H. unfold partner_of_line. rewrite (exec_row _ _ _ _ _ _ _ H). reflexivity.
Qed.

(** *** Every matching line is a row *)
Lemma drop_spaces_split n :
  exists sp, n = sp ++ drop_spaces n /\ forallb is_space sp = true /\
             stops is_space (drop_spaces n).
Proof.
  induction n as [| c t IH]; simpl.
  - exists []. auto.
  - destruct (is_space c) eqn:E.
    + destruct IH as (sp & H1 & H2 & H3). exists (c :: sp). simpl.
      rewrite E, H2, <- H1. auto.
    + exists []. simpl. auto.
Qed.

Lemma sem_row line y :
  sem line (Group 0 partnerRegex) (mkState line []) y ->
  exists id ws1 name ws2 gid ws3 hrs,
    row_fields id ws1 name ws2 gid ws3 hrs /\
    line = row id ws1 name ws2 gid ws3 hrs.
Proof.
  intros (z & Hz & _). rewrite partnerRegex_eq in Hz.
  destruct Hz as (z0 & [-> _] & z1 & H1 & z2 & H2 & z3 & H3 & H4).
  apply (sem_group_plain line 1 (range 4 6 digit) _ _ eq_refl) in H1.
  destruct H1 as (d & E1 & L1 & _). simpl in E1.
  apply (sem_lang line (plus space) eq_refl) in H2. destruct H2 as (w1 & E2 & _ & L2).
  apply (sem_group_plain line 2 name_pat _ _ eq_refl) in H3.
  destruct H3 as (n & E3 & L3 & _).
  apply sem_T2s in H4. destruct H4 as (w2 & g & w3 & h & E4 & B2 & G & B3 & D & _).
  apply lang_digits in L1; [|lia]. apply lang_space_plus in L2.
  pose proof (lang_name_ends _ L3) as Hend.
  apply lang_name in L3. destruct L3 as (u & c & -> & Hu & Hc).
  destruct (drop_spaces_split (u ++ [c])) as (sp & Esp & Hsp & Hstop).
  set (nm := drop_spaces (u ++ [c])) in *.
  assert (Hnm : nm <> []).
  { intros E. rewrite E, app_nil_r in Esp. rewrite <- Esp, forallb_app in Hsp.
    simpl in Hsp. rewrite Hc, andb_false_r in Hsp. discriminate. }
  assert (Hall : forallb (fun c => negb (is_line_terminator c)) (u ++ [c]) = true).
  { rewrite forallb_app, Hu. simpl. rewrite andb_true_r. apply negb_true_iff.
    destruct (is_line_terminator c) eqn:E; [|reflexivity].
    apply line_terminator_space in E. congruence. }
  exists d, (w1 ++ sp), nm, w2, g, w3, h. split.
  - unfold row_fields. repeat split; auto.
    + apply is_blank_spec. apply is_blank_spec in L2. destruct L2 as [N F]. split.
      * destruct w1; [congruence | discriminate].
      * rewrite forallb_app, F, Hsp. reflexivity.
    + apply is_name_spec. split; [|split].
      * destruct nm as [| c0 t]; [congruence|]. simpl in *. unfold non_space_char.
        rewrite Hstop. reflexivity.
      * rewrite Esp in Hend. rewrite ends_with_app in Hend by exact Hnm. exact Hend.
      * rewrite Esp, forallb_app in Hall. apply andb_true_iff in Hall. tauto.
  - unfold row. rewrite E1, E2, E3, E4, Esp, <- !app_assoc. reflexivity.
Qed.

Lemma partner_of_line_row line p :
  partner_of_line partnerRegex line = Some p ->
  exists id ws1 name ws2 gid ws3 hrs,
    row_fields id ws1 name ws2 gid ws3 hrs /\
    line = row id ws1 name ws2 gid ws3 hrs /\
    p = partner_of_fields id name gid hrs.
Proof.
  intros H.
  assert (Hex : exists y, sem line (Group 0 partnerRegex) (mkState line []) y).
  { unfold partner_of_line in H. rewrite partnerRegex_eq, exec_bol in H.
    rewrite <- partnerRegex_eq in H. unfold match_at in H.
    apply matches_nonempty_sem; [reflexivity|].
    destruct (matches line (Group 0 partnerRegex) (mkState line [])); [discriminate|].
    discriminate. }
  destruct Hex as (y & Hy).
  destruct (sem_row line y Hy) as (id & ws1 & name & ws2 & gid & ws3 & hrs & F & E).
  exists id, ws1, name, ws2, gid, ws3, hrs. split; [exact F|]. split; [exact E|].
  rewrite E, (partner_of_row _ _ _ _ _ _ _ F) in H. congruence.
Qed.

(** *** Splitting into lines *)

Lemma match_at_line_break input s :
  option_map rest (match_at input line_break s) = break_at s.
Proof.
  unfold match_at, line_break, opt, lit.
  destruct s as [| c t]; [reflexivity|].
  cbn -[N.eqb firstn Nat.sub].
  rewrite (N.eqb_sym 13 c).
  destruct (N.eqb_spec c 13) as [-> | H13].
  - cbn -[N.eqb firstn Nat.sub]. destruct t as [| d t']; [reflexivity|].
    cbn -[N.eqb firstn Nat.sub].
    rewrite (N.eqb_sym 10 d). destruct (N.eqb d 10); reflexivity.
  - cbn -[N.eqb firstn Nat.sub]. rewrite (N.eqb_sym 10 c).
    destruct (N.eqb c 10); reflexivity.
Qed.

Lemma break_at_shorter s t : break_at s = Some t -> (List.length t < List.length s)%nat.
Proof.
  destruct s as [| c s']; simpl; [discriminate|].
  destruct (N.eqb c 10); [intros H; inversion H; subst; lia|].
  destruct (N.eqb c 13); [|discriminate].
  destruct s' as [| d s'']; [discriminate|].
  destruct (N.eqb d 10); [|discriminate]. intros H; inversion H; subst. simpl. lia.
Qed.

Lemma split_loop_step input n piece c t :
  split_loop (S n) input line_break piece (c :: t)
  = match break_at (c :: t) with
    | Some t' => rev piece :: split_loop n input line_break [] t'
    | None => split_loop n input line_break (c :: piece) t
    end.
Proof.
  cbn [split_loop]. pose proof (match_at_line_break input (c :: t)) as H.
  destruct (match_at input line_break (c :: t)) as [y |]; cbn [option_map] in H; rewrite <- H.
  - pose proof (break_at_shorter (c :: t) (rest y) (eq_sym H)) as L.
    replace (List.length (rest y) =? List.length (c :: t))%nat with false
      by (symmetry; apply Nat.eqb_neq; lia).
    reflexivity.
  - reflexivity.
Qed.

Lemma split_loop_fuel input : forall f1 f2 piece s,
  (List.length s < f1)%nat -> (List.length s < f2)%nat ->
  split_loop f1 input line_break piece s = split_loop f2 input line_break piece s.
Proof.
  induction f1 as [| n1 IH]; intros f2 piece s H1 H2; [lia|].
  destruct f2 as [| n2]; [lia|].
  destruct s as [| c t]; [reflexivity|].
  rewrite !split_loop_step. destruct (break_at (c :: t)) as [t' |] eqn:E.
  - apply break_at_shorter in E. f_equal. apply IH; simpl in *; lia.
  - apply IH; simpl in *; lia.
Qed.

Lemma drop_spaces_app s t :
  drop_spaces (s ++ t)
  = if forallb is_space s then drop_spaces t else drop_spaces s ++ t.
Proof.
  induction s as [| c s' IH]; simpl; [reflexivity|].
  destruct (is_space c); simpl; [exact IH | reflexivity].
Qed.

Lemma drop_spaces_all s : forallb is_space s = true -> drop_spaces s = [].
Proof.
  induction s as [| c s' IH]; simpl; [reflexivity|].
  destruct (is_space c); simpl; [exact IH | discriminate].
Qed.

Lemma trim_app_CR s : trim (s ++ [CR]) = trim s.
Proof.
  unfold trim. rewrite drop_spaces_app.
  destruct (forallb is_space s) eqn:E.
  - rewrite (drop_spaces_all s E). reflexivity.
  - rewrite rev_app_distr. reflexivity.
Qed.

Lemma split_loop_nil input n piece :
  split_loop (S n) input line_break piece [] = [rev piece].
Proof. reflexivity. Qed.

(** The lines before a line break and the lines after it. *)
Lemma split_loop_app input cr : forall fuel a piece b,
  (List.length a + List.length b + 2 < fuel)%nat ->
  exists l last last' fuel',
    split_loop fuel input line_break piece a = l ++ [last] /\
    trim last' = trim last /\
    (List.length b < fuel')%nat /\
    split_loop fuel input line_break piece (a ++ eol cr ++ b)
    = l ++ last' :: split_loop fuel' input line_break [] b.
Proof.
  induction fuel as [| n IH]; intros a piece b Hf; [lia|].
  destruct a as [| c t].
  - (* the break follows at once *)
    exists [], (rev piece), (rev piece). simpl app.
    destruct cr; unfold eol; simpl app.
    + exists n. split; [reflexivity|]. split; [reflexivity|].
      split; [simpl in Hf; lia|].
      rewrite split_loop_step. reflexivity.
    + exists n. split; [reflexivity|]. split; [reflexivity|].
      split; [simpl in Hf; lia|].
      rewrite split_loop_step. reflexivity.
  - destruct (break_at (c :: t)) as [t' |] eqn:E.
    + (* a break at the head of [a] *)
      assert (E' : break_at ((c :: t) ++ eol cr ++ b) = Some (t' ++ eol cr ++ b)).
      { simpl in E |- *. destruct (N.eqb c 10); [inversion E; reflexivity|].
        destruct (N.eqb c 13); [|discriminate].
        destruct t as [| d t'']; [discriminate|]. simpl.
        destruct (N.eqb d 10); [inversion E; reflexivity | discriminate]. }
      pose proof (break_at_shorter _ _ E) as L.
      destruct (IH t' [] b) as (l & last & last' & fuel' & H1 & H2 & H3 & H4);
        [simpl in *; lia|].
      exists (rev piece :: l), last, last', fuel'.
      change ((c :: t) ++ eol cr ++ b) with (c :: (t ++ eol cr ++ b)) in E' |- *.
      rewrite !split_loop_step. rewrite E, E', H1, H4. auto.
    + destruct (break_at ((c :: t) ++ eol cr ++ b)) as [t' |] eqn:E'.
      * (* a carriage return at the end of [a] joins the line feed *)
        assert (Hc : c = CR /\ t = [] /\ cr = false /\ t' = b).
        { simpl in E, E'. destruct (N.eqb c 10); [discriminate|].
          destruct (N.eqb_spec c 13) as [-> | ?]; [|discriminate].
          destruct t as [| d t'']; simpl in E'.
          - destruct cr; simpl in E'; [discriminate|]. inversion E'. auto.
          - destruct (N.eqb d 10); discriminate. }
        destruct Hc as (-> & -> & -> & ->).
        exists [], (rev piece ++ [CR]), (rev piece), n.
        split; [|split; [apply eq_sym, trim_app_CR | split; [simpl in Hf; lia|]]].
        -- rewrite split_loop_step, E. destruct n; [simpl in Hf; lia|]. reflexivity.
        -- change ([CR] ++ eol false ++ b) with (CR :: LF :: b).
           rewrite split_loop_step. reflexivity.
      * destruct (IH t (c :: piece) b) as (l & last & last' & fuel' & H1 & H2 & H3 & H4);
          [simpl in *; lia|].
        exists l, last, last', fuel'.
        rewrite split_loop_step, E.
        change ((c :: t) ++ eol cr ++ b) with (c :: t ++ eol cr ++ b) in E' |- *.
        rewrite split_loop_step, E'. auto.
Qed.

Lemma split_line_break content :
  split line_break content
  = split_loop (S (2 * List.length content)) content line_break [] content.
Proof.
  unfold split. destruct content as [| c t]; reflexivity.
Qed.

Lemma split_loop_input i1 i2 : forall fuel piece s,
  split_loop fuel i1 line_break piece s = split_loop fuel i2 line_break piece s.
Proof.
  induction fuel as [| n IH]; intros piece s; [reflexivity|].
  destruct s as [| c t]; [reflexivity|]. rewrite !split_loop_step.
  destruct (break_at (c :: t)); rewrite IH; reflexivity.
Qed.

Theorem lines_of_app a cr b :
  lines_of (a ++ eol cr ++ b) = lines_of a ++ lines_of b.
Proof.
  unfold lines_of. rewrite !split_line_break.
  set (text := a ++ eol cr ++ b).
  destruct (split_loop_app text cr (S (2 * List.length text)) a [] b)
    as (l & last & last' & fuel' & H1 & H2 & H3 & H4).
  { unfold text. rewrite !length_app. destruct cr; simpl; lia. }
  fold text in H4. rewrite H4.
  assert (La : (List.length a < S (2 * List.length text))%nat)
    by (unfold text; rewrite !length_app; lia).
  rewrite (split_loop_input a text).
  rewrite (split_loop_fuel text (S (2 * List.length a)) (S (2 * List.length text)) [] a)
    by lia.
  rewrite H1.
  rewrite (split_loop_input b text).
  rewrite (split_loop_fuel text (S (2 * List.length b)) fuel' [] b) by lia.
  rewrite !map_app, !filter_app. simpl List.map. simpl filter.
  rewrite H2. destruct (truthy (trim last)); simpl; rewrite <- ?app_assoc; reflexivity.
Qed.

Lemma split_loop_one_line input : forall fuel piece s,
  (List.length s < fuel)%nat -> forallb not_LF s = true ->
  split_loop fuel input line_break piece s = [rev piece ++ s].
Proof.
  induction fuel as [| n IH]; intros piece s Hf Hs; [lia|].
  destruct s as [| c t].
  - simpl. rewrite app_nil_r. reflexivity.
  - rewrite split_loop_step.
    simpl in Hs. apply andb_true_iff in Hs. destruct Hs as [Hc Ht].
    assert (E : break_at (c :: t) = None).
    { unfold not_LF, LF in Hc. apply negb_true_iff in Hc. simpl. rewrite Hc.
      destruct (N.eqb c 13); [|reflexivity].
      destruct t as [| d t']; [reflexivity|]. simpl in Ht.
      apply andb_true_iff in Ht. destruct Ht as [Hd _].
      unfold not_LF, LF in Hd. apply negb_true_iff in Hd. rewrite Hd. reflexivity. }
    rewrite E, IH by (simpl in Hf; auto; lia). simpl. rewrite <- app_assoc. reflexivity.
Qed.

Lemma lines_of_one_line s :
  forallb not_LF s = true ->
  lines_of s = if truthy (trim s) then [trim s] else [].
Proof.
  intros H. unfold lines_of. rewrite split_line_break.
  rewrite split_loop_one_line by (auto; lia). simpl. reflexivity.
Qed.

Lemma drop_spaces_start s :
  begins_with non_space_char s = true -> drop_spaces s = s.
Proof.
  destruct s as [| c t]; simpl; [discriminate|]. unfold non_space_char.
  intros H. apply negb_true_iff in H. rewrite H. reflexivity.
Qed.

Lemma trim_tight s :
  begins_with non_space_char s = true -> ends_with non_space_char s = true ->
  trim s = s.
Proof.
  intros H1 H2. unfold trim. rewrite (drop_spaces_start s H1).
  rewrite drop_spaces_start; [apply rev_involutive|].
  unfold ends_with in H2. destruct (rev s); [discriminate | exact H2].
Qed.

Lemma row_tight id ws1 name ws2 gid ws3 hrs :
  row_fields id ws1 name ws2 gid ws3 hrs ->
  let line := row id ws1 name ws2 gid ws3 hrs in
  line <> [] /\ trim line = line.
Proof.
  intros (I & B1 & Nm & B2 & G & B3 & D) line.
  apply digits_between_spec in I. destruct I as [Id Il].
  destruct (is_decimal_tokens _ D) as (Nh & Th & _).
  assert (S1 : begins_with non_space_char line = true).
  { unfold line, row. destruct id as [| c t]; [simpl in Il; lia|]. simpl.
    simpl in Id. apply andb_true_iff in Id. destruct Id as [Hc _].
    unfold non_space_char. rewrite (digit_not_space _ Hc). reflexivity. }
  split.
  - destruct line; [discriminate | discriminate].
  - apply trim_tight; [exact S1|]. unfold line, row.
    rewrite !app_assoc. rewrite ends_with_app by exact Nh.
    apply ends_with_forallb; assumption.
Qed.

(** *** The loop over the lines *)

Lemma push_partners_flat re lines : forall acc,
  push_partners re lines acc
  = acc ++ flat_map (fun l => option_list (partner_of_line re l)) lines.
Proof.
  induction lines as [| l t IH]; intros acc; simpl.
  - rewrite app_nil_r. reflexivity.
  - destruct (partner_of_line re l); simpl; rewrite IH, <- ?app_assoc; reflexivity.
Qed.

Lemma partners_of_app a cr b :
  partners_of (a ++ eol cr ++ b) = partners_of a ++ partners_of b.
Proof.
  unfold partners_of. rewrite lines_of_app, !push_partners_flat. simpl.
  apply flat_map_app.
Qed.

Lemma partners_of_line s :
  forallb not_LF s = true ->
  partners_of s = option_list (partner_of_line partnerRegex (trim s)).
Proof.
  intros H. unfold partners_of. rewrite lines_of_one_line by exact H.
  rewrite push_partners_flat. simpl.
  destruct (trim s) as [| c t] eqn:E; simpl.
  - reflexivity.
  - rewrite app_nil_r. reflexivity.
Qed.

(** *** The leftmost match *)
Lemma exec_from_sound input r : forall suffix m,
  exec_from input r suffix = Some m ->
  exists pre suffix' y,
    suffix = pre ++ suffix' /\
    In y (matches input (Group 0 r) (mkState suffix' [])) /\ m = caps y.
Proof.
  induction suffix as [| c t IH]; intros m H; simpl in H.
  - destruct (match_at input r []) as [y |] eqn:E; [|discriminate].
    inversion H; subst. exists [], [], y. split; [reflexivity|]. split; [|reflexivity].
    unfold match_at in E. destruct (matches input (Group 0 r) (mkState [] [])); [discriminate|].
    inversion E; subst. left. reflexivity.
  - destruct (match_at input r (c :: t)) as [y |] eqn:E.
    + inversion H; subst. exists [], (c :: t), y. split; [reflexivity|].
      split; [|reflexivity]. unfold match_at in E.
      destruct (matches input (Group 0 r) (mkState (c :: t) [])); [discriminate|].
      inversion E; subst. left. reflexivity.
    + destruct (IH m H) as (pre & suffix' & y & E1 & E2 & E3).
      exists (c :: pre), suffix', y. rewrite E1. auto.
Qed.

Lemma exec_from_complete input r : forall pre suffix,
  matches input (Group 0 r) (mkState suffix []) <> [] ->
  exec_from input r (pre ++ suffix) <> None.
Proof.
  induction pre as [| c t IH]; intros suffix H.
  - simpl. destruct suffix as [| c t]; simpl; unfold match_at;
      destruct (matches input (Group 0 r) _); try congruence; discriminate.
  - simpl. destruct (match_at input r (c :: t ++ suffix)); [discriminate|].
    apply IH. exact H.
Qed.

(** *** Dates *)

Lemma lang_date w : lang date w <-> is_date w.
Proof.
  unfold date, is_date.
  change (lang (range 1 2 digit >> lit "/" >> range 1 2 digit >> lit "/" >> range 2 4 digit) w)
    with (exists u1 v1, w = u1 ++ v1 /\ lang (range 1 2 digit) u1 /\
          exists u2 v2, v1 = u2 ++ v2 /\ (exists c, u2 = [c] /\ N.eqb 47 c = true) /\
          exists u3 v3, v2 = u3 ++ v3 /\ lang (range 1 2 digit) u3 /\
          exists u4 v4, v3 = u4 ++ v4 /\ (exists c, u4 = [c] /\ N.eqb 47 c = true) /\
          lang (range 2 4 digit) v4).
  split.
  - intros (u1 & v1 & -> & L1 & u2 & v2 & -> & (c2 & -> & H2) & u3 & v3 & -> & L3
            & u4 & v4 & -> & (c4 & -> & H4) & L5).
    apply N.eqb_eq in H2, H4. subst.
    apply lang_digits in L1, L3, L5; try lia.
    exists u1, u3, v4. auto.
  - intros (a & b & c & -> & Ha & Hb & Hc).
    exists a, ([47%N] ++ b ++ [47%N] ++ c). split; [reflexivity|].
    split; [apply lang_digits; [lia | exact Ha]|].
    exists [47%N], (b ++ [47%N] ++ c). split; [reflexivity|].
    split; [exists 47%N; auto|].
    exists b, ([47%N] ++ c). split; [reflexivity|].
    split; [apply lang_digits; [lia | exact Hb]|].
    exists [47%N], c. split; [reflexivity|]. split; [exists 47%N; auto|].
    apply lang_digits; [lia | exact Hc].
Qed.

Lemma sem_dateRegex input suffix y :
  sem input (Group 0 dateRegex) (mkState suffix []) y <->
  exists d1 w1 c w2 d2,
    suffix = d1 ++ w1 ++ [c] ++ w2 ++ d2 ++ rest y /\
    is_date d1 /\ forallb is_space w1 = true /\ is_dash c = true /\
    forallb is_space w2 = true /\ is_date d2 /\
    caps y = [(0%nat, d1 ++ w1 ++ [c] ++ w2 ++ d2); (2%nat, d2); (1%nat, d1)].
Proof.
  rewrite sem_group by reflexivity. unfold dateRegex. split.
  - intros (z & w & (z1 & H1 & z2 & H2 & z3 & H3 & z4 & H4 & H5) & Ew & ->).
    apply (sem_group_plain input 1 date _ _ eq_refl) in H1.
    destruct H1 as (d1 & E1 & L1 & C1). simpl in E1, C1.
    simpl in H2. destruct H2 as (w1 & E2 & F2 & C2).
    simpl in H3. destruct H3 as (c & E3 & F3 & C3).
    simpl in H4. destruct H4 as (w2 & E4 & F4 & C4).
    apply (sem_group_plain input 2 date _ _ eq_refl) in H5.
    destruct H5 as (d2 & E5 & L5 & C5).
    apply lang_date in L1, L5.
    assert (Es : suffix = (d1 ++ w1 ++ [c] ++ w2 ++ d2) ++ rest z).
    { rewrite E1, E2, E3, E4, E5, <- !app_assoc. reflexivity. }
    simpl in Ew. rewrite Es in Ew. apply app_inv_tail in Ew. subst w.
    exists d1, w1, c, w2, d2. simpl rest. simpl caps.
    rewrite <- !app_assoc in Es. split; [exact Es|].
    unfold is_dash. repeat split; auto.
    rewrite C5, C4, C3, C2, C1. reflexivity.
  - intros (d1 & w1 & c & w2 & d2 & Es & D1 & F1 & Dc & F2 & D2 & Ec).
    exists (mkState (rest y) [(2%nat, d2); (1%nat, d1)]), (d1 ++ w1 ++ [c] ++ w2 ++ d2).
    split; [|split].
    + exists (mkState (w1 ++ [c] ++ w2 ++ d2 ++ rest y) [(1%nat, d1)]). split.
      { apply (sem_group_plain input 1 date _ _ eq_refl). exists d1. simpl.
        split; [exact Es|]. split; [apply lang_date; exact D1 | reflexivity]. }
      exists (mkState ([c] ++ w2 ++ d2 ++ rest y) [(1%nat, d1)]). split.
      { simpl. exists w1. auto. }
      exists (mkState (w2 ++ d2 ++ rest y) [(1%nat, d1)]). split.
      { simpl. exists c. split; [reflexivity|]. split; [|reflexivity].
        exact Dc. }
      exists (mkState (d2 ++ rest y) [(1%nat, d1)]). split.
      { simpl. exists w2. auto. }
      apply (sem_group_plain input 2 date _ _ eq_refl). exists d2. simpl.
      split; [reflexivity|]. split; [apply lang_date; exact D2 | reflexivity].
    + cbn [rest]. rewrite Es at 1. rewrite <- !app_assoc. reflexivity.
    + destruct y as [ry cy]. simpl in *. rewrite Ec. reflexivity.
Qed.

Lemma exec_dateRegex content d1 d2 :
  date_pair_in content d1 d2 ->
  exists e1 e2,
    date_pair_in content e1 e2 /\
    option_map period_of (exec dateRegex content) = Some (e1 ++ [en_dash] ++ e2).
Proof.
  intros (pre & w1 & c & w2 & post & Ec & D1 & F1 & Dc & F2 & D2).
  destruct (exec dateRegex content) as [m |] eqn:E.
  - unfold exec in E. apply exec_from_sound in E.
    destruct E as (pre' & suffix & y & E1 & E2 & ->).
    apply matches_sem in E2; [|reflexivity]. apply sem_dateRegex in E2.
    destruct E2 as (e1 & v1 & c' & v2 & e2 & Es & De1 & G1 & Dc' & G2 & De2 & Ecaps).
    exists e1, e2. split.
    + exists pre', v1, c', v2, (rest y). rewrite E1, Es. auto 10.
    + simpl. unfold period_of. rewrite Ecaps. reflexivity.
  - exfalso. unfold exec in E. rewrite Ec in E.
    apply (exec_from_complete _ dateRegex pre) in E; [exact E|].
    intros Hnil.
    assert (H : In (mkState post [(0%nat, d1 ++ w1 ++ [c] ++ w2 ++ d2); (2%nat, d2); (1%nat, d1)])
                  (matches (pre ++ d1 ++ w1 ++ [c] ++ w2 ++ d2 ++ post) (Group 0 dateRegex)
                     (mkState (d1 ++ w1 ++ [c] ++ w2 ++ d2 ++ post) []))).
    { apply matches_sem; [reflexivity|]. apply sem_dateRegex.
      exists d1, w1, c, w2, d2. simpl. auto 10. }
    rewrite Hnil in H. exact H.
Qed.

(** C8, amended.  If the text contains two dates of the form
    [D/D/YY] (1 to 2, 1 to 2 and 2 to 4 digits) separated by a hyphen or an
    en dash, with optional blank space around it, then the period is
    present and consists of a pair of such dates from the text, exactly as
    written there, joined by a single en dash. *)
Theorem C8_time_period_joins_dates_as_written content d1 d2 :
  date_pair_in content d1 d2 ->
  exists e1 e2,
    date_pair_in content e1 e2 /\
    timePeriod (Netlify.parseContent content) = Some (e1 ++ [en_dash] ++ e2) /\
    Web.time_period (Web.parseManualText content)
    = Some (e1 ++ [en_dash] ++ e2).
Proof.
  intros H. destruct (exec_dateRegex content d1 d2 H) as (e1 & e2 & Hp & He).
  exists e1, e2. split; [exact Hp|].
  unfold Netlify.parseContent, Web.parseManualText. simpl.
  destruct (exec dateRegex content); simpl in He; [|discriminate].
  split; exact He.
Qed.

Lemma partners_of_nil : partners_of [] = [].
Proof. reflexivity. Qed.

Lemma partners_of_around before line after :
  ends_line before -> starts_line after ->
  forallb not_LF line = true ->
  partners_of (before ++ line ++ after)
  = partners_of before
      ++ option_list (partner_of_line partnerRegex (trim line))
      ++ partners_of after.
Proof.
  intros Hb Ha Hl.
  assert (Hafter : partners_of (line ++ after)
                   = option_list (partner_of_line partnerRegex (trim line))
                       ++ partners_of after).
  { destruct Ha as [-> | (cr & post & ->)].
    - rewrite app_nil_r, partners_of_nil, app_nil_r. apply partners_of_line. exact Hl.
    - rewrite partners_of_app, (partners_of_line line Hl).
      change (eol cr ++ post) with ([] ++ eol cr ++ post).
      rewrite (partners_of_app [] cr post), partners_of_nil. reflexivity. }
  destruct Hb as [-> | (pre & cr & ->)].
  - rewrite partners_of_nil. simpl. exact Hafter.
  - assert (Hpre : partners_of (pre ++ eol cr) = partners_of pre).
    { rewrite <- (app_nil_r (eol cr)), partners_of_app, partners_of_nil.
      apply app_nil_r. }
    rewrite Hpre, <- app_assoc, partners_of_app, Hafter. reflexivity.
Qed.

(** C7, amended.  Let [line] contain no line feed and stand between line
    boundaries of the text (its start or end, or a line break [\n] or
    [\r\n]).  If the trimmed line is a row, that is a number of 4 to 6
    digits, blank space, a name (starting and ending with a non-space
    character and free of line terminators), blank space, [US] followed by
    one or more upper-case letters or digits, blank space and a decimal with
    no or 1 to 2 fractional digits, then the line contributes exactly one
    partner, carrying those four fields, between the partners of the text
    before and after it.  If the trimmed line is not such a row it
    contributes no partner.  Both [parseContent] and [parseManualText]
    behave so. *)
Theorem C7_rows_and_only_rows_yield_partners (before line after : jsstring) :
  ends_line before -> starts_line after ->
  forallb not_LF line = true ->
  let text := before ++ line ++ after in
  (forall id ws1 name ws2 gid ws3 hrs,
     row_fields id ws1 name ws2 gid ws3 hrs ->
     trim line = row id ws1 name ws2 gid ws3 hrs ->
     partners (Netlify.parseContent text)
     = partners (Netlify.parseContent before)
         ++ [partner_of_fields id name gid hrs]
         ++ partners (Netlify.parseContent after) /\
     Web.partners (Web.parseManualText text)
     = Web.partners (Web.parseManualText before)
         ++ [partner_of_fields id name gid hrs]
         ++ Web.partners (Web.parseManualText after)) /\
  ((forall id ws1 name ws2 gid ws3 hrs,
      row_fields id ws1 name ws2 gid ws3 hrs ->
      trim line <> row id ws1 name ws2 gid ws3 hrs) ->
   partners (Netlify.parseContent text)
   = partners (Netlify.parseContent before)
       ++ partners (Netlify.parseContent after) /\
   Web.partners (Web.parseManualText text)
   = Web.partners (Web.parseManualText before)
       ++ Web.partners (Web.parseManualText after)).
Proof.
  intros Hb Ha Hline text.
  pose proof (partners_of_around before line after Hb Ha Hline) as E.
  fold text in E.
  change (partners (Netlify.parseContent text)) with (partners_of text).
  change (partners (Netlify.parseContent before)) with (partners_of before).
  change (partners (Netlify.parseContent after)) with (partners_of after).
  change (Web.partners (Web.parseManualText text)) with (partners_of text).
  change (Web.partners (Web.parseManualText before)) with (partners_of before).
  change (Web.partners (Web.parseManualText after)) with (partners_of after).
  split.
  - intros id ws1 name ws2 gid ws3 hrs F Et.
    rewrite E, Et, (partner_of_row _ _ _ _ _ _ _ F). split; reflexivity.
  - intros Hno. rewrite E.
    destruct (partner_of_line partnerRegex (trim line)) as [p |] eqn:Ep.
    + exfalso. apply partner_of_line_row in Ep.
      destruct Ep as (id & ws1 & name & ws2 & gid & ws3 & hrs & F & Et & _).
      exact (Hno _ _ _ _ _ _ _ F Et).
    + split; reflexivity.
Qed.

Lemma sample_row_fields :
  row_fields (js "12345") (js "  ") (js "Smith, Alex J") (js "  ")
    (js "US98765432") (js "  ") (js "31.45").
Proof.
  unfold row_fields. repeat split; try reflexivity.
  exists (js "31"), (js ".45"). split; [reflexivity|]. split; [discriminate|].
  split; [reflexivity|]. right. exists (js "45"). split; reflexivity.
Defined.

(** C7, amended, at a row between a store line ended by [\r\n] and a total
    line after [\n]. *)
Lemma C7_witness :
  partners
    (Netlify.parseContent
       ((js "Store #66900" ++ eol true) ++ sample_row
          ++ (eol false ++ js "Total Tippable Hours: 31.45")))
  = partners (Netlify.parseContent (js "Store #66900" ++ eol true))
      ++ [partner_of_fields (js "12345") (js "Smith, Alex J") (js "US98765432")
            (js "31.45")]
      ++ partners (Netlify.parseContent (eol false ++ js "Total Tippable Hours: 31.45")).
Proof.
  refine (proj1 (proj1
    (C7_rows_and_only_rows_yield_partners
       (js "Store #66900" ++ eol true) sample_row
       (eol false ++ js "Total Tippable Hours: 31.45") _ _ _)
    (js "12345") (js "  ") (js "Smith, Alex J") (js "  ") (js "US98765432")
    (js "  ") (js "31.45") sample_row_fields _)).
  - right. exists (js "Store #66900"), true. reflexivity.
  - right. exists false, (js "Total Tippable Hours: 31.45"). reflexivity.
  - reflexivity.
  - reflexivity.
Defined.

(** C7, as stated, fails for an identifier with lower-case letters: the row
    has a 5-digit number, a name, the token [USab12] and a decimal with two
    fractional digits, and no partner is extracted. *)
Lemma C7_counterexample :
  let line := js "12345 Smith, Alex J USab12 31.45" in
  line = row (js "12345") (js " ") (js "Smith, Alex J") (js " ") (js "USab12")
           (js " ") (js "31.45") /\
  is_id (js "12345") = true /\ is_name (js "Smith, Alex J") = true /\
  us_alphanumeric (js "USab12") = true /\ is_decimal (js "31.45") /\
  partners (Netlify.parseContent line) = [] /\
  Web.partners (Web.parseManualText line) = [].
Proof.
  repeat split; try reflexivity.
  exists (js "31"), (js ".45"). split; [reflexivity|]. split; [discriminate|].
  split; [reflexivity|]. right. exists (js "45"). split; reflexivity.
Qed.

Lemma is_date_sample a b c :
  digits_between 1 2 a = true -> digits_between 1 2 b = true ->
  digits_between 2 4 c = true -> is_date (a ++ [47%N] ++ b ++ [47%N] ++ c).
Proof. intros. exists a, b, c. auto. Qed.

(** C8, as stated, fails: for the text [Week 1/2/24 - 1/8/24] the period is
    [1/2/24–1/8/24]; the separator is normalized, the dates are not brought
    to the form [MM/DD/YYYY]. *)
Lemma C8_counterexample :
  let content := js "Week 1/2/24 - 1/8/24" in
  date_pair_in content (js "1/2/24") (js "1/8/24") /\
  timePeriod (Netlify.parseContent content)
  = Some (js "1/2/24" ++ [en_dash] ++ js "1/8/24") /\
  Web.time_period (Web.parseManualText content)
  = Some (js "1/2/24" ++ [en_dash] ++ js "1/8/24") /\
  normalized_period (js "1/2/24" ++ [en_dash] ++ js "1/8/24") = false.
Proof.
  split; [|repeat split; reflexivity].
  exists (js "Week "), (js " "), 45%N, (js " "), [].
  split; [reflexivity|].
  split; [apply (is_date_sample (js "1") (js "2") (js "24")); reflexivity|].
  split; [reflexivity|]. split; [reflexivity|]. split; [reflexivity|].
  apply (is_date_sample (js "1") (js "8") (js "24")); reflexivity.
Qed.

Lemma sample_date_pair :
  date_pair_in (js "Store #66900 10/13/2025 - 10/19/2025")
    (js "10/13/2025") (js "10/19/2025").
Proof.
  exists (js "Store #66900 "), (js " "), 45%N, (js " "), [].
  split; [reflexivity|].
  split; [apply (is_date_sample (js "10") (js "13") (js "2025")); reflexivity|].
  split; [reflexivity|]. split; [reflexivity|]. split; [reflexivity|].
  apply (is_date_sample (js "10") (js "19") (js "2025")); reflexivity.
Defined.

(** C8, amended, at a header line with a store number and a period. *)
Lemma C8_witness :
  exists e1 e2,
    date_pair_in (js "Store #66900 10/13/2025 - 10/19/2025") e1 e2 /\
    timePeriod (Netlify.parseContent (js "Store #66900 10/13/2025 - 10/19/2025"))
    = Some (e1 ++ [en_dash] ++ e2) /\
    Web.time_period (Web.parseManualText (js "Store #66900 10/13/2025 - 10/19/2025"))
    = Some (e1 ++ [en_dash] ++ e2).
Proof.
  exact (C8_time_period_joins_dates_as_written
           (js "Store #66900 10/13/2025 - 10/19/2025")
           (js "10/13/2025") (js "10/19/2025") sample_date_pair).
Defined.

(** *** Warnings *)
Lemma parseContent_warnings content :
  let r := Netlify.parseContent content in
  (partners r = [] -> In no_rows_warning (warnings r)) /\
  (totalHours r = None -> In no_hours_warning (warnings r)).
Proof.
  unfold Netlify.parseContent. cbv zeta. cbn [partners warnings totalHours].
  split.
  - intros ->. destruct (not_number _); simpl; auto.
  - intros ->. cbn [not_number]. apply in_or_app. right. left. reflexivity.
Qed.

Lemma parseManualText_no_rows content :
  let r := Web.parseManualText content in
  Web.partners r = [] -> In Web.no_rows_warning (Web.warnings r).
Proof.
  unfold Web.parseManualText. cbv zeta. cbn [Web.partners Web.warnings].
  intros ->. left. reflexivity.
Qed.

(** C3 fails for [parseManualText]: for a text with one partner row and no
    total-hours token, [total_tippable_hours] is absent and the warnings are
    empty, so no diagnostic reports the missing total.  [parseContent]
    pushes that warning ([parseContent_warnings]). *)
Lemma C3_manual_text_omits_hours_warning :
  let r := Web.parseManualText (js "12345 Smith, Alex J US98765432 31.45") in
  Web.total_tippable_hours r = None /\ Web.warnings r = [].
Proof. split; reflexivity. Qed.

(** C10.  For every text the Netlify [parseContent], the Vercel
    [parseContent] and the web [parseManualText] yield the same partners,
    the same total hours, the same store number and the same period. *)
Theorem C10_extractors_agree content :
  let n := Netlify.parseContent content in
  let v := Vercel.parseContent content in
  let w := Web.parseManualText content in
  (partners n = partners v /\ partners n = Web.partners w) /\
  (totalHours n = totalHours v /\ totalHours n = Web.total_tippable_hours w) /\
  (storeNumber n = storeNumber v /\ storeNumber n = Web.store_number w) /\
  (timePeriod n = timePeriod v /\ timePeriod n = Web.time_period w).
Proof. repeat split; reflexivity. Qed.

(** A row whose hours field has more digits than a number can hold is read
    as infinite hours. *)
Lemma parseFloat_overflows :
  ParseFloat.parseFloat (List.repeat 57%N 310) = JSNumber.infinity false.
Proof. vm_compute. reflexivity. Qed.

(** *** What a search reports *)
Lemma exec_some r input m :
  supported r = true ->
  exec r input = Some m ->
  exists pre suffix y,
    input = pre ++ suffix /\
    sem input (Group 0 r) (mkState suffix []) y /\ m = caps y.
Proof.
  intros Hr H. unfold exec in H. apply exec_from_sound in H.
  destruct H as (pre & suffix & y & E1 & E2 & E3).
  exists pre, suffix, y. split; [exact E1|]. split; [|exact E3].
  apply matches_sem; [exact Hr | exact E2].
Qed.

Lemma exec_none r input :
  supported r = true ->
  (exec r input = None <->
   forall pre suffix y,
     input = pre ++ suffix -> ~ sem input (Group 0 r) (mkState suffix []) y).
Proof.
  intros Hr. split.
  - intros H pre suffix y E S. unfold exec in H. rewrite E in H at 2.
    revert H. apply exec_from_complete.
    apply (matches_sem input (Group 0 r) Hr) in S. intros N. rewrite N in S. exact S.
  - intros H. destruct (exec r input) as [m |] eqn:E; [|reflexivity].
    destruct (exec_some r input m Hr E) as (pre & suffix & y & E1 & S & _).
    exfalso. exact (H pre suffix y E1 S).
Qed.

Lemma sem_word_ci input s tail : forall x y,
  sem input (word_ci s tail) x y <->
  exists w z,
    rest x = w ++ rest z /\ caps z = caps x /\ spells_ci s w = true /\
    sem input tail z y.
Proof.
  induction s as [| a s IH]; intros x y.
  - simpl. split.
    + intros H. exists [], x. auto.
    + intros (w & z & E & C & S & H). destruct w; [|discriminate].
      destruct x as [rx cx], z as [rz cz]. simpl in *. subst. exact H.
  - change (sem input (word_ci (String a s) tail) x y)
      with (exists z1, (exists c, rest x = c :: rest z1 /\
                          N.eqb (canonicalize c) (canonicalize (N_of_ascii a)) = true /\
                          caps z1 = caps x) /\
                       sem input (word_ci s tail) z1 y).
    split.
    + intros (z1 & (c & E & P & C) & H). apply IH in H.
      destruct H as (w & z & E' & C' & S & H).
      exists (c :: w), z. simpl. rewrite E, E', P, S. repeat split; auto. congruence.
    + intros (w & z & E & C & S & H). destruct w as [| c w]; [discriminate|].
      simpl in S. apply andb_true_iff in S. destruct S as [P S].
      exists (mkState (w ++ rest z) (caps x)). split.
      * exists c. simpl. auto.
      * apply IH. exists w, z. simpl. auto.
Qed.

Lemma lang_opt_hash h : lang (opt (lit "#")) h <-> h = [] \/ h = js "#".
Proof.
  unfold opt, lit. cbn [lang]. split.
  - intros [(c & -> & H) | ->]; [right | left; reflexivity].
    apply N.eqb_eq in H. subst c. reflexivity.
  - intros [-> | ->]; [right; reflexivity | left].
    exists 35%N. split; reflexivity.
Qed.

(** *** The store number *)
Lemma sem_storeRegex input suffix y :
  sem input (Group 0 storeRegex) (mkState suffix []) y <->
  exists w ws h ds,
    suffix = w ++ ws ++ h ++ ds ++ rest y /\
    spells_ci "Store" w = true /\ is_blank ws = true /\
    (h = [] \/ h = js "#") /\ is_id ds = true /\
    caps y = [(0%nat, w ++ ws ++ h ++ ds); (1%nat, ds)].
Proof.
  rewrite sem_group by reflexivity. unfold storeRegex. split.
  - intros (z & u & H & Eu & ->). apply sem_word_ci in H.
    destruct H as (w & z0 & E0 & C0 & S0 & z1 & H1 & z2 & H2 & H3).
    apply (sem_lang input (plus space) eq_refl) in H1.
    destruct H1 as (ws & E1 & C1 & L1). apply lang_space_plus in L1.
    apply (sem_lang input (opt (lit "#")) eq_refl) in H2.
    destruct H2 as (h & E2 & C2 & L2). apply lang_opt_hash in L2.
    apply (sem_group_plain input 1 (range 4 6 digit) _ _ eq_refl) in H3.
    destruct H3 as (ds & E3 & L3 & C3). apply lang_digits in L3; [|lia].
    simpl in E0, C0, Eu.
    assert (Es : suffix = (w ++ ws ++ h ++ ds) ++ rest z).
    { rewrite E0, E1, E2, E3, <- !app_assoc. reflexivity. }
    rewrite Es in Eu. apply app_inv_tail in Eu. subst u.
    exists w, ws, h, ds. simpl rest. simpl caps.
    rewrite <- !app_assoc in Es. split; [exact Es|].
    repeat split; auto. rewrite C3, C2, C1, C0. reflexivity.
  - intros (w & ws & h & ds & Es & Sw & Bs & Hh & Hd & Ec).
    exists (mkState (rest y) [(1%nat, ds)]), (w ++ ws ++ h ++ ds).
    split; [|split].
    + apply sem_word_ci.
      exists w, (mkState (ws ++ h ++ ds ++ rest y) []).
      split; [exact Es|]. split; [reflexivity|]. split; [exact Sw|].
      exists (mkState (h ++ ds ++ rest y) []). split.
      { apply (sem_lang input (plus space) eq_refl). exists ws.
        split; [reflexivity|]. split; [reflexivity|]. apply lang_space_plus. exact Bs. }
      exists (mkState (ds ++ rest y) []). split.
      { apply (sem_lang input (opt (lit "#")) eq_refl). exists h.
        split; [reflexivity|]. split; [reflexivity|]. apply lang_opt_hash. exact Hh. }
      apply (sem_group_plain input 1 (range 4 6 digit) _ _ eq_refl). exists ds.
      split; [reflexivity|]. split; [|reflexivity]. apply lang_digits; [lia | exact Hd].
    + cbn [rest]. rewrite Es at 1. rewrite <- !app_assoc. reflexivity.
    + destruct y as [ry cy]. simpl in *. rewrite Ec. reflexivity.
Qed.

Lemma exec_storeRegex content :
  (exec storeRegex content = None <-> forall ds, ~ store_label_in content ds) /\
  (forall m, exec storeRegex content = Some m ->
     exists ds, group 1 m = Some ds /\ store_label_in content ds).
Proof.
  split.
  - rewrite (exec_none storeRegex content eq_refl). split.
    + intros H ds (pre & w & ws & h & post & Ec & Sw & Bs & Hh & Hd).
      apply (H pre (w ++ ws ++ h ++ ds ++ post)
               (mkState post [(0%nat, w ++ ws ++ h ++ ds); (1%nat, ds)]) Ec).
      apply sem_storeRegex. exists w, ws, h, ds. simpl. auto 10.
    + intros H pre suffix y Ec S. apply sem_storeRegex in S.
      destruct S as (w & ws & h & ds & Es & Sw & Bs & Hh & Hd & _).
      apply (H ds). exists pre, w, ws, h, (rest y). rewrite Ec, Es. auto 10.
  - intros m H. destruct (exec_some storeRegex content m eq_refl H)
      as (pre & suffix & y & Ec & S & ->).
    apply sem_storeRegex in S.
    destruct S as (w & ws & h & ds & Es & Sw & Bs & Hh & Hd & Ecaps).
    exists ds. split; [rewrite Ecaps; reflexivity|].
    exists pre, w, ws, h, (rest y). rewrite Ec, Es. auto 10.
Qed.

(** X6.  The store number is absent exactly when the text nowhere holds
    the label [Store] (letter case aside), white space, an optional [#]
    and 4 to 6 digits; when present it is the digits of such an
    occurrence.  [parseManualText] reports the same. *)
Theorem store_number_follows_label content :
  let n := Netlify.parseContent content in
  let w := Web.parseManualText content in
  Web.store_number w = storeNumber n /\
  (storeNumber n = None <-> forall ds, ~ store_label_in content ds) /\
  (forall ds, storeNumber n = Some ds -> store_label_in content ds).
Proof.
  cbv zeta. unfold Netlify.parseContent, Web.parseManualText. cbv zeta.
  cbn [Web.store_number storeNumber].
  destruct (exec_storeRegex content) as [Hnone Hsome].
  split; [reflexivity|].
  destruct (exec storeRegex content) as [m |] eqn:E.
  - destruct (Hsome m eq_refl) as (ds & G & L). rewrite G. simpl. split.
    + split; [discriminate|]. intros H. exfalso. exact (H ds L).
    + intros ds' Heq. inversion Heq; subst. exact L.
  - split; [|discriminate]. split; [intros _; apply Hnone; reflexivity | reflexivity].
Qed.

(** *** The period *)
(** X8.  The period is absent exactly when the text holds no two dates
    with a hyphen or an en dash between them. *)
Theorem time_period_absent_iff content :
  (timePeriod (Netlify.parseContent content) = None <->
   forall d1 d2, ~ date_pair_in content d1 d2) /\
  (Web.time_period (Web.parseManualText content) = None <->
   forall d1 d2, ~ date_pair_in content d1 d2).
Proof.
  assert (H : exec dateRegex content = None <->
              forall d1 d2, ~ date_pair_in content d1 d2).
  { rewrite (exec_none dateRegex content eq_refl). split.
    - intros H d1 d2 (pre & w1 & c & w2 & post & Ec & D1 & F1 & Dc & F2 & D2).
      apply (H pre (d1 ++ w1 ++ [c] ++ w2 ++ d2 ++ post)
               (mkState post [(0%nat, d1 ++ w1 ++ [c] ++ w2 ++ d2);
                              (2%nat, d2); (1%nat, d1)]) Ec).
      apply sem_dateRegex. exists d1, w1, c, w2, d2. simpl. auto 10.
    - intros H pre suffix y Ec S. apply sem_dateRegex in S.
      destruct S as (d1 & w1 & c & w2 & d2 & Es & D1 & F1 & Dc & F2 & D2 & _).
      apply (H d1 d2). exists pre, w1, c, w2, (rest y). rewrite Ec, Es. auto 10. }
  unfold Netlify.parseContent, Web.parseManualText. cbv zeta.
  cbn [Web.time_period timePeriod].
  destruct (exec dateRegex content) as [m |].
  - split; (split; [discriminate|]); intros N; apply H in N; discriminate.
  - split; (split; [intros _; apply H; reflexivity | reflexivity]).
Qed.

(** *** The total hours *)
Lemma of_ratio_not_negative n d :
  JSNumber.is_nan (JSNumber.of_ratio false n d) = false /\
  JSNumber.lt (JSNumber.of_ratio false n d) JSNumber.pos_zero = false.
Proof.
  destruct n as [| p]; [split; reflexivity|].
  unfold JSNumber.of_ratio, SFdiv.
  destruct (SFdiv_core_binary JSNumber.prec JSNumber.emax (Zpos p) 0 (Zpos d) 0)
    as [[mz ez] lz] eqn:E.
  pose proof (SFdiv_core_nonneg _ _ _ _ _ _ _ E) as Hmz.
  destruct (binary_round_aux_spec false mz ez lz Hmz)
    as [[H | [H | (m' & e' & H & _)]] _];
    simpl xorb; rewrite H; split; reflexivity.
Qed.

Lemma parseFloat_digit_start c t :
  is_digit c = true ->
  JSNumber.is_nan (parseFloat (c :: t)) = false /\
  JSNumber.lt (parseFloat (c :: t)) JSNumber.pos_zero = false.
Proof.
  intros Hc. pose proof (proj1 (is_digit_bounds c) Hc) as Hb.
  unfold parseFloat. cbn [drop_spaces]. rewrite (digit_not_space c Hc).
  replace (N.eqb c 45) with false by (symmetry; apply N.eqb_neq; lia).
  replace (N.eqb c 43) with false by (symmetry; apply N.eqb_neq; lia).
  unfold unsigned_literal.
  replace (starts_with (js "Infinity") (c :: t)) with false.
  2:{ symmetry. cbn [js List.map list_ascii_of_string starts_with].
      replace (N.eqb (N_of_ascii "I") c) with false; [reflexivity|].
      symmetry. apply N.eqb_neq. change (N_of_ascii "I") with 73%N. lia. }
  cbn [span]. rewrite Hc. destruct (span is_digit t) as [a b].
  destruct (match b with
            | [] => ([], b)
            | c0 :: t0 => if N.eqb c0 46 then span is_digit t0 else ([], b)
            end) as [frac s2].
  cbn [app]. destruct (_ <=? _)%Z; apply of_ratio_not_negative.
Qed.

Lemma parseFloat_decimal h :
  is_decimal h ->
  JSNumber.is_nan (parseFloat h) = false /\
  JSNumber.lt (parseFloat h) JSNumber.pos_zero = false.
Proof.
  intros (ds & fs & -> & Hne & Hd & _). destruct ds as [| c t]; [congruence|].
  simpl in Hd. apply andb_true_iff in Hd. destruct Hd as [Hc _].
  apply parseFloat_digit_start. exact Hc.
Qed.

Lemma sem_hoursRegex input suffix y :
  sem input (Group 0 hoursRegex) (mkState suffix []) y <->
  exists w ws h,
    suffix = w ++ ws ++ h ++ rest y /\
    spells_ci "Total Tippable Hours:" w = true /\
    forallb is_space ws = true /\ is_decimal h /\
    caps y = [(0%nat, w ++ ws ++ h); (1%nat, h)].
Proof.
  rewrite sem_group by reflexivity. unfold hoursRegex. split.
  - intros (z & u & H & Eu & ->). apply sem_word_ci in H.
    destruct H as (w & z0 & E0 & C0 & S0 & z1 & H1 & H2).
    apply (sem_lang input (Star true space) eq_refl) in H1.
    destruct H1 as (ws & E1 & C1 & L1). simpl in L1.
    apply (sem_group_plain input 1 decimal _ _ eq_refl) in H2.
    destruct H2 as (h & E2 & L2 & C2). apply lang_decimal in L2.
    simpl in E0, C0, Eu.
    assert (Es : suffix = (w ++ ws ++ h) ++ rest z).
    { rewrite E0, E1, E2, <- !app_assoc. reflexivity. }
    rewrite Es in Eu. apply app_inv_tail in Eu. subst u.
    exists w, ws, h. simpl rest. simpl caps.
    rewrite <- !app_assoc in Es. split; [exact Es|].
    repeat split; auto. rewrite C2, C1, C0. reflexivity.
  - intros (w & ws & h & Es & Sw & Fs & Hh & Ec).
    exists (mkState (rest y) [(1%nat, h)]), (w ++ ws ++ h).
    split; [|split].
    + apply sem_word_ci.
      exists w, (mkState (ws ++ h ++ rest y) []).
      split; [exact Es|]. split; [reflexivity|]. split; [exact Sw|].
      exists (mkState (h ++ rest y) []). split.
      { apply (sem_lang input (Star true space) eq_refl). exists ws.
        split; [reflexivity|]. split; [reflexivity|]. exact Fs. }
      apply (sem_group_plain input 1 decimal _ _ eq_refl). exists h.
      split; [reflexivity|]. split; [|reflexivity]. apply lang_decimal. exact Hh.
    + cbn [rest]. rewrite Es at 1. rewrite <- !app_assoc. reflexivity.
    + destruct y as [ry cy]. simpl in *. rewrite Ec. reflexivity.
Qed.

Lemma exec_hoursRegex content :
  (exec hoursRegex content = None <-> forall h, ~ hours_label_in content h) /\
  (forall m, exec hoursRegex content = Some m ->
     exists h, group 1 m = Some h /\ hours_label_in content h).
Proof.
  split.
  - rewrite (exec_none hoursRegex content eq_refl). split.
    + intros H h (pre & w & ws & post & Ec & Sw & Fs & Hh).
      apply (H pre (w ++ ws ++ h ++ post)
               (mkState post [(0%nat, w ++ ws ++ h); (1%nat, h)]) Ec).
      apply sem_hoursRegex. exists w, ws, h. simpl. auto 10.
    + intros H pre suffix y Ec S. apply sem_hoursRegex in S.
      destruct S as (w & ws & h & Es & Sw & Fs & Hh & _).
      apply (H h). exists pre, w, ws, (rest y). rewrite Ec, Es. auto 10.
  - intros m H. destruct (exec_some hoursRegex content m eq_refl H)
      as (pre & suffix & y & Ec & S & ->).
    apply sem_hoursRegex in S.
    destruct S as (w & ws & h & Es & Sw & Fs & Hh & Ecaps).
    exists h. split; [rewrite Ecaps; reflexivity|].
    exists pre, w, ws, (rest y). rewrite Ec, Es. auto 10.
Qed.

(** X7.  The total hours are absent exactly when the text nowhere holds
    the label [Total Tippable Hours:] (letter case aside), optional white
    space and a decimal; when present they are the [parseFloat] of such a
    decimal, never [NaN] and never negative. *)
Theorem total_hours_follow_label content :
  let n := Netlify.parseContent content in
  (totalHours n = None <-> forall h, ~ hours_label_in content h) /\
  (forall x, totalHours n = Some x ->
     exists h, hours_label_in content h /\ x = parseFloat h /\
               JSNumber.is_nan x = false /\
               JSNumber.lt x JSNumber.pos_zero = false).
Proof.
  cbv zeta. unfold Netlify.parseContent. cbv zeta. cbn [totalHours].
  destruct (exec_hoursRegex content) as [Hnone Hsome].
  destruct (exec hoursRegex content) as [m |] eqn:E.
  - destruct (Hsome m eq_refl) as (h & G & L). rewrite G. simpl. split.
    + split; [discriminate|]. intros H. exfalso. exact (H h L).
    + intros x Heq. inversion Heq; subst. exists h. split; [exact L|].
      split; [reflexivity|]. apply parseFloat_decimal.
      destruct L as (_ & _ & _ & _ & _ & _ & _ & Hh). exact Hh.
  - split; [|discriminate]. split; [intros _; apply Hnone; reflexivity | reflexivity].
Qed.

(** *** The warnings *)
(** X9.  The warnings of [parseContent] are the no-rows warning when no
    partner was extracted, followed by the no-hours warning when the total
    hours are absent or zero, and nothing else: a total of 0 is reported
    as not found. *)
Theorem parseContent_warnings_exact content :
  let r := Netlify.parseContent content in
  warnings r
  = match partners r with [] => [no_rows_warning] | _ => [] end
    ++ match totalHours r with
       | None => [no_hours_warning]
       | Some x => if JSNumber.is_zero x then [no_hours_warning] else []
       end.
Proof.
  cbv zeta.
  destruct (exec_hoursRegex content) as [_ Hsome]. revert Hsome.
  unfold Netlify.parseContent. cbv zeta. cbn [warnings partners totalHours].
  destruct (exec hoursRegex content) as [m |]; intros Hsome.
  - destruct (Hsome _ eq_refl) as (h & G & (_ & _ & _ & _ & _ & _ & _ & Hh)).
    rewrite G. cbn [text].
    destruct (parseFloat_decimal h Hh) as [Hnan _].
    unfold not_number, JSNumber.truthy. rewrite Hnan. simpl orb.
    rewrite negb_involutive.
    destruct (push_partners _ _ _); destruct (JSNumber.is_zero _); reflexivity.
  - destruct (push_partners _ _ _); reflexivity.
Qed.

(** *** The partners *)
Lemma partners_of_rows content :
  Forall read_from_row (partners_of content).
Proof.
  unfold partners_of. rewrite push_partners_flat. simpl.
  apply Forall_forall. intros p Hp. apply in_flat_map in Hp.
  destruct Hp as (line & _ & Hp).
  destruct (partner_of_line partnerRegex line) as [q |] eqn:E; [|contradiction].
  destruct Hp as [<- | []].
  apply partner_of_line_row in E.
  destruct E as (id & ws1 & name & ws2 & gid & ws3 & hrs & F & _ & ->).
  destruct F as (F1 & _ & F3 & _ & F5 & _ & F7).
  exists id, name, gid, hrs. auto.
Qed.

(** X4.  Every extracted partner was read from a row: a number of 4 to 6
    digits, a name that starts and ends with a non-space character and
    holds no line terminator, an identifier [US] followed by upper-case
    letters or digits, and hours that are the [parseFloat] of a decimal,
    hence never [NaN] and never negative.  [parseManualText] extracts the
    same partners. *)
Theorem extracted_partners_are_rows content :
  Forall
    (fun p =>
       read_from_row p /\
       JSNumber.is_nan (hours p) = false /\
       JSNumber.lt (hours p) JSNumber.pos_zero = false)
    (partners (Netlify.parseContent content)) /\
  Web.partners (Web.parseManualText content)
  = partners (Netlify.parseContent content).
Proof.
  split; [|reflexivity].
  change (partners (Netlify.parseContent content)) with (partners_of content).
  eapply Forall_impl; [|apply partners_of_rows].
  intros p R. split; [exact R|].
  destruct R as (id & name & gid & hrs & -> & _ & _ & _ & Hh).
  apply parseFloat_decimal. exact Hh.
Qed.

Lemma LF_lines_cases s :
  (forallb not_LF s = true /\ LF_lines s = [s]) \/
  exists l s',
    s = l ++ [LF] ++ s' /\ forallb not_LF l = true /\
    LF_lines s = l :: LF_lines s'.
Proof.
  induction s as [| c t IH]; [left; split; reflexivity|].
  cbn [LF_lines forallb]. unfold not_LF at 1.
  destruct (N.eqb c LF) eqn:Ec.
  - right. apply N.eqb_eq in Ec. subst c. exists [], t. repeat split.
  - destruct IH as [[Hf ->] | (l & s' & -> & Hf & ->)].
    + left. split; [exact Hf | reflexivity].
    + right. exists (c :: l), s'. split; [reflexivity|]. split; [|reflexivity].
      cbn [forallb]. unfold not_LF at 1. rewrite Ec. exact Hf.
Qed.

Lemma partners_of_LF_lines : forall n content,
  (List.length content < n)%nat ->
  partners_of content = flat_map row_partner (LF_lines content).
Proof.
  induction n as [| n IH]; intros content Hn; [lia|].
  destruct (LF_lines_cases content) as [[Hf ->] | (l & s' & -> & Hf & ->)].
  - simpl. rewrite app_nil_r. apply partners_of_line. exact Hf.
  - change ([LF] ++ s') with (eol false ++ s').
    rewrite (partners_of_app l false s'). cbn [flat_map]. f_equal.
    + apply partners_of_line. exact Hf.
    + apply IH. rewrite length_app in Hn. simpl in Hn. lia.
Qed.

Lemma row_partner_length l : (List.length (row_partner l) <= 1)%nat.
Proof. unfold row_partner. destruct (partner_of_line _ _); simpl; lia. Qed.

Lemma flat_map_row_partner_length ls :
  (List.length (flat_map row_partner ls) <= List.length ls)%nat.
Proof.
  induction ls as [| l t IH]; simpl; [lia|].
  rewrite length_app. pose proof (row_partner_length l). lia.
Qed.

(** X5.  Extraction goes line by line: the partners of a text are those of
    the stretches between its line feeds, each trimmed and matched on its
    own, in order.  There is at most one partner per line. *)
Theorem partners_are_read_line_by_line content :
  partners (Netlify.parseContent content) = flat_map row_partner (LF_lines content) /\
  Web.partners (Web.parseManualText content) = flat_map row_partner (LF_lines content) /\
  (List.length (partners (Netlify.parseContent content))
   <= List.length (LF_lines content))%nat.
Proof.
  change (partners (Netlify.parseContent content)) with (partners_of content).
  change (Web.partners (Web.parseManualText content)) with (partners_of content).
  rewrite (partners_of_LF_lines (S (List.length content)) content (Nat.lt_succ_diag_r _)).
  split; [reflexivity|]. split; [reflexivity|]. apply flat_map_row_partner_length.
Qed.

(** *** The copies of [parseContent] *)
(** X10.  The copies of [parseContent] in the Vercel function and in the
    Express server return what the Netlify function's returns, warnings
    included. *)
Theorem parseContent_copies_agree content :
  Vercel.parseContent content = Netlify.parseContent content /\
  Server.parseContent content = Netlify.parseContent content.
Proof. split; reflexivity. Qed.

(** *** One reading per row *)
(** X21.  A line has at most one reading as a row: two ways of cutting it
    into number, name, identifier and hours with white space between them
    give the same four fields. *)
Theorem row_reading_unique id ws1 name ws2 gid ws3 hrs id' ws1' name' ws2' gid' ws3' hrs' :
  row_fields id ws1 name ws2 gid ws3 hrs ->
  row_fields id' ws1' name' ws2' gid' ws3' hrs' ->
  row id ws1 name ws2 gid ws3 hrs = row id' ws1' name' ws2' gid' ws3' hrs' ->
  id = id' /\ name = name' /\ gid = gid' /\ hrs = hrs'.
Proof.
  intros F F' E.
  pose proof (exec_row _ _ _ _ _ _ _ F) as H. cbv zeta in H.
  pose proof (exec_row _ _ _ _ _ _ _ F') as H'. cbv zeta in H'.
  rewrite E, H' in H. inversion H. auto.
Qed.

(** X21 at the sample row. *)
Lemma row_reading_unique_witness :
  js "12345" = js "12345" /\ js "Smith, Alex J" = js "Smith, Alex J" /\
  js "US98765432" = js "US98765432" /\ js "31.45" = js "31.45".
Proof.
  apply (row_reading_unique
           (js "12345") (js "  ") (js "Smith, Alex J") (js "  ")
           (js "US98765432") (js "  ") (js "31.45")
           (js "12345") (js "  ") (js "Smith, Alex J") (js "  ")
           (js "US98765432") (js "  ") (js "31.45")).
  - exact sample_row_fields.
  - exact sample_row_fields.
  - reflexivity.
Defined.

End ExtractorFacts.

(** ** Bounds that rounding keeps *)

Section RoundingBounds.
Import JSNumber.

(** *** What a rounding shift does to the value *)
Lemma loc_exact_iff mrs :
  loc_of_shr_record mrs = loc_Exact <-> inexact mrs = false.
Proof. destruct mrs as [m [|] [|]]; simpl; split; intros H; (reflexivity || discriminate). Qed.

Lemma inexact_of_loc m l :
  inexact (shr_record_of_loc m l) = false <-> l = loc_Exact.
Proof. destruct l as [| []]; simpl; split; intros H; (reflexivity || discriminate). Qed.

Lemma shr_1_value mrs :
  0 <= shr_m mrs ->
  shr_m (shr_1 mrs) * 2 <= shr_m mrs /\
  (inexact (shr_1 mrs) = true ->
   shr_m (shr_1 mrs) * 2 < shr_m mrs \/ inexact mrs = true).
Proof.
  destruct mrs as [m r s]. unfold inexact. simpl. intros H.
  destruct m as [| [p | p |] | p]; simpl; try lia;
    destruct r, s; simpl; split; try lia; intros; auto; try discriminate; left; lia.
Qed.

Lemma iter_shr_1_value p : forall mrs,
  0 <= shr_m mrs ->
  shr_m (iter_pos shr_1 p mrs) * 2 ^ Zpos p <= shr_m mrs /\
  (inexact (iter_pos shr_1 p mrs) = true ->
   shr_m (iter_pos shr_1 p mrs) * 2 ^ Zpos p < shr_m mrs \/ inexact mrs = true).
Proof.
  induction p as [p IH | p IH | ]; intros mrs H; simpl iter_pos.
  - pose proof (shr_1_nonneg mrs H) as H1.
    destruct (shr_1_value mrs H) as [A1 B1].
    destruct (iter_shr_1 p _ H1) as [H2 _].
    destruct (IH _ H1) as [A2 B2]. destruct (IH _ H2) as [A3 B3].
    set (m0 := shr_m mrs) in *. set (m1 := shr_m (shr_1 mrs)) in *.
    set (m2 := shr_m (iter_pos shr_1 p (shr_1 mrs))) in *.
    set (m3 := shr_m (iter_pos shr_1 p (iter_pos shr_1 p (shr_1 mrs)))) in *.
    replace (2 ^ Zpos p~1) with (2 ^ Zpos p * 2 ^ Zpos p * 2)
      by (replace (Zpos p~1) with (Zpos p + Zpos p + 1) by lia;
          rewrite !Z.pow_add_r, Z.pow_1_r by lia; ring).
    assert (P : 0 < 2 ^ Zpos p) by (apply Z.pow_pos_nonneg; lia).
    destruct (iter_shr_1 p _ H2) as [H3 _]. fold m3 in H3. fold m2 in H2. fold m1 in H1.
    split; [nia|]. intros I. destruct (B3 I) as [L | I2].
    + left. nia.
    + destruct (B2 I2) as [L | I1]; [left; nia|].
      destruct (B1 I1) as [L | I0]; [left; nia | right; exact I0].
  - destruct (iter_shr_1 p _ H) as [H2 _].
    destruct (IH _ H) as [A2 B2]. destruct (IH _ H2) as [A3 B3].
    set (m0 := shr_m mrs) in *.
    set (m2 := shr_m (iter_pos shr_1 p mrs)) in *.
    set (m3 := shr_m (iter_pos shr_1 p (iter_pos shr_1 p mrs))) in *.
    replace (2 ^ Zpos p~0) with (2 ^ Zpos p * 2 ^ Zpos p)
      by (replace (Zpos p~0) with (Zpos p + Zpos p) by lia;
          rewrite !Z.pow_add_r by lia; ring).
    assert (P : 0 < 2 ^ Zpos p) by (apply Z.pow_pos_nonneg; lia).
    destruct (iter_shr_1 p _ H2) as [H3 _]. fold m3 in H3. fold m2 in H2.
    split; [nia|]. intros I. destruct (B3 I) as [L | I2].
    + left. nia.
    + destruct (B2 I2) as [L | I1]; [left; nia | right; exact I1].
  - rewrite Z.pow_1_r. apply shr_1_value. exact H.
Qed.

Lemma shr_fexp_value m e l mrs e' :
  0 <= m ->
  e <= fexp prec emax (Zdigits2 m + e) ->
  shr_fexp prec emax m e l = (mrs, e') ->
  e' = fexp prec emax (Zdigits2 m + e) /\
  0 <= shr_m mrs /\
  shr_m mrs * 2 ^ (e' - e) <= m /\
  (inexact mrs = true -> shr_m mrs * 2 ^ (e' - e) < m \/ l <> loc_Exact) /\
  Zdigits2 (shr_m mrs) = Z.max 0 (Zdigits2 m - (e' - e)).
Proof.
  intros Hm Hp. unfold shr_fexp, shr.
  destruct (fexp prec emax (Zdigits2 m + e) - e) as [| p | p] eqn:E;
    intros Heq; inversion Heq; subst; clear Heq.
  - rewrite shr_record_of_loc_m. split; [lia|]. split; [exact Hm|].
    rewrite Z.sub_diag, Z.pow_0_r. split; [lia|]. split.
    + intros I. right. intros ->. simpl in I. discriminate.
    + pose proof (Zdigits2_nonneg m). lia.
  - pose proof (iter_shr_1 p (shr_record_of_loc m l)) as D.
    pose proof (iter_shr_1_value p (shr_record_of_loc m l)) as V.
    rewrite shr_record_of_loc_m in D, V.
    destruct (D Hm) as [D1 D2]. destruct (V Hm) as [V1 V2].
    replace (e + Zpos p - e) with (Zpos p) by lia.
    split; [lia|]. split; [exact D1|]. split; [exact V1|]. split; [|exact D2].
    intros I. destruct (V2 I) as [L | I0]; [left; exact L | right].
    intros ->. simpl in I0. discriminate.
  - lia.
Qed.

Lemma Zdigits2_bounds x :
  0 <= x -> x < 2 ^ Zdigits2 x /\ (0 < x -> 2 ^ (Zdigits2 x - 1) <= x).
Proof.
  intros H. destruct x as [| p | p]; [simpl; lia | | lia].
  pose proof (digits2_pos_bounds p). simpl Zdigits2. lia.
Qed.

Lemma Zdigits2_mono a b : 0 <= a <= b -> Zdigits2 a <= Zdigits2 b.
Proof.
  intros [Ha Hab].
  destruct (Z.eq_dec a 0) as [-> | Na]; [apply Zdigits2_nonneg|].
  destruct (Zdigits2_bounds a Ha) as [_ La]. specialize (La ltac:(lia)).
  destruct (Zdigits2_bounds b ltac:(lia)) as [Ub _].
  destruct (Z_le_gt_dec (Zdigits2 a) (Zdigits2 b)) as [L | G]; [exact L|].
  exfalso.
  assert (2 ^ Zdigits2 b <= 2 ^ (Zdigits2 a - 1))
    by (apply Z.pow_le_mono_r; [lia|]; lia).
  lia.
Qed.

Lemma round_nearest_even_exact mrs :
  inexact mrs = false ->
  round_nearest_even (shr_m mrs) (loc_of_shr_record mrs) = shr_m mrs.
Proof. intros H. apply loc_exact_iff in H. rewrite H. reflexivity. Qed.

Lemma pow2_diff a b c : c <= b <= a -> 2 ^ (a - c) = 2 ^ (a - b) * 2 ^ (b - c).
Proof.
  intros H. replace (a - c) with ((a - b) + (b - c)) by lia.
  apply Z.pow_add_r; lia.
Qed.

Lemma pow2_diff_succ a b c :
  c <= b < a -> 2 ^ (a - c) = 2 ^ (a - b - 1) * (2 * 2 ^ (b - c)).
Proof.
  intros H. rewrite <- (Z.pow_succ_r 2 (b - c)) by lia.
  replace (a - c) with ((a - b - 1) + Z.succ (b - c)) by lia.
  apply Z.pow_add_r; lia.
Qed.

(** Rounding never passes a number of the format that lies above the
    exact value.  Values are written in units of [2 ^ c]. *)
Lemma binary_round_aux_le s m e l c B eb :
  0 <= m -> c <= e -> c <= emin' ->
  e <= fexp prec emax (Zdigits2 m + e) ->
  0 < B < 2 ^ prec -> emin' <= eb <= emax - prec ->
  m * 2 ^ (e - c) <= B * 2 ^ (eb - c) ->
  (l <> loc_Exact -> m * 2 ^ (e - c) < B * 2 ^ (eb - c)) ->
  binary_round_aux prec emax s m e l = S754_zero s \/
  exists mr er,
    binary_round_aux prec emax s m e l = S754_finite s mr er /\
    emin' <= er /\ Zpos (digits2_pos mr) <= prec /\
    Zpos mr * 2 ^ (er - c) <= B * 2 ^ (eb - c).
Proof.
  intros Hm Hce Hc Hp HB Heb Hle Hlt.
  assert (Hprec0 : 0 < prec) by reflexivity.
  unfold binary_round_aux.
  destruct (shr_fexp prec emax m e l) as [mrs' e'] eqn:E1.
  destruct (shr_fexp_value _ _ _ _ _ Hm Hp E1) as (He' & Hm' & V1 & I1 & D1).
  set (m' := shr_m mrs') in *.
  pose proof (round_nearest_even_bounds m' (loc_of_shr_record mrs')) as Hr.
  pose proof (round_nearest_even_exact mrs') as Hx. fold m' in Hx.
  set (m1 := round_nearest_even m' (loc_of_shr_record mrs')) in *.
  set (d := Zdigits2 m) in *.
  assert (Hfe : e' = Z.max (d + e - prec) emin').
  { rewrite He'. unfold fexp, SpecFloat.emin. reflexivity. }
  assert (Hee : e <= e') by (rewrite He'; exact Hp).
  assert (Hem : emin' <= e') by lia.
  set (Bv := B * 2 ^ (eb - c)) in *.
  assert (P0 : 0 < 2 ^ (e - c)) by (apply Z.pow_pos_nonneg; lia).
  assert (Pn : 0 < 2 ^ (e' - e)) by (apply Z.pow_pos_nonneg; lia).
  assert (Pe' : 2 ^ (e' - c) = 2 ^ (e' - e) * 2 ^ (e - c))
    by (apply pow2_diff; lia).
  (* a mantissa of full width, when the exponent is above the least one *)
  assert (Hfull : emin' < e' -> 2 ^ (prec - 1) <= m').
  { intros G. assert (Dm : Zdigits2 m' = prec) by lia.
    destruct (Zdigits2_bounds m' Hm') as [_ L].
    assert (0 < m').
    { destruct (Z.eq_dec m' 0) as [Z0 | NZ]; [|lia].
      rewrite Z0 in Dm. simpl in Dm. lia. }
    rewrite Dm in L. apply L. assumption. }
  (* the key bound *)
  assert (K : m1 * 2 ^ (e' - c) <= Bv).
  { assert (Kle : m' * 2 ^ (e' - c) <= Bv) by (rewrite Pe'; nia).
    destruct (inexact mrs') eqn:Ei; [|rewrite (Hx eq_refl); exact Kle].
    assert (Klt : m' * 2 ^ (e' - c) < Bv).
    { rewrite Pe'. destruct (I1 eq_refl) as [L | NE]; [nia|].
      specialize (Hlt NE). nia. }
    destruct (Z_le_gt_dec e' eb) as [Le | Gt].
    - assert (Pb : 2 ^ (eb - c) = 2 ^ (eb - e') * 2 ^ (e' - c))
        by (apply pow2_diff; lia).
      assert (Q0 : 0 < 2 ^ (eb - e')) by (apply Z.pow_pos_nonneg; lia).
      assert (Q1 : 0 < 2 ^ (e' - c)) by (apply Z.pow_pos_nonneg; lia).
      unfold Bv in *. rewrite Pb in *.
      assert (m' < B * 2 ^ (eb - e')) by nia.
      nia.
    - exfalso. specialize (Hfull ltac:(lia)).
      assert (Pb : 2 ^ (e' - c) = 2 ^ (e' - eb - 1) * (2 * 2 ^ (eb - c)))
        by (apply pow2_diff_succ; lia).
      assert (Q0 : 0 < 2 ^ (e' - eb - 1)) by (apply Z.pow_pos_nonneg; lia).
      assert (Q1 : 0 < 2 ^ (eb - c)) by (apply Z.pow_pos_nonneg; lia).
      assert (Q2 : 2 ^ prec = 2 * 2 ^ (prec - 1)) by reflexivity.
      unfold Bv in Klt. rewrite Pb in Klt.
      assert (Q3 : 0 < 2 ^ (prec - 1)) by (apply Z.pow_pos_nonneg; lia).
      nia. }
  assert (Hm1 : 0 <= m1) by lia.
  assert (Hp2 : e' <= fexp prec emax (Zdigits2 m1 + e')).
  { unfold fexp, SpecFloat.emin. change (3 - emax - prec) with emin'.
    destruct (Z.eq_dec e' emin') as [-> | NE]; [lia|].
    assert (Dm : Zdigits2 m' = prec) by lia.
    pose proof (Zdigits2_mono m' m1 ltac:(lia)). lia. }
  destruct (shr_fexp prec emax m1 e' loc_Exact) as [mrs'' e''] eqn:E2.
  destruct (shr_fexp_value _ _ _ _ _ Hm1 Hp2 E2) as (He'' & Hm'' & V2 & _ & D2).
  set (m2 := shr_m mrs'') in *.
  assert (Hfe2 : e'' = Z.max (Zdigits2 m1 + e' - prec) emin').
  { rewrite He''. unfold fexp, SpecFloat.emin. reflexivity. }
  assert (Hee2 : e' <= e'') by (rewrite He''; exact Hp2).
  assert (Pn2 : 0 < 2 ^ (e'' - e')) by (apply Z.pow_pos_nonneg; lia).
  assert (Pe'' : 2 ^ (e'' - c) = 2 ^ (e'' - e') * 2 ^ (e' - c))
    by (apply pow2_diff; lia).
  assert (Q1 : 0 < 2 ^ (e' - c)) by (apply Z.pow_pos_nonneg; lia).
  assert (K2 : m2 * 2 ^ (e'' - c) <= Bv) by (rewrite Pe''; nia).
  destruct m2 as [| mr | mr] eqn:Em2; [left; reflexivity | | lia].
  right.
  assert (Hov : e'' <= emax - prec).
  { destruct (Z_le_gt_dec e'' (emax - prec)) as [L | G]; [exact L|]. exfalso.
    assert (Dm : Zdigits2 (Zpos mr) = prec) by lia.
    destruct (Zdigits2_bounds (Zpos mr) ltac:(lia)) as [_ L].
    specialize (L ltac:(lia)). rewrite Dm in L.
    assert (Pb : 2 ^ (e'' - c) = 2 ^ (e'' - eb - 1) * (2 * 2 ^ (eb - c)))
      by (apply pow2_diff_succ; lia).
    assert (Q0 : 0 < 2 ^ (e'' - eb - 1)) by (apply Z.pow_pos_nonneg; lia).
    assert (Q2 : 0 < 2 ^ (eb - c)) by (apply Z.pow_pos_nonneg; lia).
    assert (Q3 : 2 ^ prec = 2 * 2 ^ (prec - 1)) by reflexivity.
    assert (Q4 : 0 < 2 ^ (prec - 1)) by (apply Z.pow_pos_nonneg; lia).
    unfold Bv in K2. rewrite Pb in K2. nia. }
  exists mr, e''. apply Z.leb_le in Hov. rewrite Hov.
  split; [reflexivity|]. split; [lia|]. split; [|exact K2].
  change (Zpos (digits2_pos mr)) with (Zdigits2 (Zpos mr)).
  pose proof (Zdigits2_nonneg m1). lia.
Qed.

(** *** Sums and quotients of bounded numbers *)
Lemma unit_ticks_pos : 0 < unit_ticks.
Proof. reflexivity. Qed.

Lemma emin'_eq : emin' = -1074.
Proof. reflexivity. Qed.

Lemma bounded_by_weaken j k x : j <= k -> bounded_by j x -> bounded_by k x.
Proof.
  intros H. destruct x as [s | s | | s m e]; cbn [bounded_by]; auto.
  intros (Hs & He & Hv). repeat split; auto.
  pose proof unit_ticks_pos. nia.
Qed.

Lemma binary_round_le m e B :
  emin' <= e -> 0 < B < 2 ^ prec ->
  Zpos m * 2 ^ (e - emin') <= B * unit_ticks ->
  bounded_by B (binary_round prec emax false m e).
Proof.
  intros He HB Hv. unfold binary_round.
  set (target := fexp prec emax (Zpos (digits2_pos m) + e)).
  assert (Ht : emin' <= target)
    by (unfold target, fexp, SpecFloat.emin; change (3 - emax - prec) with emin'; lia).
  assert (Hgoal : forall mz ez,
            emin' <= ez ->
            ez <= fexp prec emax (Zdigits2 (Zpos mz) + ez) ->
            Zpos mz * 2 ^ (ez - emin') = Zpos m * 2 ^ (e - emin') ->
            bounded_by B (binary_round_aux prec emax false (Zpos mz) ez loc_Exact)).
  { intros mz ez Hez Hp Hval.
    destruct (binary_round_aux_le false (Zpos mz) ez loc_Exact emin' B 0)
      as [-> | (mr & er & -> & Her & _ & Hr)]; try lia; try exact Hp.
    - rewrite emin'_eq. unfold emax, prec. lia.
    - rewrite Hval. exact Hv.
    - intros N. congruence.
    - exact I.
    - simpl. repeat split; [exact Her | exact Hr]. }
  unfold shl_align. destruct (target - e) as [| d | d] eqn:E.
  - apply Hgoal; [exact He | simpl Zdigits2; fold target; lia | reflexivity].
  - apply Hgoal; [exact He | simpl Zdigits2; fold target; lia | reflexivity].
  - apply Hgoal; [exact Ht | |].
    + simpl Zdigits2. rewrite digits2_pos_shift.
      replace (Zpos (digits2_pos m + d) + target) with (Zpos (digits2_pos m) + e) by lia.
      fold target. lia.
    + change (Pos.iter xO m d) with (shift_pos d m).
      rewrite shift_pos_correct, Z.pow_pos_fold.
      rewrite (pow2_diff e target emin') by lia.
      replace (e - target) with (Zpos d) by lia. ring.
Qed.

Lemma add_bounded_by a b x y :
  0 <= a -> 0 <= b -> a + b < 2 ^ prec ->
  bounded_by a x -> bounded_by b y -> bounded_by (a + b) (add x y).
Proof.
  intros Ha Hb Hab Hx Hy.
  pose proof unit_ticks_pos as U.
  destruct x as [sx | sx | | sx mx ex], y as [sy | sy | | sy my ey];
    try contradiction.
  - destruct sx, sy; exact I.
  - apply (bounded_by_weaken b); [lia | exact Hy].
  - apply (bounded_by_weaken a); [lia | exact Hx].
  - destruct Hx as (-> & Hex & Hvx). destruct Hy as (-> & Hey & Hvy).
    unfold add, SFadd. cbn [cond_Zopp].
    set (ez := Z.min ex ey).
    pose proof (shl_align_value mx ex ez ltac:(lia)) as Vx.
    pose proof (shl_align_value my ey ez ltac:(lia)) as Vy.
    destruct (shl_align mx ex ez) as [mx' ex']. destruct (shl_align my ey ez) as [my' ey'].
    simpl fst in *. change (Zpos mx' + Zpos my') with (Zpos (mx' + my')).
    cbn [binary_normalize].
    assert (P : 0 < 2 ^ (ez - emin')) by (apply Z.pow_pos_nonneg; lia).
    assert (Hsum : Zpos (mx' + my') * 2 ^ (ez - emin') <= (a + b) * unit_ticks).
    { rewrite Pos2Z.inj_add, Vx, Vy.
      rewrite (pow2_diff ex ez emin') in Hvx by lia.
      rewrite (pow2_diff ey ez emin') in Hvy by lia. nia. }
    apply binary_round_le; [lia | | exact Hsum]. split; [|exact Hab]. nia.
Qed.

Lemma new_location_exact nb r : new_location nb r <> loc_Exact -> r <> 0.
Proof.
  intros H ->. apply H. unfold new_location, new_location_even, new_location_odd.
  destruct (Z.even nb); reflexivity.
Qed.

(** The quotient of the division has enough digits to be rounded. *)
Lemma SFdiv_core_precise mx ex my ey q e' l :
  SFdiv_core_binary prec emax (Zpos mx) ex (Zpos my) ey = (q, e', l) ->
  0 <= q /\
  e' <= ex - ey /\
  q * Zpos my <= Zpos mx * 2 ^ (ex - ey - e') /\
  (l <> loc_Exact -> q * Zpos my < Zpos mx * 2 ^ (ex - ey - e')) /\
  e' <= fexp prec emax (Zdigits2 q + e').
Proof.
  unfold SFdiv_core_binary.
  set (d1 := Zdigits2 (Zpos mx)). set (d2 := Zdigits2 (Zpos my)).
  set (E := Z.min (fexp prec emax (d1 + ex - (d2 + ey))) (ex - ey)).
  set (s := ex - ey - E).
  assert (Hs : 0 <= s) by (unfold s, E; lia).
  set (N := match s with Z0 => Zpos mx | Zpos _ => Z.shiftl (Zpos mx) s | Zneg _ => 0 end).
  assert (HN : N = Zpos mx * 2 ^ s).
  { unfold N. destruct s as [| p | p] eqn:Es; [rewrite Z.pow_0_r; lia | | lia].
    rewrite Z.shiftl_mul_pow2 by lia. reflexivity. }
  pose proof (Z_div_mod N (Zpos my) ltac:(lia)) as Hdiv.
  destruct (Z.div_eucl N (Zpos my)) as [q0 r0].
  destruct Hdiv as [Hq Hr].
  intros Heq. inversion Heq; subst q e' l. clear Heq.
  assert (P : 0 < 2 ^ s) by (apply Z.pow_pos_nonneg; lia).
  assert (Hq0 : 0 <= q0) by nia.
  fold s. rewrite <- HN.
  split; [exact Hq0|]. split; [unfold E; lia|]. split; [lia|]. split.
  - intros Hl. apply new_location_exact in Hl. lia.
  - unfold fexp at 1, SpecFloat.emin. change (3 - emax - prec) with emin'.
    destruct (Z_le_gt_dec E emin') as [L | G]; [lia|].
    assert (HE : E <= d1 + ex - (d2 + ey) - prec).
    { unfold E in *. unfold fexp, SpecFloat.emin in *.
      change (3 - emax - prec) with emin' in *. lia. }
    set (t := d1 + s - d2).
    assert (Ht : prec <= t) by (unfold t, s; lia).
    assert (Hprec0 : 0 < prec) by reflexivity.
    destruct (Zdigits2_bounds (Zpos mx) ltac:(lia)) as [_ L1].
    specialize (L1 ltac:(lia)). fold d1 in L1.
    destruct (Zdigits2_bounds (Zpos my) ltac:(lia)) as [U2 _]. fold d2 in U2.
    assert (Hd1 : 0 < d1) by (unfold d1; simpl; lia).
    assert (Hd2 : 0 < d2) by (unfold d2; simpl; lia).
    assert (Hpow : 2 ^ (d1 - 1) * 2 ^ s = 2 ^ (t - 1) * 2 ^ d2).
    { rewrite <- !Z.pow_add_r by lia. f_equal. unfold t. lia. }
    assert (Pt : 0 < 2 ^ (t - 1)) by (apply Z.pow_pos_nonneg; lia).
    assert (Hq1 : 2 ^ (t - 1) <= q0).
    { destruct (Z_le_gt_dec (2 ^ (t - 1)) q0) as [Lq | Gq]; [exact Lq|]. exfalso.
      assert (N < Zpos my * 2 ^ (t - 1)) by nia.
      assert (2 ^ (t - 1) * 2 ^ d2 <= N) by (rewrite HN, <- Hpow; nia).
      nia. }
    destruct (Zdigits2_bounds q0 Hq0) as [Uq _].
    assert (t - 1 < Zdigits2 q0).
    { apply (Z.pow_lt_mono_r_iff 2); [lia | apply Zdigits2_nonneg | lia]. }
    lia.
Qed.

Lemma div_bounded_by_one k x my ey :
  bounded_by k x -> emin' <= ey ->
  ticks x <= ticks (S754_finite false my ey) ->
  bounded_by 1 (div x (S754_finite false my ey)).
Proof.
  intros Hx Hey Hle.
  destruct x as [sx | sx | | sx mx ex]; try contradiction; [exact I|].
  destruct Hx as (-> & Hex & _). unfold ticks in Hle. cbn [cond_Zopp] in Hle.
  unfold div, SFdiv.
  destruct (SFdiv_core_binary prec emax (Zpos mx) ex (Zpos my) ey) as [[q e'] l] eqn:E.
  destruct (SFdiv_core_precise _ _ _ _ _ _ _ E) as (Hq & He' & Hqm & Hlt & Hp).
  cbn [xorb].
  assert (Hc : exists c, c <= e' /\ c <= emin').
  { exists (Z.min e' emin'). lia. }
  destruct Hc as (c & Hc1 & Hc2).
  assert (Hm0 : emin' < 0) by reflexivity.
  remember (ex - ey - e') as s eqn:Es.
  assert (Hs : 0 <= s) by lia.
  assert (pc : 0 < 2 ^ (0 - c)) by (apply Z.pow_pos_nonneg; lia).
  assert (pA : 0 < 2 ^ (ex - emin')) by (apply Z.pow_pos_nonneg; lia).
  assert (pB : 0 < 2 ^ (ey - emin')) by (apply Z.pow_pos_nonneg; lia).
  assert (pS : 0 < 2 ^ s) by (apply Z.pow_pos_nonneg; lia).
  assert (pE : 0 < 2 ^ (e' - c)) by (apply Z.pow_pos_nonneg; lia).
  assert (R : 2 ^ s * 2 ^ (e' - c) * 2 ^ (ey - emin') = 2 ^ (ex - emin') * 2 ^ (0 - c)).
  { rewrite <- !Z.pow_add_r by lia. f_equal. lia. }
  assert (Hle1 : q * 2 ^ (e' - c) <= 1 * 2 ^ (0 - c) /\
                 (l <> loc_Exact -> q * 2 ^ (e' - c) < 1 * 2 ^ (0 - c))).
  { revert Hle Hqm Hlt R pc pA pB pS pE.
    generalize (2 ^ (0 - c)) (2 ^ (ex - emin')) (2 ^ (ey - emin')) (2 ^ s) (2 ^ (e' - c)).
    intros Pc PA PB PS PE Hle Hqm Hlt R pc pA pB pS pE.
    assert (M : 0 < Zpos my * PB) by nia.
    assert (H1 : q * Zpos my * (PE * PB) <= Zpos mx * PS * (PE * PB))
      by (apply Z.mul_le_mono_nonneg_r; [nia | exact Hqm]).
    assert (H2 : Zpos mx * PS * (PE * PB) = Zpos mx * PA * Pc)
      by (rewrite <- Z.mul_assoc, (Z.mul_assoc PS), R; ring).
    assert (H3 : Zpos mx * PA * Pc <= Zpos my * PB * Pc)
      by (apply Z.mul_le_mono_nonneg_r; [lia | exact Hle]).
    assert (H4 : (q * PE) * (Zpos my * PB) <= Pc * (Zpos my * PB)).
    { replace (q * PE * (Zpos my * PB)) with (q * Zpos my * (PE * PB)) by ring.
      replace (Pc * (Zpos my * PB)) with (Zpos my * PB * Pc) by ring. lia. }
    split.
    - apply Z.mul_le_mono_pos_r in H4; [lia | exact M].
    - intros Hl. specialize (Hlt Hl).
      assert (H1' : q * Zpos my * (PE * PB) < Zpos mx * PS * (PE * PB))
        by (apply Z.mul_lt_mono_pos_r; [nia | exact Hlt]).
      assert (H4' : (q * PE) * (Zpos my * PB) < Pc * (Zpos my * PB)).
      { replace (q * PE * (Zpos my * PB)) with (q * Zpos my * (PE * PB)) by ring.
        replace (Pc * (Zpos my * PB)) with (Zpos my * PB * Pc) by ring. lia. }
      apply Z.mul_lt_mono_pos_r in H4'; [lia | exact M]. }
  destruct Hle1 as [Hle1 Hlt1].
  assert (HB : 0 < 1 < 2 ^ prec) by (split; reflexivity).
  assert (HE : emin' <= 0 <= emax - prec) by (rewrite emin'_eq; unfold emax, prec; lia).
  destruct (binary_round_aux_le false q e' l c 1 0 Hq Hc1 Hc2 Hp HB HE Hle1 Hlt1)
    as [-> | (mr & er & -> & Her & _ & Hr)]; [exact I|].
  cbn [bounded_by]. split; [reflexivity|]. split; [exact Her|].
  assert (pD : 0 < 2 ^ (emin' - c)) by (apply Z.pow_pos_nonneg; lia).
  rewrite (pow2_diff er emin' c) in Hr by lia.
  assert (Hu : 1 * 2 ^ (0 - c) = unit_ticks * 2 ^ (emin' - c)).
  { unfold unit_ticks. rewrite <- Z.pow_add_r by lia.
    rewrite Z.mul_1_l. f_equal. lia. }
  rewrite Hu in Hr. nia.
Qed.

(** *** Two decimals of a number between 0 and 1 *)
Lemma ten_pow_21_above m e :
  e <= 0 -> SFleb ten_pow_21 (S754_finite false m e) = false.
Proof.
  intros He. let t := eval vm_compute in ten_pow_21 in change ten_pow_21 with t.
  unfold SFleb, SFcompare.
  replace (17 ?= e) with Gt by (symmetry; apply Z.compare_gt_iff; lia).
  reflexivity.
Qed.

Lemma round2_bounded_by_one x : bounded_by 1 x -> bounded_by 1 (round2 x).
Proof.
  destruct x as [s | s | | s m e]; try contradiction; [intros _; exact I|].
  intros (-> & He & Hv).
  pose proof unit_ticks_pos as U.
  assert (Hm0 : emin' < 0) by reflexivity.
  assert (He0 : e <= 0).
  { destruct (Z_le_gt_dec e 0) as [L | G]; [exact L|]. exfalso.
    assert (unit_ticks < 2 ^ (e - emin')).
    { unfold unit_ticks. apply Z.pow_lt_mono_r; lia. }
    nia. }
  unfold round2, fixed_string. rewrite (ten_pow_21_above m e He0).
  pose proof (nearest_scaled_spec m e 2 He) as Hn. cbv zeta in Hn.
  change (10 ^ Z.of_N 2) with 100 in Hn.
  unfold ticks in Hn. cbn [cond_Zopp] in Hn.
  set (n := nearest_scaled m e 2) in *.
  assert (Hn100 : Z.of_N n <= 100) by nia.
  cbn [Number]. change (Z.to_pos (10 ^ Z.of_N 2)) with 100%positive.
  destruct n as [| p] eqn:En; [exact I|].
  cbn [of_ratio].
  apply (div_bounded_by_one 100 (S754_finite false p 0) 100 0).
  - cbn [bounded_by]. split; [reflexivity|]. split; [lia|].
    change (2 ^ (0 - emin')) with unit_ticks. simpl Z.of_N in Hn100. nia.
  - lia.
  - unfold ticks. cbn [cond_Zopp]. simpl Z.of_N in Hn100.
    assert (0 < 2 ^ (0 - emin')) by (apply Z.pow_pos_nonneg; lia). nia.
Qed.

(** *** The mean of the word confidences *)
Lemma sum_bounded_by ws : forall acc k,
  Forall (bounded_by 1) ws -> 0 <= k ->
  k + Z.of_nat (List.length ws) < 2 ^ prec ->
  bounded_by k acc ->
  bounded_by (k + Z.of_nat (List.length ws))
    (fold_left (fun sum value => add sum value) ws acc).
Proof.
  induction ws as [| w t IH]; intros acc k Hws Hk Hlen Hacc.
  - simpl. rewrite Z.add_0_r. exact Hacc.
  - inversion Hws as [| ? ? Hw Ht]; subst. cbn [fold_left].
    cbn [List.length] in *. rewrite Nat2Z.inj_succ in *.
    replace (k + Z.succ (Z.of_nat (List.length t)))
      with ((k + 1) + Z.of_nat (List.length t)) in * by lia.
    apply IH; [exact Ht | lia | exact Hlen |].
    apply add_bounded_by; [lia | lia | lia | exact Hacc | exact Hw].
Qed.

(** X19.  The mean of word confidences that lie between 0 and 1 lies
    between 0 and 1: no step of the binary64 computation [Number((sum /
    count).toFixed(2))] leaves that range. *)
Theorem confidence_between_zero_and_one ws :
  ws <> [] ->
  Forall (bounded_by 1) ws ->
  Z.of_nat (List.length ws) < 2 ^ prec ->
  exists c,
    Handler.confidence_of ws = Normal (Some c) /\ bounded_by 1 c.
Proof.
  intros Hne Hws Hlen.
  pose proof (sum_bounded_by ws pos_zero 0 Hws ltac:(lia) ltac:(lia) I) as Hsum.
  rewrite Z.add_0_l in Hsum.
  set (n := Z.of_nat (List.length ws)) in *.
  assert (Hn : 0 < n) by (unfold n; destruct ws; [congruence | simpl; lia]).
  destruct (of_Z_exact n ltac:(lia) ltac:(lia)) as (m & e & En & He & _ & Ht).
  replace (n <? 0) with false in En by (symmetry; apply Z.ltb_ge; lia).
  unfold Handler.confidence_of. destruct ws as [| w t]; [congruence|].
  rewrite toFixed2_normal. cbn [bind]. eexists. split; [reflexivity|].
  apply round2_bounded_by_one. fold n. rewrite En.
  apply (div_bounded_by_one n); [exact Hsum | exact He |].
  rewrite <- En, Ht.
  destruct (fold_left _ (w :: t) pos_zero) as [s | s | | s mz ez];
    try contradiction.
  - simpl. pose proof unit_ticks_pos. nia.
  - destruct Hsum as (-> & _ & Hv). unfold ticks. cbn [cond_Zopp]. exact Hv.
Qed.

(** X19 at the confidences 0.9, 1 and 1/3. *)
Lemma confidence_between_zero_and_one_witness :
  exists c,
    Handler.confidence_of [of_ratio false 9 10; of_Z 1; of_ratio false 1 3]
    = Normal (Some c) /\ bounded_by 1 c.
Proof.
  apply confidence_between_zero_and_one.
  - discriminate.
  - repeat constructor; vm_compute; repeat split; discriminate.
  - reflexivity.
Defined.

End RoundingBounds.

(** ** The handlers *)

Section HandlerFacts.
Import JSNumber JSString Handler.

(** *** The loops over pages and words *)
Lemma push_confidence_spec word acc :
  push_confidence word acc
  = match word with
    | JNull => Throw TypeError
    | _ => Normal (acc ++ number_of word)
    end.
Proof.
  unfold push_confidence, number_of.
  destruct word as [| b | x | s | l | f]; simpl; rewrite ?app_nil_r; try reflexivity.
  destruct (own (js "confidence") f) as [[| b | x | s | l | f'] |];
    rewrite ?app_nil_r; reflexivity.
Qed.

Lemma for_of_push_confidence items : forall acc,
  for_of push_confidence items acc
  = if existsb (fun w => match w with JNull => true | _ => false end) items
    then Throw TypeError
    else Normal (acc ++ flat_map number_of items).
Proof.
  induction items as [| w t IH]; intros acc; simpl.
  - rewrite app_nil_r. reflexivity.
  - rewrite push_confidence_spec. destruct w; simpl; try reflexivity;
      rewrite IH; destruct (existsb _ t); try reflexivity;
      rewrite <- app_assoc; reflexivity.
Qed.

Lemma existsb_null items :
  existsb (fun w => match w with JNull => true | _ => false end) items = true
  <-> In JNull items.
Proof.
  rewrite existsb_exists. split.
  - intros (x & Hx & E). destruct x; try discriminate. exact Hx.
  - intros H. exists JNull. auto.
Qed.

Lemma push_page_spec page acc :
  push_page page acc
  = match page with
    | JNull => Throw TypeError
    | _ =>
        match words_of page with
        | Some items =>
            if existsb (fun w => match w with JNull => true | _ => false end) items
            then Throw TypeError
            else Normal (acc ++ numbers_of page)
        | None => Normal (acc ++ numbers_of page)
        end
    end.
Proof.
  unfold push_page, numbers_of, words_of.
  destruct page as [| b | x | s | l | f]; simpl; rewrite ?app_nil_r; try reflexivity.
  destruct (own (js "words") f) as [[| b | x | s | l | f'] |];
    rewrite ?app_nil_r; try reflexivity.
  apply for_of_push_confidence.
Qed.

Lemma for_of_push_page_null pages : forall acc,
  visits_null pages -> for_of push_page pages acc = Throw TypeError.
Proof.
  induction pages as [| p t IH]; intros acc H.
  - destruct H as [[] | (page & items & [] & _)].
  - simpl. rewrite push_page_spec.
    destruct p as [| b | x | s | l | f]; try reflexivity;
      try (simpl; apply IH;
           destruct H as [[E | H] | (page & items & [E | Hp] & Hw & Hn)];
           [discriminate E | left; exact H | subst page; discriminate Hw
           | right; exists page, items; auto]).
    destruct (words_of (JObject f)) as [items |] eqn:Ew.
    + destruct (existsb _ items) eqn:Ee; [reflexivity|]. simpl. apply IH.
      destruct H as [[E | H] | (page & items' & [E | Hp] & Hw & Hn)].
      * discriminate E.
      * left; exact H.
      * subst page. rewrite Ew in Hw. inversion Hw; subst.
        apply existsb_null in Hn. congruence.
      * right; exists page, items'; auto.
    + simpl. apply IH.
      destruct H as [[E | H] | (page & items' & [E | Hp] & Hw & Hn)].
      * discriminate E.
      * left; exact H.
      * subst page. rewrite Ew in Hw. discriminate.
      * right; exists page, items'; auto.
Qed.

Lemma for_of_push_page_collects pages : forall acc,
  ~ visits_null pages ->
  for_of push_page pages acc = Normal (acc ++ flat_map numbers_of pages).
Proof.
  induction pages as [| p t IH]; intros acc H; simpl.
  - rewrite app_nil_r. reflexivity.
  - rewrite push_page_spec.
    assert (Ht : ~ visits_null t).
    { intros [Hn | (page & items & Hp & Hw & Hn)]; apply H.
      - left. right. exact Hn.
      - right. exists page, items. split; [right; exact Hp | auto]. }
    assert (Hp : p <> JNull) by (intros ->; apply H; left; left; reflexivity).
    assert (Hw : forall items, words_of p = Some items ->
                   existsb (fun w => match w with JNull => true | _ => false end) items = false).
    { intros items Ew. destruct (existsb _ items) eqn:Ee; [|reflexivity].
      exfalso. apply H. right. exists p, items. split; [left; reflexivity|].
      split; [exact Ew | apply existsb_null; exact Ee]. }
    destruct p as [| b | x | s | l | f]; try congruence;
      try (simpl; rewrite (IH _ Ht), <- app_assoc; reflexivity).
    destruct (words_of (JObject f)) as [items |] eqn:Ew.
    + rewrite (Hw items eq_refl). simpl. rewrite (IH _ Ht), <- app_assoc. reflexivity.
    + simpl. rewrite (IH _ Ht), <- app_assoc. reflexivity.
Qed.

(** *** The three handlers *)
Lemma confidence_of_normal ws :
  confidence_of ws
  = Normal
      match ws with
      | [] => None
      | _ =>
          Some (round2 (div (fold_left (fun sum value => add sum value) ws pos_zero)
                          (of_Z (Z.of_nat (List.length ws)))))
      end.
Proof.
  unfold confidence_of. destruct ws as [| w t]; [reflexivity|].
  rewrite toFixed2_normal. reflexivity.
Qed.

Lemma for_of_code_points l : forall acc,
  for_of push_page (List.map JString l) acc = Normal acc.
Proof. induction l as [| c t IH]; intros acc; simpl; [reflexivity | apply IH]. Qed.

Lemma content_of_cases a :
  (Netlify.content_of a = Throw TypeError \/ exists s, Netlify.content_of a = Normal s) /\
  (Server.content_of a = Throw TypeError \/ exists s, Server.content_of a = Normal s).
Proof.
  unfold Netlify.content_of, Server.content_of.
  destruct (analyzeResult_key a "content") as [[| [|] | x | s | l | f] |];
    try destruct (JSNumber.truthy x); split; eauto.
Qed.

(** X16.  Whenever the Netlify handler gets through an answer of the OCR
    service, so do the Vercel and the Express handler, with the same
    payload. *)
Theorem server_accepts_what_netlify_accepts a p :
  Netlify.process a = Normal p ->
  Vercel.process a = Normal p /\ Server.process a = Normal p.
Proof.
  intros H. split; [exact H|]. revert H.
  unfold Netlify.process, Server.process,
    Netlify.content_of, Server.content_of, Netlify.pages_of, Server.pages_of.
  destruct (analyzeResult_key a "content") as [[| b | x | s | l | f] |];
    try discriminate;
    (destruct (analyzeResult_key a "pages") as [[| b' | x' | s' | l' | f'] |];
     try discriminate; cbn [bind iterate];
     rewrite ?for_of_code_points; cbn [bind for_of]; intros H; exact H).
Qed.

(** X17.  A page that is [null], or a word that is [null], makes each of
    the three handlers throw a [TypeError], which they answer with
    status 500. *)
Theorem null_entry_fails a items :
  analyzeResult_key a "pages" = Some (JArray items) ->
  visits_null items ->
  Netlify.process a = Throw TypeError /\
  Vercel.process a = Throw TypeError /\
  Server.process a = Throw TypeError.
Proof.
  intros Hp Hn.
  pose proof (for_of_push_page_null items [] Hn) as Hf.
  destruct (content_of_cases a) as [[N | (s & N)] [S | (s' & S)]];
    unfold Netlify.process, Vercel.process, Server.process,
      Netlify.pages_of, Vercel.pages_of, Server.pages_of;
    change (Vercel.content_of a) with (Netlify.content_of a);
    rewrite N, S, ?Hp; cbn [bind iterate]; rewrite ?Hf; repeat split.
Qed.

(** X18.  For a string [content] and an array [pages] without [null]
    pages or words, each handler hands to [payloadSchema.parse] the fields
    of [parseContent(content)] and the confidence computed from the numeric
    word confidences, in page and word order; the confidence is undefined
    exactly when there is none. *)
Theorem process_of_well_formed_answer a s items :
  analyzeResult_key a "content" = Some (JString s) ->
  analyzeResult_key a "pages" = Some (JArray items) ->
  ~ visits_null items ->
  exists c,
    confidence_of (flat_map numbers_of items) = Normal c /\
    (c = None <-> flat_map numbers_of items = []) /\
    Netlify.process a = Normal (payload_of (Extract.Netlify.parseContent s) c) /\
    Vercel.process a = Normal (payload_of (Extract.Vercel.parseContent s) c) /\
    Server.process a = Normal (payload_of (Extract.Server.parseContent s) c).
Proof.
  intros Hc Hp Hn.
  pose proof (for_of_push_page_collects items [] Hn) as Hf. simpl app in Hf.
  rewrite confidence_of_normal. eexists. split; [reflexivity|]. split.
  - destruct (flat_map numbers_of items); split; congruence.
  - unfold Netlify.process, Vercel.process, Server.process,
      Netlify.content_of, Vercel.content_of, Server.content_of,
      Netlify.pages_of, Vercel.pages_of, Server.pages_of.
    rewrite Hc, Hp. cbn [bind iterate]. rewrite Hf. cbn [bind].
    rewrite confidence_of_normal. repeat split.
Qed.

(** X16 at an answer with one row of text and one page of two words. *)
Lemma server_accepts_what_netlify_accepts_witness :
  exists p,
    Netlify.process sample_answer = Normal p /\
    Vercel.process sample_answer = Normal p /\
    Server.process sample_answer = Normal p.
Proof.
  eexists. split; [vm_compute; reflexivity|].
  apply (server_accepts_what_netlify_accepts sample_answer). vm_compute. reflexivity.
Defined.

(** X17 at an answer whose only page is [null]. *)
Lemma null_entry_fails_witness :
  Netlify.process sample_answer_null_page = Throw TypeError /\
  Vercel.process sample_answer_null_page = Throw TypeError /\
  Server.process sample_answer_null_page = Throw TypeError.
Proof.
  apply (null_entry_fails sample_answer_null_page [JNull]).
  - reflexivity.
  - left. left. reflexivity.
Defined.

Lemma sample_answer_no_null :
  ~ visits_null
      [JObject
         [(js "words",
           JArray [JObject [(js "confidence", JNumber (of_ratio false 1 2))];
                   JObject [(js "content", JString (js "Smith,"))]])]].
Proof.
  intros [[E | []] | (page & items & [E | []] & Hw & Hn)].
  - discriminate E.
  - subst page. vm_compute in Hw. inversion Hw; subst.
    destruct Hn as [E | [E | []]]; discriminate E.
Defined.

(** X18 at an answer with one row of text and one page of two words. *)
Lemma process_of_well_formed_answer_witness :
  exists c,
    confidence_of
      (flat_map numbers_of
         [JObject
            [(js "words",
              JArray [JObject [(js "confidence", JNumber (of_ratio false 1 2))];
                      JObject [(js "content", JString (js "Smith,"))]])]])
    = Normal c /\
    (c = None <->
     flat_map numbers_of
       [JObject
          [(js "words",
            JArray [JObject [(js "confidence", JNumber (of_ratio false 1 2))];
                    JObject [(js "content", JString (js "Smith,"))]])]] = []) /\
    Netlify.process sample_answer
    = Normal (payload_of
                (Extract.Netlify.parseContent (js "12345 Smith, Alex J US98765432 31.45")) c) /\
    Vercel.process sample_answer
    = Normal (payload_of
                (Extract.Vercel.parseContent (js "12345 Smith, Alex J US98765432 31.45")) c) /\
    Server.process sample_answer
    = Normal (payload_of
                (Extract.Server.parseContent (js "12345 Smith, Alex J US98765432 31.45")) c).
Proof.
  apply (process_of_well_formed_answer sample_answer).
  - reflexivity.
  - reflexivity.
  - exact sample_answer_no_null.
Defined.

(** X20.  When [pages] is a boolean, a number or an object, the Netlify
    and the Vercel handler throw a [TypeError], for the value is not
    iterable; the Express server, which asks [Array.isArray], produces the
    payload of [parseContent(content)] without a confidence. *)
Theorem pages_that_are_no_list a s v :
  analyzeResult_key a "content" = Some (JString s) ->
  analyzeResult_key a "pages" = Some v ->
  match v with JBool _ | JNumber _ | JObject _ => True | _ => False end ->
  Netlify.process a = Throw TypeError /\
  Vercel.process a = Throw TypeError /\
  Server.process a
  = Normal (payload_of (Extract.Server.parseContent s) None).
Proof.
  intros Hc Hp Hv.
  unfold Netlify.process, Vercel.process, Server.process,
    Netlify.content_of, Vercel.content_of, Server.content_of,
    Netlify.pages_of, Vercel.pages_of, Server.pages_of.
  rewrite Hc, Hp. destruct v; try contradiction; repeat split.
Qed.

(** X20 at an answer whose pages are an empty object. *)
Lemma pages_that_are_no_list_witness :
  Netlify.process sample_answer_pages_object = Throw TypeError /\
  Vercel.process sample_answer_pages_object = Throw TypeError /\
  Server.process sample_answer_pages_object
  = Normal (payload_of
              (Extract.Server.parseContent (js "12345 Smith, Alex J US98765432 31.45"))
              None).
Proof.
  apply (pages_that_are_no_list sample_answer_pages_object
           (js "12345 Smith, Alex J US98765432 31.45") (JObject [])).
  - reflexivity.
  - reflexivity.
  - exact I.
Defined.

End HandlerFacts.

(** ** The application state *)

Section ApplicationFacts.
Import JSNumber JSString Rounding.

(** *** The application's edits of the table *)
Lemma filter_index_past {A : Type} (l : list A) : forall index k,
  (index < k)%nat ->
  App.filter_index (fun idx => negb (Nat.eqb idx index)) k l = l.
Proof.
  induction l as [| z l IHl]; intros index k Hk; simpl; [reflexivity|].
  replace (k =? index)%nat with false by (symmetry; apply Nat.eqb_neq; lia).
  simpl. f_equal. apply IHl. lia.
Qed.

Lemma filter_index_spec {A : Type} (l : list A) : forall index s,
  App.filter_index (fun idx => negb (Nat.eqb idx (s + index))) s l
  = firstn index l ++ skipn (S index) l.
Proof.
  induction l as [| x t IH]; intros index s; simpl.
  - destruct index; reflexivity.
  - destruct index as [| index].
    + rewrite Nat.add_0_r, Nat.eqb_refl. simpl. apply filter_index_past. lia.
    + replace (s =? s + S index)%nat with false by (symmetry; apply Nat.eqb_neq; lia).
      simpl. f_equal. replace (s + S index)%nat with (S s + index)%nat by lia.
      apply IH.
Qed.

(** X11.  [removePartner] drops the row at [index] and no other: the rows
    before it keep their place and the rows after it move up by one. *)
Theorem removePartner_drops_that_row index prev :
  App.partners (App.removePartner index prev)
  = firstn index (App.partners prev) ++ skipn (S index) (App.partners prev) /\
  (forall j, (j < index)%nat ->
     nth_error (App.partners (App.removePartner index prev)) j
     = nth_error (App.partners prev) j) /\
  (forall j, (index <= j)%nat ->
     nth_error (App.partners (App.removePartner index prev)) j
     = nth_error (App.partners prev) (S j)).
Proof.
  assert (E : App.partners (App.removePartner index prev)
              = firstn index (App.partners prev) ++ skipn (S index) (App.partners prev)).
  { unfold App.removePartner. simpl. apply (filter_index_spec _ index 0%nat). }
  split; [exact E|]. rewrite E. generalize (App.partners prev) as l. clear.
  intros l. split.
  - intros j Hj. destruct (Nat.lt_ge_cases j (List.length l)) as [L | L].
    + rewrite nth_error_app1 by (rewrite length_firstn; lia).
      rewrite nth_error_firstn.
      replace (j <? index)%nat with true by (symmetry; apply Nat.ltb_lt; exact Hj).
      reflexivity.
    + assert (N : nth_error l j = None) by (apply nth_error_None; exact L).
      rewrite N. apply nth_error_None.
      rewrite length_app, length_firstn, length_skipn. lia.
  - intros j Hj. destruct (Nat.lt_ge_cases index (List.length l)) as [L | L].
    + rewrite nth_error_app2 by (rewrite length_firstn; lia).
      rewrite length_firstn, nth_error_skipn.
      f_equal. lia.
    + assert (N : nth_error l (S j) = None) by (apply nth_error_None; lia).
      rewrite N. apply nth_error_None.
      rewrite length_app, length_firstn, length_skipn. lia.
Qed.

(** X12.  Removing the row that [addPartner] has just appended gives back
    the previous result. *)
Theorem addPartner_removePartner prev :
  App.removePartner (List.length (App.partners prev)) (App.addPartner prev) = prev.
Proof.
  destruct prev as [s t h ps c w]. unfold App.removePartner, App.addPartner. simpl.
  f_equal. rewrite (filter_index_spec _ (List.length ps) 0%nat).
  rewrite firstn_app, firstn_all, Nat.sub_diag, skipn_app.
  rewrite skipn_all2 by lia.
  replace (S (List.length ps) - List.length ps)%nat with 1%nat by lia.
  simpl. rewrite !app_nil_r. reflexivity.
Qed.

Lemma hourlyRate_blank_row ps totalTips totalHours :
  hourlyRate_of (ps ++ [App.blank_partner]) totalTips totalHours
  = hourlyRate_of ps totalTips totalHours.
Proof.
  unfold hourlyRate_of, hoursSum_of. destruct totalHours as [h |]; [reflexivity|].
  rewrite fold_left_app. simpl.
  change (or_zero pos_zero) with pos_zero.
  destruct (fold_left _ ps pos_zero) as [[|] | [|] | | s m e]; reflexivity.
Qed.

(** X13.  A blank row appended by [addPartner] changes neither the hourly
    rate nor the exact payout of any other partner; its own exact payout
    is [0 * hourlyRate]. *)
Theorem addPartner_keeps_rate result totalTips rounding :
  exists r r',
    App.distribution result totalTips rounding = Normal r /\
    App.distribution (App.addPartner result) totalTips rounding = Normal r' /\
    hourlyRate r' = hourlyRate r /\
    List.map payout (payouts r')
    = List.map payout (payouts r) ++ [mul pos_zero (hourlyRate r)].
Proof.
  unfold App.distribution. simpl.
  destruct (distributeTips_returns (App.partners result) totalTips rounding
              (App.total_tippable_hours result)) as (r & Hr & Hrate & Hpay).
  destruct (distributeTips_returns (App.partners result ++ [App.blank_partner])
              totalTips rounding (App.total_tippable_hours result))
    as (r' & Hr' & Hrate' & Hpay').
  rewrite hourlyRate_blank_row in Hrate', Hpay'.
  exists r, r'. split; [exact Hr|]. split; [exact Hr'|].
  split; [congruence|].
  rewrite Hpay', Hpay, map_app, Hrate. reflexivity.
Qed.

(** X14.  [handleManualParse] keeps the confidence of the previous
    result.  If the pasted text has no row, the previous partners stay and
    the warnings are the one no-rows warning; otherwise the parsed
    partners replace the table and the warnings are empty. *)
Theorem handleManualParse_keeps_rows manualText prev :
  let parsed := Extract.Web.parseManualText manualText in
  let next := App.handleManualParse manualText prev in
  App.confidence next = App.confidence prev /\
  ((Extract.Web.partners parsed = [] /\
    App.partners next = App.partners prev /\
    App.warnings next = [Extract.Web.no_rows_warning])
   \/
   (Extract.Web.partners parsed <> [] /\
    App.partners next = Extract.Web.partners parsed /\
    App.warnings next = [])).
Proof.
  cbv zeta. split; [reflexivity|].
  unfold App.handleManualParse. cbn [App.partners App.warnings].
  unfold Extract.Web.parseManualText. cbv zeta.
  cbn [Extract.Web.partners Extract.Web.warnings].
  destruct (Extract.push_partners _ _ _) as [| p t].
  - left. repeat split.
  - right. repeat split. discriminate.
Qed.

(** X15.  Parsing the same text a second time changes nothing. *)
Theorem handleManualParse_idempotent manualText prev :
  App.handleManualParse manualText (App.handleManualParse manualText prev)
  = App.handleManualParse manualText prev.
Proof.
  unfold App.handleManualParse.
  destruct (Extract.Web.parseManualText manualText) as [ps h s t w].
  cbn [Extract.Web.partners Extract.Web.total_tippable_hours
       Extract.Web.store_number Extract.Web.time_period Extract.Web.warnings
       App.partners App.total_tippable_hours App.store_number App.time_period
       App.confidence].
  destruct ps, h, s, t; reflexivity.
Qed.

End ApplicationFacts.
